(** * vuepress-plugin-apidoc: the metadata processor of the API reference plugin

    A shallow embedding of [packages/vuepress-plugin-apidoc/index.js]:
    the lookup [findMetadataWithLowerCasedKey], the class
    [MetadataProcessor] with its pipeline
    [transoformMetadataAndCollectHeaders], and the page hook
    [extendPageData] with its process-wide [processed] cache.

    Conventions of the embedding.
    - JavaScript strings are Rocq strings; [toLowerCase] and the character
      classes of the regular expressions are the ASCII ones.
    - A field that may be missing ([undefined]) is an [option]; the
      JavaScript truthiness test of such a field is [truthy].
    - The three member arrays of a type are always present, as in the
      generated metadata.
    - An object literal that the code uses as a map ([processed], the
      table of type links) is read as JavaScript reads it: by its own
      properties, then through its prototype chain.
    - An exception leaves the objects mutated so far as they are: effectful
      code is a state transformer that also says how it completed. *)

From Stdlib Require Import ZArith String Ascii List Sorting.Sorted Permutation OrderedTypeEx.
From stdpp Require Import base strings list gmap sorting.

Open Scope string_scope.
Open Scope list_scope.

(** ** JavaScript strings *)

Module Js.

Definition char_code (c : ascii) : N := N_of_ascii c.

Definition is_upper (c : ascii) : bool :=
  ((65 <=? char_code c) && (char_code c <=? 90))%N.

Definition is_lower (c : ascii) : bool :=
  ((97 <=? char_code c) && (char_code c <=? 122))%N.

Definition is_digit (c : ascii) : bool :=
  ((48 <=? char_code c) && (char_code c <=? 57))%N.

(** The class [\w]. *)
Definition is_word (c : ascii) : bool :=
  is_upper c || is_lower c || is_digit c || Ascii.eqb c "_".

Definition lower_char (c : ascii) : ascii :=
  if is_upper c then ascii_of_N (char_code c + 32) else c.

Definition upper_char (c : ascii) : ascii :=
  if is_lower c then ascii_of_N (char_code c - 32) else c.

(** [String.prototype.toLowerCase]. *)
Fixpoint toLowerCase (s : string) : string :=
  match s with
  | EmptyString => EmptyString
  | String c s' => String (lower_char c) (toLowerCase s')
  end.

(** [s.charAt(0).toUpperCase() + s.slice(1)]. *)
Definition capitalize (s : string) : string :=
  match s with
  | EmptyString => EmptyString
  | String c s' => String (upper_char c) s'
  end.

Fixpoint all_chars (p : ascii -> bool) (s : string) : bool :=
  match s with
  | EmptyString => true
  | String c s' => p c && all_chars p s'
  end.

Definition is_empty (s : string) : bool :=
  match s with EmptyString => true | _ => false end.

(** The longest prefix of [s] whose characters satisfy [p], and what
    follows it: how a greedy character class [[...]+] reads a string. *)
Fixpoint span (p : ascii -> bool) (s : string) : string * string :=
  match s with
  | EmptyString => (EmptyString, EmptyString)
  | String c s' =>
      if p c then let '(run, rest) := span p s' in (String c run, rest)
      else (EmptyString, s)
  end.

(** A value used as a condition: a missing field and the empty string
    are falsy. *)
Definition truthy (o : option string) : bool :=
  match o with
  | Some s => negb (is_empty s)
  | None => false
  end.

(** A value spliced into a template literal. *)
Definition template (o : option string) : string :=
  match o with
  | Some s => s
  | None => "undefined"
  end.

End Js.

(** ** Link rewriting *)

Record LinkTarget := { link_name : string; link_path : string }.

(** [`[${link.name}](${link.path})`] *)
Definition markdownLink (link : LinkTarget) : string :=
  "[" +:+ link_name link +:+ "](" +:+ link_path link +:+ ")".

(** [customLinkPattern = /<([^>\/]+)>/g] at the head of [s]: the captured
    key-path and the text after the match. *)
Definition customLinkPattern (s : string) : option (string * string) :=
  match s with
  | String "<" s1 =>
      match Js.span (fun c => negb (Ascii.eqb c ">" || Ascii.eqb c "/")) s1 with
      | (String c k, String ">" rest) => Some (String c k, rest)
      | _ => None
      end
  | _ => None
  end.

(** [mdLinkPattern = /\[([^\]]+)\]\(([^)]+)\)/g] at the head of [s]: the
    two captures (link text, link value) and the text after the match. *)
Definition mdLinkPattern (s : string) : option (string * string * string) :=
  match s with
  | String "[" s1 =>
      match Js.span (fun c => negb (Ascii.eqb c "]")) s1 with
      | (String c t, String "]" (String "(" s2)) =>
          match Js.span (fun c => negb (Ascii.eqb c ")")) s2 with
          | (String d v, String ")" rest) => Some (String c t, String d v, rest)
          | _ => None
          end
      | _ => None
      end
  | _ => None
  end.

(** The version handed to the resolver (line 381):
    [(versions.length === 0 || this.version === versions[0]) ? null : this.version] *)
Definition linkVersion (versions : list string) (version : string) : option string :=
  match versions with
  | [] => None
  | v0 :: _ => if String.eqb version v0 then None else Some version
  end.

Section Rewrite.

(** [getLinkForKeyPath(keyPath, base, version)] of [lib/utils/metadata]:
    the resolver, with [None] for an unresolved key-path. *)
Variable getLinkForKeyPath : string -> string -> option string -> option LinkTarget.

Variable base : string.
Variable version : option string.

(** The replacement callback of both passes. *)
Definition replacement (matched linkValue : string) : string :=
  match getLinkForKeyPath linkValue base version with
  | Some link => markdownLink link
  | None => matched
  end.

(** [markdownString.replace(customLinkPattern, ...)]: the matches are
    found left to right and do not overlap. The first argument bounds
    the number of steps. *)
Fixpoint replaceCustomLinks (fuel : nat) (s : string) : string :=
  match fuel with
  | O => s
  | S fuel' =>
      match s with
      | EmptyString => EmptyString
      | String c s' =>
          match customLinkPattern s with
          | Some (linkValue, rest) =>
              replacement ("<" +:+ linkValue +:+ ">") linkValue
                +:+ replaceCustomLinks fuel' rest
          | None => String c (replaceCustomLinks fuel' s')
          end
      end
  end.

(** [markdownString.replace(mdLinkPattern, ...)] *)
Fixpoint replaceMdLinks (fuel : nat) (s : string) : string :=
  match fuel with
  | O => s
  | S fuel' =>
      match s with
      | EmptyString => EmptyString
      | String c s' =>
          match mdLinkPattern s with
          | Some (linkText, linkValue, rest) =>
              replacement ("[" +:+ linkText +:+ "](" +:+ linkValue +:+ ")") linkValue
                +:+ replaceMdLinks fuel' rest
          | None => String c (replaceMdLinks fuel' s')
          end
      end
  end.

Definition rewriteCustomLinks (s : string) : string :=
  replaceCustomLinks (String.length s) s.

Definition rewriteMdLinks (s : string) : string :=
  replaceMdLinks (String.length s) s.

End Rewrite.

(** ** Data model *)

Record Example := { example_description : option string; example_code : option string }.

(** The [examples] field of a member: the array of the generated metadata,
    or the HTML string the pipeline puts in its place. *)
Inductive Examples :=
| ExamplesList (l : list Example)
| ExamplesHtml (html : string).

Record Deprecated := { notes : option string }.

Record Returns := { returns_summary : option string }.

Module Member.
Record t := {
  name : string;
  summary : option string;
  description : option string;
  examples : option Examples;
  deprecated : option Deprecated;
  returns : option Returns;
  inherits : option string
}.

Definition set_summary (v : string) (m : t) : t :=
  {| name := name m; summary := Some v; description := description m;
     examples := examples m; deprecated := deprecated m; returns := returns m;
     inherits := inherits m |}.

Definition set_description (v : string) (m : t) : t :=
  {| name := name m; summary := summary m; description := Some v;
     examples := examples m; deprecated := deprecated m; returns := returns m;
     inherits := inherits m |}.

Definition set_examples (v : string) (m : t) : t :=
  {| name := name m; summary := summary m; description := description m;
     examples := Some (ExamplesHtml v); deprecated := deprecated m;
     returns := returns m; inherits := inherits m |}.

Definition set_deprecated_notes (v : string) (m : t) : t :=
  {| name := name m; summary := summary m; description := description m;
     examples := examples m; deprecated := Some {| notes := Some v |};
     returns := returns m; inherits := inherits m |}.

Definition set_returns_summary (v : string) (m : t) : t :=
  {| name := name m; summary := summary m; description := description m;
     examples := examples m; deprecated := deprecated m;
     returns := Some {| returns_summary := Some v |}; inherits := inherits m |}.
End Member.

Module TypeMetadata.
Record t := {
  name : string;
  summary : option string;
  description : option string;
  examples : option Examples;
  properties : list Member.t;
  methods : list Member.t;
  events : list Member.t;
  constants : option (list Member.t)
}.

Definition set_summary (v : string) (md : t) : t :=
  {| name := name md; summary := Some v; description := description md;
     examples := examples md; properties := properties md; methods := methods md;
     events := events md; constants := constants md |}.

Definition set_properties (v : list Member.t) (md : t) : t :=
  {| name := name md; summary := summary md; description := description md;
     examples := examples md; properties := v; methods := methods md;
     events := events md; constants := constants md |}.

Definition set_methods (v : list Member.t) (md : t) : t :=
  {| name := name md; summary := summary md; description := description md;
     examples := examples md; properties := properties md; methods := v;
     events := events md; constants := constants md |}.

Definition set_events (v : list Member.t) (md : t) : t :=
  {| name := name md; summary := summary md; description := description md;
     examples := examples md; properties := properties md; methods := methods md;
     events := v; constants := constants md |}.

Definition set_constants (v : list Member.t) (md : t) : t :=
  {| name := name md; summary := summary md; description := description md;
     examples := examples md; properties := properties md; methods := methods md;
     events := events md; constants := Some v |}.

(** [delete metadata.description; delete metadata.examples;] *)
Definition delete_prose (md : t) : t :=
  {| name := name md; summary := summary md; description := None;
     examples := None; properties := properties md; methods := methods md;
     events := events md; constants := constants md |}.
End TypeMetadata.

(** The three member kinds, the [memberType] of the source. *)
Inductive MemberType := Properties | Methods | Events.

Definition memberTypeKey (k : MemberType) : string :=
  match k with
  | Properties => "properties"
  | Methods => "methods"
  | Events => "events"
  end.

(** [metadata[memberType]] *)
Definition members (k : MemberType) (md : TypeMetadata.t) : list Member.t :=
  match k with
  | Properties => TypeMetadata.properties md
  | Methods => TypeMetadata.methods md
  | Events => TypeMetadata.events md
  end.

Definition set_members (k : MemberType) (v : list Member.t) (md : TypeMetadata.t)
  : TypeMetadata.t :=
  match k with
  | Properties => TypeMetadata.set_properties v md
  | Methods => TypeMetadata.set_methods v md
  | Events => TypeMetadata.set_events v md
  end.

Record Header := { level : Z; title : string; slug : string }.

(** ** Completion of effectful code *)

Inductive error := TypeError | RenderError.

Inductive outcome (A : Type) :=
| Return (a : A)
| Throw (e : error).
Arguments Return {A} a.
Arguments Throw {A} e.

(** A computation over a mutable state [S]: the state it leaves and how it
    completed. *)
Definition Eff (S A : Type) : Type := S -> S * outcome A.

Definition ret {S A} (a : A) : Eff S A := fun s => (s, Return a).

Definition throw {S A} (e : error) : Eff S A := fun s => (s, Throw e).

Definition bind {S A B} (m : Eff S A) (f : A -> Eff S B) : Eff S B :=
  fun s =>
    match m s with
    | (s', Return a) => f a s'
    | (s', Throw e) => (s', Throw e)
    end.

Definition gets {S A} (f : S -> A) : Eff S A := fun s => (s, Return (f s)).

Definition modify {S} (f : S -> S) : Eff S unit := fun s => (f s, Return tt).

Definition lift {S A} (o : outcome A) : Eff S A := fun s => (s, o).

Declare Scope eff_scope.
Delimit Scope eff_scope with eff.
Notation "'do' x <- m 'in' k" := (bind m (fun x => k))
  (at level 10, x name, m at level 100, k at level 200) : eff_scope.

(** [xs.forEach(callback)], where the callback mutates the element it is
    given and a state around it; after an exception the elements not yet
    visited are as they were. *)
Fixpoint forEach {S X : Type} (callback : X -> S -> (S * X) * outcome unit)
    (xs : list X) (s : S) : (S * list X) * outcome unit :=
  match xs with
  | [] => ((s, []), Return tt)
  | x :: rest =>
      match callback x s with
      | ((s', x'), Throw e) => ((s', x' :: rest), Throw e)
      | ((s', x'), Return _) =>
          let '((s'', rest'), o) := forEach callback rest s' in
          ((s'', x' :: rest'), o)
      end
  end.

(** ** The markdown renderer and the pages *)

(** What [markdown.renderer.rules.link_open] holds: the rule VuePress
    installs, which renders a link as a router-link component, or the
    plain [self.renderToken] function of line 286. *)
Inductive LinkOpenRule := RouterLinkRule | RenderTokenRule.

Record Frontmatter := {
  layout : option string;
  sidebarDepth : option Z;
  frontmatter_metadataKey : option string;
  pageClass : option string
}.

Record Page := {
  regularPath : string;
  path : string;
  page_title : string;
  page_version : option string;
  frontmatter : Frontmatter;
  metadataKey : option string;
  page_headers : option (list Header)
}.

Definition set_page_headers (v : list Header) (page : Page) : Page :=
  {| regularPath := regularPath page; path := path page; page_title := page_title page;
     page_version := page_version page; frontmatter := frontmatter page;
     metadataKey := metadataKey page; page_headers := Some v |}.

(** ** MetadataProcessor *)

Module MetadataProcessor.
(** The fields of an instance; [markdown] is the renderer shared by all
    instances and [constantNamingPattern] is the same for all. *)
Record t := {
  base : string;
  version : string;
  additionalHeaders : list Header;
  hasConstants : bool
}.

(** [constructor(context, version)] *)
Definition new (context_base version : string) : t :=
  {| base := context_base; version := version; additionalHeaders := [];
     hasConstants := false |}.

Definition set_hasConstants (v : bool) (self : t) : t :=
  {| base := base self; version := version self;
     additionalHeaders := additionalHeaders self; hasConstants := v |}.

Definition set_additionalHeaders (v : list Header) (self : t) : t :=
  {| base := base self; version := version self;
     additionalHeaders := v; hasConstants := hasConstants self |}.
End MetadataProcessor.

(** [this.constantNamingPattern.test(name)] with the pattern
    [/^[A-Z0-9_]+$/]. *)
Definition constantNamingPattern (name : string) : bool :=
  negb (Js.is_empty name)
  && Js.all_chars (fun c => Js.is_upper c || Js.is_digit c || Ascii.eqb c "_") name.

(** What the pipeline works on: the shared renderer rule, the processor
    and the metadata object handed to it. *)
Record Env := {
  link_open : LinkOpenRule;
  this : MetadataProcessor.t;
  metadata : TypeMetadata.t
}.

Definition set_link_open (v : LinkOpenRule) (env : Env) : Env :=
  {| link_open := v; this := this env; metadata := metadata env |}.

Definition on_this (f : MetadataProcessor.t -> MetadataProcessor.t) (env : Env) : Env :=
  {| link_open := link_open env; this := f (this env); metadata := metadata env |}.

Definition on_metadata (f : TypeMetadata.t -> TypeMetadata.t) (env : Env) : Env :=
  {| link_open := link_open env; this := this env; metadata := f (metadata env) |}.

(** The local state of the [forEach] of [transformMembersAndCollectHeaders]:
    the processor and the local array [headers]. *)
Record Loop := { loop_this : MetadataProcessor.t; headers : list Header }.

Definition newline : string := String "010"%char EmptyString.

(** The callback [filterInherited] of line 310. *)
Definition filterInherited (metadata : TypeMetadata.t) (member : Member.t) : bool :=
  if Js.truthy (Member.inherits member)
     && negb (bool_decide (Member.inherits member = Some (TypeMetadata.name metadata)))
  then false
  else true.

Definition filterInheritedMembers (metadata : TypeMetadata.t) : TypeMetadata.t :=
  let md1 := TypeMetadata.set_properties
               (List.filter (filterInherited metadata) (TypeMetadata.properties metadata))
               metadata in
  let md2 := TypeMetadata.set_methods
               (List.filter (filterInherited md1) (TypeMetadata.methods md1)) md1 in
  TypeMetadata.set_events
    (List.filter (filterInherited md2) (TypeMetadata.events md2)) md2.

(** The loop of [splitPropertiesAndConstants], one [push] per property. *)
Definition splitStep (acc : list Member.t * list Member.t) (property : Member.t)
  : list Member.t * list Member.t :=
  let '(properties, constants) := acc in
  if constantNamingPattern (Member.name property)
  then (properties, constants ++ [property])
  else (properties ++ [property], constants).

Definition splitPropertiesAndConstants (metadata : TypeMetadata.t) : TypeMetadata.t :=
  let '(properties, constants) :=
    fold_left splitStep (TypeMetadata.properties metadata) ([], []) in
  TypeMetadata.set_constants constants (TypeMetadata.set_properties properties metadata).

Definition constantsHeader : Header :=
  {| level := 2; title := "Constants"; slug := "constants" |}.

Definition appendAdditionalHeaders (self : MetadataProcessor.t) (page : Page) : Page :=
  let headers :=
    match page_headers page with Some h => h | None => [] end
      ++ MetadataProcessor.additionalHeaders self in
  set_page_headers
    (if MetadataProcessor.hasConstants self then headers ++ [constantsHeader] else headers)
    page.

Definition memberHeader (memberMetadata : Member.t) : Header :=
  {| level := 3; title := Member.name memberMetadata;
     slug := Js.toLowerCase (Member.name memberMetadata) |}.

Definition groupHeader (memberType : MemberType) : Header :=
  {| level := 2; title := Js.capitalize (memberTypeKey memberType);
     slug := memberTypeKey memberType |}.

(** [combinedExamplesMarkdown] of line 337. *)
Definition combinedExamplesMarkdown (examples : list Example) : string :=
  fold_left
    (fun acc example =>
       acc +:+ "##### " +:+ Js.template (example_description example) +:+ newline
           +:+ Js.template (example_code example))
    examples ("#### Examples" +:+ newline +:+ newline).

Section Processor.

(** [getLinkForKeyPath] of [lib/utils/metadata]. *)
Variable getLinkForKeyPath : string -> string -> option string -> option LinkTarget.

(** [markdown.render(text).html] under the [link_open] rule in force;
    [None] when the renderer throws. *)
Variable markdown_render : LinkOpenRule -> string -> option string.

(** [a.localeCompare(b)]: negative, zero or positive. *)
Variable localeCompare : string -> string -> Z.

(** The module-level array [versions], filled from [versions.json] when
    the plugin is loaded. *)
Variable versions : list string.

Definition rewriteTypeLinks (self : MetadataProcessor.t) (markdownString : string)
  : string :=
  let version := linkVersion versions (MetadataProcessor.version self) in
  let markdownString :=
    rewriteCustomLinks getLinkForKeyPath (MetadataProcessor.base self) version
      markdownString in
  rewriteMdLinks getLinkForKeyPath (MetadataProcessor.base self) version markdownString.

(** [renderMarkdown]; calling [replace] on a missing value is a
    [TypeError]. *)
Definition renderMarkdown (rule : LinkOpenRule) (self : MetadataProcessor.t)
    (markdownString : option string) : outcome string :=
  match markdownString with
  | None => Throw TypeError
  | Some s =>
      match markdown_render rule (rewriteTypeLinks self s) with
      | Some html => Return html
      | None => Throw RenderError
      end
  end.

(** [unsortedArray.sort((a, b) => a.name.localeCompare(b.name))]:
    [Array.prototype.sort] is a stable sort; here by insertion, each
    element going before the first one it does not exceed. *)
Fixpoint insertByName (a : Member.t) (sorted : list Member.t) : list Member.t :=
  match sorted with
  | [] => [a]
  | b :: rest =>
      if (localeCompare (Member.name a) (Member.name b) <=? 0)%Z
      then a :: sorted
      else b :: insertByName a rest
  end.

Definition sortByName (unsortedArray : list Member.t) : list Member.t :=
  fold_right insertByName [] unsortedArray.

Section Members.

Variable render : option string -> outcome string.

(** [if (get(member)) { member.field = this.renderMarkdown(get(member)) }] *)
Definition renderField (get : Member.t -> option string)
    (set : string -> Member.t -> Member.t) : Eff Member.t unit :=
  fun memberMetadata =>
    if Js.truthy (get memberMetadata)
    then (do html <- lift (render (get memberMetadata)) in
          modify (set html))%eff memberMetadata
    else ret tt memberMetadata.

(** Lines 336-342. An [examples] field that is already a non-empty
    string has a [length] but no [forEach]. *)
Definition renderExamples : Eff Member.t unit :=
  fun memberMetadata =>
    match Member.examples memberMetadata with
    | Some (ExamplesList (example :: examples)) =>
        (do html <- lift (render (Some (combinedExamplesMarkdown (example :: examples)))) in
         modify (Member.set_examples html))%eff memberMetadata
    | Some (ExamplesHtml html) =>
        if Js.is_empty html then ret tt memberMetadata
        else throw TypeError memberMetadata
    | _ => ret tt memberMetadata
    end.

Definition deprecated_notes (m : Member.t) : option string :=
  match Member.deprecated m with Some d => notes d | None => None end.

Definition returns_summary_of (m : Member.t) : option string :=
  match Member.returns m with Some r => returns_summary r | None => None end.

(** Lines 330-348: the textual fields of one member. *)
Definition transformMemberFields : Eff Member.t unit :=
  (do _ <- renderField Member.summary Member.set_summary in
   do _ <- renderField Member.description Member.set_description in
   do _ <- renderExamples in
   do _ <- renderField deprecated_notes Member.set_deprecated_notes in
   renderField returns_summary_of Member.set_returns_summary)%eff.

End Members.

(** The callback of the [forEach] of line 329. *)
Definition memberCallback (memberType : MemberType) (rule : LinkOpenRule)
    (memberMetadata : Member.t) (lp : Loop) : (Loop * Member.t) * outcome unit :=
  match transformMemberFields (renderMarkdown rule (loop_this lp)) memberMetadata with
  | (memberMetadata', Throw e) => ((lp, memberMetadata'), Throw e)
  | (memberMetadata', Return _) =>
      if String.eqb (memberTypeKey memberType) "properties"
         && constantNamingPattern (Member.name memberMetadata')
      then (({| loop_this := MetadataProcessor.set_hasConstants true (loop_this lp);
                headers := headers lp |}, memberMetadata'), Return tt)
      else (({| loop_this := loop_this lp;
                headers := headers lp ++ [memberHeader memberMetadata'] |},
             memberMetadata'), Return tt)
  end.

Definition transformMembersAndCollectHeaders (memberType : MemberType) : Eff Env unit :=
  fun env =>
    match members memberType (metadata env) with
    | [] => (env, Return tt)
    | membersMetadata =>
        let '((lp, membersMetadata'), o) :=
          forEach (memberCallback memberType (link_open env)) membersMetadata
            {| loop_this := this env; headers := [] |} in
        let env' :=
          {| link_open := link_open env; this := loop_this lp;
             metadata := set_members memberType membersMetadata' (metadata env) |} in
        match o with
        | Throw e => (env', Throw e)
        | Return _ =>
            match headers lp with
            | [] => (env', Return tt)
            | _ =>
                (on_this (fun self =>
                   MetadataProcessor.set_additionalHeaders
                     ((MetadataProcessor.additionalHeaders self ++ [groupHeader memberType])
                        ++ headers lp) self) env', Return tt)
            end
        end
    end.

Definition transoformMetadataAndCollectHeaders : Eff Env unit :=
  (do _ <- modify (on_metadata TypeMetadata.delete_prose) in
   do _ <- modify (on_metadata filterInheritedMembers) in
   do _ <- modify (on_metadata (fun metadata =>
             TypeMetadata.set_properties
               (sortByName (TypeMetadata.properties metadata)) metadata)) in
   do _ <- modify (on_metadata (fun metadata =>
             TypeMetadata.set_methods
               (sortByName (TypeMetadata.methods metadata)) metadata)) in
   do vueRouterLinkRule <- gets link_open in
   do _ <- modify (set_link_open RenderTokenRule) in
   do html <- (fun env =>
                 lift (renderMarkdown (link_open env) (this env)
                         (TypeMetadata.summary (metadata env))) env) in
   do _ <- modify (on_metadata (TypeMetadata.set_summary html)) in
   do _ <- transformMembersAndCollectHeaders Properties in
   do _ <- transformMembersAndCollectHeaders Methods in
   do _ <- transformMembersAndCollectHeaders Events in
   do _ <- modify (set_link_open vueRouterLinkRule) in
   modify (on_metadata splitPropertiesAndConstants))%eff.

End Processor.

(** ** The metadata service and the plugin state *)

(** [metadataService.metadata]: for each version, the types in the order
    of the keys of the loaded object (no type name is an array index). *)
Abbreviation Store := (gmap string (list (string * TypeMetadata.t))).

Fixpoint lookupType (typeName : string) (typesMetadata : list (string * TypeMetadata.t))
  : option TypeMetadata.t :=
  match typesMetadata with
  | [] => None
  | (key, metadata) :: rest =>
      if String.eqb key typeName then Some metadata else lookupType typeName rest
  end.

(** The object found by [lookupType], after a mutation. *)
Fixpoint updateType (typeName : string) (metadata' : TypeMetadata.t)
    (typesMetadata : list (string * TypeMetadata.t)) : list (string * TypeMetadata.t) :=
  match typesMetadata with
  | [] => []
  | (key, metadata) :: rest =>
      if String.eqb key typeName then (key, metadata') :: rest
      else (key, metadata) :: updateType typeName metadata' rest
  end.

(** Modelled from the spec: [metadataService.findMetadata(typeName, version)]
    of [lib/utils/metadata], which is not part of the sources at hand: the
    exact-name lookup within a version, with no match when there is none. *)
Definition findMetadata (store : Store) (typeName version : string)
  : option TypeMetadata.t :=
  match store !! version with
  | Some typesMetadata => lookupType typeName typesMetadata
  | None => None
  end.

Definition storeMetadata (store : Store) (typeName version : string)
    (metadata' : TypeMetadata.t) : Store :=
  match store !! version with
  | Some typesMetadata => <[version := updateType typeName metadata' typesMetadata]> store
  | None => store
  end.

(** The loop of [findMetadataWithLowerCasedKey] over the keys of
    [typesMetadata]. *)
Fixpoint findLowerCased (lowerCasedTypeName : string)
    (typesMetadata : list (string * TypeMetadata.t)) : option TypeMetadata.t :=
  match typesMetadata with
  | [] => None
  | (typeName, metadata) :: rest =>
      if String.eqb (Js.toLowerCase typeName) lowerCasedTypeName then Some metadata
      else findLowerCased lowerCasedTypeName rest
  end.

Definition findMetadataWithLowerCasedKey (store : Store)
    (lowerCasedTypeName version : string) : option TypeMetadata.t :=
  match store !! version with
  | Some typesMetadata => findLowerCased lowerCasedTypeName typesMetadata
  | None => None
  end.

(** The names of the properties of [Object.prototype], which an object
    literal inherits; the value of each is a function, and that of
    [__proto__] is the prototype of the object it is read from. *)
Definition objectPrototypeKeys : list string :=
  ["constructor"; "__defineGetter__"; "__defineSetter__"; "hasOwnProperty";
   "__lookupGetter__"; "__lookupSetter__"; "isPrototypeOf"; "propertyIsEnumerable";
   "toString"; "valueOf"; "__proto__"; "toLocaleString"].

Definition inheritedKey (name : string) : bool :=
  existsb (String.eqb name) objectPrototypeKeys.

(** An object that line 83 creates, as a later request finds it: its own
    properties, each one a processor that line 85 assigned, and its
    prototype if line 85 replaced it: the assignment of an object to
    [__proto__] sets the prototype and creates no property. The
    processors are referred to by their position in the heap. *)
Record VersionObject := {
  own_properties : gmap string nat;
  prototype : option nat
}.

(** The state the plugin keeps for the lifetime of the process. The
    processors live in [objects] and are referred to by their position, so
    that two references to one instance are told from two equal
    instances. The keys of [processed] are its own properties: a version
    is taken not to be the name of a property of [Object.prototype],
    where [processed[version]] would be a built-in object of the engine. *)
Record World := {
  service_metadata : Store;
  currentPage : option Page;
  processed : gmap string VersionObject;
  objects : list MetadataProcessor.t;
  renderer_link_open : LinkOpenRule;
  warnings : list string
}.

(** [/^(\/[\w.\-]+)?\/api\//.test(regularPath)] *)
Definition apiPathPattern (regularPath : string) : bool :=
  match regularPath with
  | String "/" s1 =>
      match Js.span (fun c => Js.is_word c || Ascii.eqb c "." || Ascii.eqb c "-") s1 with
      | (String _ _, rest) => String.prefix "/api/" rest
      | _ => false
      end
  | _ => false
  end
  || String.prefix "/api/" regularPath.

(** What [processed[version][typeName]] evaluates to, as far as line 71
    and the call of line 73 tell the values apart. *)
Inductive Property :=
| Falsy
| ProcessorAt (loc : nat)
| Foreign.

(** The methods of the class [MetadataProcessor]. *)
Definition processorMethods : list string :=
  ["constructor"; "transoformMetadataAndCollectHeaders"; "appendAdditionalHeaders";
   "filterInheritedMembers"; "transformMembersAndCollectHeaders"; "renderMarkdown";
   "rewriteTypeLinks"; "sortByName"; "splitPropertiesAndConstants"].

(** The property [name] of a processor, as an object that has the
    processor for its prototype inherits it: a field the constructor
    sets, a method of the class, or a property of [Object.prototype]. *)
Definition processorProperty (self : MetadataProcessor.t) (name : string) : Property :=
  if String.eqb name "base"
  then if Js.truthy (Some (MetadataProcessor.base self)) then Foreign else Falsy
  else if String.eqb name "version"
  then if Js.truthy (Some (MetadataProcessor.version self)) then Foreign else Falsy
  else if String.eqb name "hasConstants"
  then if MetadataProcessor.hasConstants self then Foreign else Falsy
  else if existsb (String.eqb name) ["markdown"; "additionalHeaders"; "constantNamingPattern"]
          || existsb (String.eqb name) processorMethods
          || inheritedKey name
  then Foreign
  else Falsy.

(** [o[name]] for an object [o] of line 83: [__proto__] reads the
    prototype, another name the own property, then the prototype chain. *)
Definition readProperty (objects : list MetadataProcessor.t) (o : VersionObject)
    (name : string) : Property :=
  if String.eqb name "__proto__"
  then match prototype o with
       | Some loc => ProcessorAt loc
       | None => Foreign
       end
  else
    match own_properties o !! name with
    | Some loc => ProcessorAt loc
    | None =>
        match prototype o with
        | Some loc =>
            match objects !! loc with
            | Some self => processorProperty self name
            | None => if inheritedKey name then Foreign else Falsy
            end
        | None => if inheritedKey name then Foreign else Falsy
        end
    end.

(** [processed[version] && processed[version][typeName]] (line 71). *)
Definition readProcessed (objects : list MetadataProcessor.t)
    (processed : gmap string VersionObject) (version typeName : string) : Property :=
  match processed !! version with
  | Some o => readProperty objects o typeName
  | None => Falsy
  end.

(** [o[name] = metadataProcessor] for an object [o] of line 83. *)
Definition assignProperty (o : VersionObject) (name : string) (metadataProcessor : nat)
  : VersionObject :=
  if String.eqb name "__proto__"
  then {| own_properties := own_properties o; prototype := Some metadataProcessor |}
  else {| own_properties := <[name := metadataProcessor]> (own_properties o);
          prototype := prototype o |}.

(** Lines 82-85. *)
Definition cacheProcessor (processed : gmap string VersionObject)
    (version typeName : string) (metadataProcessor : nat) : gmap string VersionObject :=
  match processed !! version with
  | Some o => <[version := assignProperty o typeName metadataProcessor]> processed
  | None =>
      <[version := assignProperty {| own_properties := ∅; prototype := None |}
                     typeName metadataProcessor]> processed
  end.

Definition apiFrontmatter (fm : Frontmatter) : Frontmatter :=
  {| layout := Some "ApiLayout"; sidebarDepth := Some 0%Z;
     frontmatter_metadataKey := frontmatter_metadataKey fm; pageClass := pageClass fm |}.

Definition set_frontmatter (fm : Frontmatter) (page : Page) : Page :=
  {| regularPath := regularPath page; path := path page; page_title := page_title page;
     page_version := page_version page; frontmatter := fm;
     metadataKey := metadataKey page; page_headers := page_headers page |}.

(** Lines 67-68. *)
Definition markApiPage (typeName : string) (page : Page) : Page :=
  {| regularPath := regularPath page; path := path page; page_title := page_title page;
     page_version := page_version page;
     frontmatter :=
       {| layout := layout (frontmatter page); sidebarDepth := sidebarDepth (frontmatter page);
          frontmatter_metadataKey := frontmatter_metadataKey (frontmatter page);
          pageClass := Some "api-page" |};
     metadataKey := Some typeName; page_headers := page_headers page |}.

(** [page.frontmatter.metadataKey || page.title] *)
Definition pageTypeName (page : Page) : string :=
  if Js.truthy (frontmatter_metadataKey (frontmatter page))
  then Js.template (frontmatter_metadataKey (frontmatter page))
  else page_title page.

(** [page.version || 'next'] *)
Definition pageVersion (page : Page) : string :=
  if Js.truthy (page_version page) then Js.template (page_version page) else "next".

Section Plugin.

Variable getLinkForKeyPath : string -> string -> option string -> option LinkTarget.
Variable markdown_render : LinkOpenRule -> string -> option string.
Variable localeCompare : string -> string -> Z.
Variable versions : list string.

(** [context.base] *)
Variable context_base : string.

Definition set_currentPage_null (w : World) : World :=
  {| service_metadata := service_metadata w; currentPage := None;
     processed := processed w; objects := objects w;
     renderer_link_open := renderer_link_open w; warnings := warnings w |}.

(** The world after the pipeline ran on the processor at [loc] and on
    the metadata of [(version, typeName)], whether it returned or threw. *)
Definition commit (w : World) (loc : nat) (typeName version : string) (env : Env)
  : World :=
  {| service_metadata := storeMetadata (service_metadata w) typeName version (metadata env);
     currentPage := currentPage w;
     processed := processed w;
     objects := <[loc := this env]> (objects w ++ [MetadataProcessor.new context_base version]);
     renderer_link_open := link_open env;
     warnings := warnings w |}.

Definition extendPageData (page : Page) (w : World) : (World * Page) * outcome unit :=
  if negb (apiPathPattern (regularPath page)) then ((w, page), Return tt)
  else
    let page := set_frontmatter (apiFrontmatter (frontmatter page)) page in
    let typeName := pageTypeName page in
    let version := pageVersion page in
    match findMetadata (service_metadata w) typeName version with
    | None =>
        (({| service_metadata := service_metadata w; currentPage := None;
             processed := processed w; objects := objects w;
             renderer_link_open := renderer_link_open w;
             warnings := warnings w ++ ["no metadata found for API page " +:+ path page] |},
          page), Return tt)
    | Some metadata =>
        let page := markApiPage typeName page in
        match readProcessed (objects w) (processed w) version typeName with
        | ProcessorAt loc =>
            match objects w !! loc with
            | Some metadataProcessor =>
                ((set_currentPage_null w, appendAdditionalHeaders metadataProcessor page),
                 Return tt)
            | None => ((w, page), Throw TypeError)
            end
        | Foreign => ((w, page), Throw TypeError)
        | Falsy =>
            let loc := length (objects w) in
            let metadataProcessor := MetadataProcessor.new context_base version in
            match transoformMetadataAndCollectHeaders getLinkForKeyPath markdown_render
                    localeCompare versions
                    {| link_open := renderer_link_open w; this := metadataProcessor;
                       metadata := metadata |} with
            | (env, Throw e) => ((commit w loc typeName version env, page), Throw e)
            | (env, Return _) =>
                let w1 := commit w loc typeName version env in
                ((set_currentPage_null
                    {| service_metadata := service_metadata w1;
                       currentPage := currentPage w1;
                       processed := cacheProcessor (processed w1) version typeName loc;
                       objects := objects w1;
                       renderer_link_open := renderer_link_open w1;
                       warnings := warnings w1 |},
                  appendAdditionalHeaders (this env) page), Return tt)
            end
        end
    end.

(** A sequence of page requests; a request that throws leaves the state
    it reached. *)
Definition serve (pages : list Page) (w : World) : World :=
  fold_left (fun w page => fst (fst (extendPageData page w))) pages w.

End Plugin.

(** ** Vocabulary of the properties *)

(** The characters allowed in the key-path of [<key-path>]. *)
Definition customKeyChar (c : ascii) : bool := negb (Ascii.eqb c ">" || Ascii.eqb c "/").

(** A well-formed [<key-path>] span: a non-empty key-path with neither
    [>] nor [/]. *)
Definition customKey (k : string) : Prop :=
  k <> "" /\ Js.all_chars customKeyChar k = true.

(** The two parts of [[text](target)]: non-empty, without the closing
    delimiter. *)
Definition mdText (t : string) : Prop :=
  t <> "" /\ Js.all_chars (fun c => negb (Ascii.eqb c "]")) t = true.

Definition mdTarget (v : string) : Prop :=
  v <> "" /\ Js.all_chars (fun c => negb (Ascii.eqb c ")")) v = true.

(** The character [a] does not occur in [s]. *)
Definition withoutChar (a : ascii) (s : string) : Prop :=
  Js.all_chars (fun c => negb (Ascii.eqb c a)) s = true.

(** In the text [pre +:+ rest], no match of [pattern] starts within
    [pre]. *)
Definition noMatchStarts {A} (pattern : string -> option A) (pre rest : string) : Prop :=
  forall p1 p2, pre = p1 +:+ p2 -> p2 <> "" -> pattern (p2 +:+ rest) = None.

(** A member inherited from another type: its [inherits] field is set,
    to a name (a non-empty string), and differs from the name of the
    type. *)
Definition inheritedFromOther (metadata : TypeMetadata.t) (member : Member.t) : Prop :=
  exists parent,
    Member.inherits member = Some parent /\ parent <> ""
    /\ parent <> TypeMetadata.name metadata.

#[global] Instance inheritedFromOther_dec metadata member :
  Decision (inheritedFromOther metadata member).
Proof.
  unfold inheritedFromOther. destruct (Member.inherits member) as [parent|].
  - destruct (decide (parent = "")) as [->|Hne].
    + right. intros (p & [= <-] & H & _). now apply H.
    + destruct (decide (parent = TypeMetadata.name metadata)) as [->|Hne'].
      * right. intros (p & [= <-] & _ & H). now apply H.
      * left. now exists parent.
  - right. intros (p & H & _). discriminate H.
Defined.

#[global] Instance MemberType_eq_dec : EqDecision MemberType.
Proof. solve_decision. Defined.

(** A member whose name fully matches [/^[A-Z0-9_]+$/]. *)
Definition isConstant (member : Member.t) : Prop :=
  constantNamingPattern (Member.name member) = true.

#[global] Instance isConstant_dec member : Decision (isConstant member).
Proof. unfold isConstant. apply _. Defined.

(** The set of the names of a list of members. *)
Definition memberNames (l : list Member.t) : gset string :=
  list_to_set (Member.name <$> l).

(** The level-2 header of a kind followed by the level-3 headers of the
    given members, or nothing when there is no member. *)
Definition headerGroup (memberType : MemberType) (l : list Member.t) : list Header :=
  match l with
  | [] => []
  | _ => groupHeader memberType :: (memberHeader <$> l)
  end.

(** [a] does not come after [b]: the comparison of their names is not
    positive. *)
Definition nameLe (localeCompare : string -> string -> Z) (a b : Member.t) : Prop :=
  (localeCompare (Member.name a) (Member.name b) <= 0)%Z.

(** The comparison is that of a total preorder on the names. *)
Definition consistentComparator (localeCompare : string -> string -> Z) : Prop :=
  (forall a b, (localeCompare a b <= 0)%Z \/ (localeCompare b a <= 0)%Z)
  /\ (forall a b c,
        (localeCompare a b <= 0)%Z -> (localeCompare b c <= 0)%Z ->
        (localeCompare a c <= 0)%Z).

(** The members that the comparison ranks with the name [n]. *)
Definition rankedWith (localeCompare : string -> string -> Z) (n : string) (m : Member.t)
  : Prop :=
  (localeCompare (Member.name m) n <= 0)%Z /\ (localeCompare n (Member.name m) <= 0)%Z.

(** The members of a kind as the pipeline renders them: without the
    inherited ones, properties and methods sorted. *)
Definition keptMembers (localeCompare : string -> string -> Z) (k : MemberType)
    (metadata : TypeMetadata.t) : list Member.t :=
  let kept := filter (fun member => ~ inheritedFromOther metadata member)
                (members k metadata) in
  match k with
  | Events => kept
  | _ => sortByName localeCompare kept
  end.

#[global] Instance rankedWith_dec localeCompare n m :
  Decision (rankedWith localeCompare n m).
Proof. unfold rankedWith. apply _. Defined.

(** The rendering of the fields of one member by the processor [self]
    while the plain rule is in force. *)
Definition renderedMember
    (getLinkForKeyPath : string -> string -> option string -> option LinkTarget)
    (markdown_render : LinkOpenRule -> string -> option string) (versions : list string)
    (self : MetadataProcessor.t) (m : Member.t) : Member.t :=
  fst (transformMemberFields
         (renderMarkdown getLinkForKeyPath markdown_render versions RenderTokenRule self) m).

(** The processor that [processed[version][typeName]] is, if it is one. *)
Definition lookupProcessed (processed : gmap string VersionObject)
    (version typeName : string) : option nat :=
  match processed !! version with
  | Some o =>
      if String.eqb typeName "__proto__" then prototype o
      else own_properties o !! typeName
  | None => None
  end.


(** Every processor the cache refers to, as a property or as a
    prototype, is there. *)
Definition cacheWellFormed (w : World) : Prop :=
  forall version typeName loc,
    lookupProcessed (processed w) version typeName = Some loc ->
    is_Some (objects w !! loc).

(** The [examples] field is not yet a rendered, non-empty string. *)
Definition examplesNotRendered (m : Member.t) : Prop :=
  forall html, Member.examples m = Some (ExamplesHtml html) -> html = "".

(** ** Sample inputs *)

(** A resolver that knows one key-path. *)
Definition resolveFooBar (keyPath base : string) (version : option string)
  : option LinkTarget :=
  if String.eqb keyPath "Foo.bar"
  then Some {| link_name := "Foo.bar"; link_path := "/api/Foo.html#bar" |}
  else None.

(** A resolver that also resolves the path it gave [Foo.bar]. *)
Definition resolvePathToo (keyPath base : string) (version : option string)
  : option LinkTarget :=
  if String.eqb keyPath "Foo.bar"
  then Some {| link_name := "Foo.bar"; link_path := "/api/Foo.html#bar" |}
  else if String.eqb keyPath "/api/Foo.html#bar"
  then Some {| link_name := "Foo"; link_path := "/api/Foo.html" |}
  else None.

(** A resolver that shows, in the name of the link it returns, the
    version it was called with. *)
Definition resolveShowingVersion (keyPath base : string) (version : option string)
  : option LinkTarget :=
  Some {| link_name := match version with Some v => v | None => "null" end;
          link_path := keyPath |}.

Definition emptyMetadata (name : string) : TypeMetadata.t :=
  {| TypeMetadata.name := name; TypeMetadata.summary := Some "";
     TypeMetadata.description := None; TypeMetadata.examples := None;
     TypeMetadata.properties := []; TypeMetadata.methods := [];
     TypeMetadata.events := []; TypeMetadata.constants := None |}.

Definition storeWithFoo : Store := {[ "next" := [("Foo", emptyMetadata "Foo")] ]}.

(** A renderer that wraps the text in a paragraph. *)
Definition sampleRender (rule : LinkOpenRule) (text : string) : option string :=
  Some ("<p>" +:+ text +:+ "</p>").

(** The comparison of two names by their character codes. *)
Definition codeUnitCompare (a b : string) : Z :=
  match String.compare a b with
  | Lt => (-1)%Z
  | Eq => 0%Z
  | Gt => 1%Z
  end.

Definition sampleMember (name : string) (inherits : option string) : Member.t :=
  {| Member.name := name; Member.summary := Some ("The " +:+ name);
     Member.description := None; Member.examples := None; Member.deprecated := None;
     Member.returns := None; Member.inherits := inherits |}.

(** A type with inherited members, unsorted methods and one constant. *)
Definition sampleMetadata : TypeMetadata.t :=
  {| TypeMetadata.name := "Foo"; TypeMetadata.summary := Some "See <Foo.bar>";
     TypeMetadata.description := Some "A sample type"; TypeMetadata.examples := None;
     TypeMetadata.properties :=
       [sampleMember "title" None; sampleMember "MAX_SIZE" None;
        sampleMember "visible" (Some "Bar")];
     TypeMetadata.methods :=
       [sampleMember "show" None; sampleMember "add" (Some "Foo");
        sampleMember "hide" (Some "Bar")];
     TypeMetadata.events := [sampleMember "click" None; sampleMember "blur" None];
     TypeMetadata.constants := None |}.

(** The type of the header example: the two properties [MAX_SIZE] and
    [title], no method, no event. *)
Definition twoProperties : TypeMetadata.t :=
  {| TypeMetadata.name := "Foo"; TypeMetadata.summary := Some "A type";
     TypeMetadata.description := None; TypeMetadata.examples := None;
     TypeMetadata.properties := [sampleMember "title" None; sampleMember "MAX_SIZE" None];
     TypeMetadata.methods := []; TypeMetadata.events := [];
     TypeMetadata.constants := None |}.

(** A type without a summary. *)
Definition noSummary : TypeMetadata.t :=
  {| TypeMetadata.name := "Foo"; TypeMetadata.summary := None;
     TypeMetadata.description := None; TypeMetadata.examples := None;
     TypeMetadata.properties := []; TypeMetadata.methods := []; TypeMetadata.events := [];
     TypeMetadata.constants := None |}.

Definition sampleEnv (metadata : TypeMetadata.t) : Env :=
  {| link_open := RouterLinkRule; this := MetadataProcessor.new "/" "next";
     metadata := metadata |}.

Definition samplePipeline : Eff Env unit :=
  transoformMetadataAndCollectHeaders resolveFooBar sampleRender codeUnitCompare [].


Definition samplePage : Page :=
  {| regularPath := "/api/foo.html"; path := "/api/foo.html"; page_title := "Foo";
     page_version := None;
     frontmatter := {| layout := None; sidebarDepth := None;
                       frontmatter_metadataKey := None; pageClass := None |};
     metadataKey := None; page_headers := None |}.

(** A type the methods of which make the pipeline throw: the examples of
    one of them are rendered already. *)
Definition renderedOnce : Member.t :=
  {| Member.name := "close"; Member.summary := Some "Closes";
     Member.description := None; Member.examples := Some (ExamplesHtml "<p>x</p>");
     Member.deprecated := None; Member.returns := None; Member.inherits := None |}.

Definition throwingMetadata : TypeMetadata.t :=
  {| TypeMetadata.name := "Foo"; TypeMetadata.summary := Some "A type";
     TypeMetadata.description := Some "A sample type"; TypeMetadata.examples := None;
     TypeMetadata.properties := [sampleMember "title" None; sampleMember "MAX_SIZE" None];
     TypeMetadata.methods := [sampleMember "show" None; renderedOnce];
     TypeMetadata.events := [sampleMember "click" None];
     TypeMetadata.constants := None |}.

Definition throwingWorld : World :=
  {| service_metadata := {[ "next" := [("Foo", throwingMetadata)] ]};
     currentPage := None; processed := ∅; objects := [];
     renderer_link_open := RouterLinkRule; warnings := [] |}.



(** What the pipeline leaves of the two sample types. *)
Definition sampleAfter : Env :=
  Eval vm_compute in fst (samplePipeline (sampleEnv sampleMetadata)).

Definition twoPropertiesAfter : Env :=
  Eval vm_compute in fst (samplePipeline (sampleEnv twoProperties)).

(** What a first and a second run of the pipeline leave of the type that
    makes it throw. *)
Definition throwingAfter : Env :=
  Eval vm_compute in fst (samplePipeline (sampleEnv throwingMetadata)).


(** ** Vocabulary of the further properties *)

(** The [examples] field is a rendered, non-empty string. *)
Definition examplesRendered (m : Member.t) : Prop :=
  exists html, Member.examples m = Some (ExamplesHtml html) /\ html <> "".

(** The value a text field has after its rendering by [render] returned. *)
Definition renderedField (render : option string -> outcome string)
    (before after : option string) : Prop :=
  if Js.truthy before then exists html, render before = Return html /\ after = Some html
  else after = before.

(** ** The development server *)

(** A line terminator, which [.] does not match. *)
Definition is_line_terminator (c : ascii) : bool :=
  Ascii.eqb c "010" || Ascii.eqb c "013".

(** The class [[\w.]]. *)
Definition routeChar (c : ascii) : bool := Js.is_word c || Ascii.eqb c ".".

(** [[\w.]*.json$] at the head of [s]: the run of the class before the
    character that [.] matches and the final [json]. *)
Fixpoint typeSegmentRun (s : string) : option string :=
  match s with
  | EmptyString => None
  | String c rest =>
      if String.eqb rest "json"
      then if is_line_terminator c then None else Some EmptyString
      else if routeChar c then option_map (String c) (typeSegmentRun rest)
      else None
  end.

(** [([\w.]+).json$] at the head of [s]: the capture. *)
Definition typeSegment (s : string) : option string :=
  match typeSegmentRun s with
  | Some (String c g) => Some (String c g)
  | _ => None
  end.

(** [\/([\w.]+)\/([\w.]+).json$] at the head of [s]: the two captures. *)
Definition metadataRouteAt (s : string) : option (string * string) :=
  match s with
  | String "/" s1 =>
      match Js.span routeChar s1 with
      | (String c version, String "/" s2) =>
          match typeSegment s2 with
          | Some typeName => Some (String c version, typeName)
          | None => None
          end
      | _ => None
      end
  | _ => None
  end.

(** [req.path.match(metadataRoutePattern)]: the leftmost match. *)
Fixpoint metadataRoutePattern (path : string) : option (string * string) :=
  match metadataRouteAt path with
  | Some captures => Some captures
  | None =>
      match path with
      | EmptyString => None
      | String _ rest => metadataRoutePattern rest
      end
  end.

Fixpoint countSlashes (s : string) : nat :=
  match s with
  | EmptyString => 0
  | String c s' => (if Ascii.eqb c "/" then 1 else 0) + countSlashes s'
  end.

(** A segment of a route: a non-empty string of the class [[\w.]]. *)
Definition routeSegment (s : string) : Prop :=
  s <> "" /\ Js.all_chars routeChar s = true.

Record Request := { accepts_json : bool; request_path : string }.

(** What the middleware of [beforeDevServer] does with a request: it sets
    the status 406, hands the request on, or answers with the metadata. *)
Inductive Response :=
| Status406
| Next
| Json (metadata : TypeMetadata.t).

Definition devServerMiddleware (store : Store) (req : Request) : Response :=
  if negb (accepts_json req) then Status406
  else
    match metadataRoutePattern (request_path req) with
    | None => Next
    | Some (version, typeName) =>
        match findMetadataWithLowerCasedKey store typeName version with
        | None => Next
        | Some metadata => Json metadata
        end
    end.

(** The name of the file [generated] writes for a type (line 193). *)
Definition metadataFileName (typeName : string) : string :=
  Js.toLowerCase typeName +:+ ".json".

(** ** The table of type links *)

(** The own property [name] of [typeLinks], the table being the list of
    its own properties. *)
Fixpoint lookupLink (name : string) (typeLinks : list (string * string)) : option string :=
  match typeLinks with
  | [] => None
  | (key, path) :: rest =>
      if String.eqb key name then Some path else lookupLink name rest
  end.

(** Whether [typeLinks[name]] is truthy: the own property if there is
    one, the inherited one otherwise. *)
Definition hasLink (name : string) (typeLinks : list (string * string)) : bool :=
  match lookupLink name typeLinks with
  | Some path => Js.truthy (Some path)
  | None => inheritedKey name
  end.

(** [typeLinks[name] = path]: an existing key keeps its place. *)
Fixpoint assignLink (name path : string) (typeLinks : list (string * string))
  : list (string * string) :=
  match typeLinks with
  | [] => [(name, path)]
  | (key, old) :: rest =>
      if String.eqb key name then (key, path) :: rest
      else (key, old) :: assignLink name path rest
  end.

Section TypeLinks.

Variable getLinkForKeyPath : string -> string -> option string -> option LinkTarget.

(** The callback of line 98; the [path] of an unresolved name is a
    [TypeError]. *)
Definition typeLinkStep (typeLinks : list (string * string)) (name : string)
  : outcome (list (string * string)) :=
  if hasLink name typeLinks then Return typeLinks
  else
    match getLinkForKeyPath name "/" None with
    | Some link => Return (assignLink name (link_path link) typeLinks)
    | None => Throw TypeError
    end.

Fixpoint typeLinksOfNames (names : list string) (typeLinks : list (string * string))
  : outcome (list (string * string)) :=
  match names with
  | [] => Return typeLinks
  | name :: rest =>
      match typeLinkStep typeLinks name with
      | Return typeLinks' => typeLinksOfNames rest typeLinks'
      | Throw e => Throw e
      end
  end.

(** Lines 96-103 of [clientDynamicModules], over [metadataService.versions];
    the keys of a version that is not loaded are a [TypeError]. *)
Fixpoint typeLinksOfVersions (store : Store) (versions : list string)
    (typeLinks : list (string * string)) : outcome (list (string * string)) :=
  match versions with
  | [] => Return typeLinks
  | version :: rest =>
      match store !! version with
      | None => Throw TypeError
      | Some typesMetadata =>
          match typeLinksOfNames (fst <$> typesMetadata) typeLinks with
          | Return typeLinks' => typeLinksOfVersions store rest typeLinks'
          | Throw e => Throw e
          end
      end
  end.

Definition typeLinks (store : Store) (versions : list string)
  : outcome (list (string * string)) :=
  typeLinksOfVersions store versions [].

(** A table without a repeated key, each path being the one the resolver
    gives the key for the base path [/] and no version. *)
Definition resolvedTable (typeLinks : list (string * string)) : Prop :=
  NoDup (fst <$> typeLinks)
  /\ forall name path,
       lookupLink name typeLinks = Some path ->
       exists link, getLinkForKeyPath name "/" None = Some link /\ link_path link = path.

End TypeLinks.

(** A type name of a listed version that is not the name of a property
    of [Object.prototype]. *)
Definition listedType (store : Store) (versions : list string) (name : string) : Prop :=
  inheritedKey name = false
  /\ exists version typesMetadata,
       version ∈ versions /\ store !! version = Some typesMetadata
       /\ name ∈ (fst <$> typesMetadata).

(** ** The [metadata] command *)

(** The words of the command of lines 216-226, for the input paths
    [first :: rest]: [inputPaths.shift()] takes the first one, the
    [reduce] pushes an [-a] before each other one. *)
Definition commandWords (docgenMainScript first : string) (rest : list string)
    (outputPath : string) : list string :=
  ["node"; docgenMainScript; "-f"; "json-raw"; first]
    ++ fold_left (fun acc cur => acc ++ ["-a"; cur]) rest []
    ++ ["-o"; outputPath].

Inductive LogLine :=
| LogWait (message : string)
| LogSuccess (message : string)
| LogError (message : string).

Inductive CliResult :=
| CliDone
| CliMissingPaths
| CliExecFailed (e : string).

Section MetadataCommand.

(** [path.resolve], [require.resolve('titanium-docgen')], [context.sourceDir]
    and the execution of a command, with its error if it fails. *)
Variable path_resolve : list string -> string.
Variable docgenMainScript : string.
Variable sourceDir : string.
Variable execAsync : string -> option string.

(** The action of the command: the lines it logs and how it ends. *)
Definition metadataAction (inputPaths : list string) (option_o : option string)
  : list LogLine * CliResult :=
  match inputPaths with
  | [] => ([], CliMissingPaths)
  | first :: rest =>
      let outputPath :=
        if Js.truthy option_o then path_resolve [Js.template option_o]
        else path_resolve [sourceDir; "api"] in
      let command := String.concat " " (commandWords docgenMainScript first rest outputPath) in
      match execAsync command with
      | None =>
          ([LogWait "Generating API metadata...";
            LogSuccess ("Done! Metadata generated to " +:+ outputPath)], CliDone)
      | Some e =>
          ([LogWait "Generating API metadata...";
            LogError "Failed to generate API metadata."], CliExecFailed e)
      end
  end.

End MetadataCommand.

(** ** More sample inputs *)

(** A version the name of which has a hyphen. *)
Definition storeWithBeta : Store := {[ "8.0.0-beta" := [("Foo", emptyMetadata "Foo")] ]}.

(** A version with a type that is named as a property of
    [Object.prototype] is. *)
Definition storeWithConstructor : Store :=
  {[ "next" := [("constructor", emptyMetadata "constructor"); ("Foo", emptyMetadata "Foo")] ]}.

(** The renderer of the samples, under the plain rule. *)
Definition sampleMemberRender : option string -> outcome string :=
  renderMarkdown resolveFooBar sampleRender [] RenderTokenRule (MetadataProcessor.new "/" "next").

(** A member with two examples and a deprecation note. *)
Definition sampleWithExamples : Member.t :=
  {| Member.name := "open"; Member.summary := Some "Opens <Foo.bar>";
     Member.description := None;
     Member.examples :=
       Some (ExamplesList
               [ {| example_description := Some "Simple"; example_code := Some "open()" |};
                 {| example_description := Some "Modal"; example_code := None |} ]);
     Member.deprecated := Some {| notes := Some "Use show" |};
     Member.returns := None; Member.inherits := None |}.

Definition sampleWithExamplesAfter : Member.t :=
  Eval vm_compute in fst (transformMemberFields sampleMemberRender sampleWithExamples).

(** * Properties *)

(** ** Strings and the two link patterns *)

#[local] Arguments String.append !_ _ / : simpl nomatch.

Lemma string_length_app (s t : string) :
  String.length (s +:+ t) = String.length s + String.length t.
Proof. induction s as [|c s IH]; simpl; [reflexivity | now rewrite IH]. Qed.

Lemma string_app_assoc (s t u : string) : (s +:+ t) +:+ u = s +:+ (t +:+ u).
Proof. induction s as [|c s IH]; simpl; [reflexivity | now rewrite IH]. Qed.

Lemma string_app_nil_r (s : string) : s +:+ "" = s.
Proof. induction s as [|c s IH]; simpl; [reflexivity | now rewrite IH]. Qed.

(** What [span] returns is a splitting of its argument. *)
Lemma span_split p s run rest :
  Js.span p s = (run, rest) ->
  s = run +:+ rest /\ Js.all_chars p run = true.
Proof.
  revert run rest. induction s as [|c s IH]; simpl; intros run rest H.
  - inversion H; subst. split; reflexivity.
  - destruct (p c) eqn:Hc.
    + destruct (Js.span p s) as [run' rest'] eqn:Hs. inversion H; subst.
      destruct (IH run' rest eq_refl) as [-> Hall]. simpl. rewrite Hc. split; auto.
    + inversion H; subst. split; reflexivity.
Qed.

(** A run of the class followed by a character outside it is read whole. *)
Lemma span_run p run c rest :
  Js.all_chars p run = true -> p c = false ->
  Js.span p (run +:+ String c rest) = (run, String c rest).
Proof.
  intros Hall Hc. induction run as [|d run IH]; simpl in *.
  - now rewrite Hc.
  - apply andb_true_iff in Hall as [Hd Hall]. rewrite Hd, (IH Hall). reflexivity.
Qed.

Lemma customLinkPattern_match k rest :
  customKey k -> customLinkPattern ("<" +:+ k +:+ ">" +:+ rest) = Some (k, rest).
Proof.
  intros [Hne Hall]. simpl.
  change (fun c => negb (Ascii.eqb c ">" || Ascii.eqb c "/")) with customKeyChar.
  rewrite (span_run customKeyChar k ">" rest Hall eq_refl).
  destruct k; [contradiction | reflexivity].
Qed.

Lemma customLinkPattern_inv s k rest :
  customLinkPattern s = Some (k, rest) ->
  s = "<" +:+ k +:+ ">" +:+ rest /\ customKey k.
Proof.
  unfold customLinkPattern. destruct s as [|c s1]; [discriminate|].
  destruct (Ascii.eqb_spec c "<") as [->|Hc].
  2:{ intros H. exfalso. destruct c as [[] [] [] [] [] [] [] []]; try discriminate H.
      now apply Hc. }
  destruct (Js.span _ s1) as [run r] eqn:Hs.
  destruct run as [|d run]; [discriminate|].
  destruct r as [|e r]; [discriminate|].
  intros H.
  assert (e = ">"%char /\ k = String d run /\ rest = r) as (-> & -> & ->).
  { destruct e as [[] [] [] [] [] [] [] []]; try discriminate H.
      inversion H; auto. }
  apply span_split in Hs as [-> Hall]. split; [reflexivity|].
  split; [discriminate | exact Hall].
Qed.

Lemma mdLinkPattern_match t v rest :
  mdText t -> mdTarget v ->
  mdLinkPattern ("[" +:+ t +:+ "](" +:+ v +:+ ")" +:+ rest) = Some (t, v, rest).
Proof.
  intros [Ht Hall] [Hv Hall']. simpl.
  rewrite (span_run _ t "]" _ Hall eq_refl).
  destruct t as [|c t]; [contradiction|]. simpl.
  rewrite (span_run _ v ")" _ Hall' eq_refl).
  destruct v; [contradiction | reflexivity].
Qed.

Lemma mdLinkPattern_inv s t v rest :
  mdLinkPattern s = Some (t, v, rest) ->
  s = "[" +:+ t +:+ "](" +:+ v +:+ ")" +:+ rest /\ mdText t /\ mdTarget v.
Proof.
  unfold mdLinkPattern. destruct s as [|c s1]; [discriminate|].
  destruct (Ascii.eqb_spec c "[") as [->|Hc].
  2:{ intros H. exfalso. destruct c as [[] [] [] [] [] [] [] []]; try discriminate H.
      now apply Hc. }
  destruct (Js.span _ s1) as [run r] eqn:Hs.
  destruct run as [|d run]; [discriminate|].
  destruct r as [|e r]; [discriminate|].
  destruct (Ascii.eqb_spec e "]") as [->|He].
  2:{ intros H. exfalso. destruct e as [[] [] [] [] [] [] [] []]; try discriminate H.
      now apply He. }
  destruct r as [|f s2]; [discriminate|].
  destruct (Ascii.eqb_spec f "(") as [->|Hf].
  2:{ intros H. exfalso. destruct f as [[] [] [] [] [] [] [] []]; try discriminate H.
      now apply Hf. }
  destruct (Js.span _ s2) as [run2 r2] eqn:Hs2.
  destruct run2 as [|g run2]; [discriminate|].
  destruct r2 as [|h r2]; [discriminate|].
  intros H.
  assert (h = ")"%char /\ t = String d run /\ v = String g run2 /\ rest = r2)
    as (-> & -> & -> & ->).
  { destruct h as [[] [] [] [] [] [] [] []]; try discriminate H. inversion H; auto. }
  apply span_split in Hs as [-> Hall]. apply span_split in Hs2 as [-> Hall2].
  split; [|split; split; (discriminate || assumption)].
  reflexivity.
Qed.

Lemma all_chars_app p s t :
  Js.all_chars p (s +:+ t) = Js.all_chars p s && Js.all_chars p t.
Proof. induction s as [|c s IH]; simpl; [reflexivity | now rewrite IH, andb_assoc]. Qed.

Lemma withoutChar_app a s t : withoutChar a (s +:+ t) <-> withoutChar a s /\ withoutChar a t.
Proof. unfold withoutChar. rewrite all_chars_app. apply andb_true_iff. Qed.

Lemma noMatchStarts_tail {A} (pattern : string -> option A) c pre rest :
  noMatchStarts pattern (String c pre) rest ->
  pattern (String c (pre +:+ rest)) = None /\ noMatchStarts pattern pre rest.
Proof.
  intros H. split.
  - apply (H "" (String c pre)); [reflexivity | discriminate].
  - intros p1 p2 -> Hne. apply (H (String c p1) p2); [reflexivity | exact Hne].
Qed.

Lemma customLinkPattern_other c s :
  Ascii.eqb c "<" = false -> customLinkPattern (String c s) = None.
Proof.
  intros Hc. unfold customLinkPattern.
  destruct (Ascii.eqb_spec c "<") as [->|Hne]; [discriminate Hc|].
  destruct c as [[] [] [] [] [] [] [] []]; try reflexivity. now contradiction Hne.
Qed.

Lemma mdLinkPattern_other c s :
  Ascii.eqb c "[" = false -> mdLinkPattern (String c s) = None.
Proof.
  intros Hc. unfold mdLinkPattern.
  destruct (Ascii.eqb_spec c "[") as [->|Hne]; [discriminate Hc|].
  destruct c as [[] [] [] [] [] [] [] []]; try reflexivity. now contradiction Hne.
Qed.

(** A match of the first pattern starts with [<], one of the second
    with [[]. *)
Lemma noMatchStarts_customLinkPattern pre rest :
  withoutChar "<" pre -> noMatchStarts customLinkPattern pre rest.
Proof.
  intros Hall p1 p2 -> Hne. apply withoutChar_app in Hall as [_ H2].
  destruct p2 as [|c p2]; [now contradiction Hne|]. unfold withoutChar in H2.
  simpl in H2. apply andb_true_iff in H2 as [Hc _]. apply negb_true_iff in Hc.
  change (customLinkPattern (String c (p2 +:+ rest)) = None).
  now apply customLinkPattern_other.
Qed.

Lemma noMatchStarts_mdLinkPattern pre rest :
  withoutChar "[" pre -> noMatchStarts mdLinkPattern pre rest.
Proof.
  intros Hall p1 p2 -> Hne. apply withoutChar_app in Hall as [_ H2].
  destruct p2 as [|c p2]; [now contradiction Hne|]. unfold withoutChar in H2.
  simpl in H2. apply andb_true_iff in H2 as [Hc _]. apply negb_true_iff in Hc.
  change (mdLinkPattern (String c (p2 +:+ rest)) = None).
  now apply mdLinkPattern_other.
Qed.

Section RewriteFacts.

Variable getLinkForKeyPath : string -> string -> option string -> option LinkTarget.
Variable base : string.
Variable version : option string.

#[local] Abbreviation replacement' := (replacement getLinkForKeyPath base version).
#[local] Abbreviation replaceCustomLinks' :=
  (replaceCustomLinks getLinkForKeyPath base version).
#[local] Abbreviation replaceMdLinks' := (replaceMdLinks getLinkForKeyPath base version).
#[local] Abbreviation rewriteCustomLinks' :=
  (rewriteCustomLinks getLinkForKeyPath base version).
#[local] Abbreviation rewriteMdLinks' := (rewriteMdLinks getLinkForKeyPath base version).

Lemma replacement_resolved matched linkValue link :
  getLinkForKeyPath linkValue base version = Some link ->
  replacement' matched linkValue = markdownLink link.
Proof. unfold replacement. now intros ->. Qed.

Lemma replacement_unresolved matched linkValue :
  getLinkForKeyPath linkValue base version = None ->
  replacement' matched linkValue = matched.
Proof. unfold replacement. now intros ->. Qed.

(** The bound on the number of steps is never reached: any bound from
    the length of the string on gives the same text. *)
Lemma replaceCustomLinks_fuel n : forall m s,
  String.length s <= n -> String.length s <= m ->
  replaceCustomLinks' n s = replaceCustomLinks' m s.
Proof.
  induction n as [|n IH]; intros m s Hn Hm.
  - destruct s; [|simpl in Hn; lia]. now destruct m.
  - destruct s as [|c s]; [now destruct m|].
    destruct m as [|m]; [simpl in Hm; lia|].
    cbn [replaceCustomLinks].
    destruct (customLinkPattern (String c s)) as [[k rest]|] eqn:Hp.
    + apply customLinkPattern_inv in Hp as [Hs _].
      apply (f_equal String.length) in Hs.
      simpl in Hs, Hn, Hm. rewrite !string_length_app in Hs. simpl in Hs.
      f_equal. apply IH; lia.
    + f_equal. simpl in Hn, Hm. apply IH; lia.
Qed.

Lemma replaceMdLinks_fuel n : forall m s,
  String.length s <= n -> String.length s <= m ->
  replaceMdLinks' n s = replaceMdLinks' m s.
Proof.
  induction n as [|n IH]; intros m s Hn Hm.
  - destruct s; [|simpl in Hn; lia]. now destruct m.
  - destruct s as [|c s]; [now destruct m|].
    destruct m as [|m]; [simpl in Hm; lia|].
    cbn [replaceMdLinks].
    destruct (mdLinkPattern (String c s)) as [[[t v] rest]|] eqn:Hp.
    + apply mdLinkPattern_inv in Hp as [Hs _].
      apply (f_equal String.length) in Hs.
      simpl in Hs, Hn, Hm. rewrite !string_length_app in Hs. simpl in Hs.
      rewrite !string_length_app in Hs. simpl in Hs.
      f_equal. apply IH; lia.
    + f_equal. simpl in Hn, Hm. apply IH; lia.
Qed.

(** The equations of the first pass. *)
Lemma rewriteCustomLinks_match k rest :
  customKey k ->
  rewriteCustomLinks' ("<" +:+ k +:+ ">" +:+ rest)
  = replacement' ("<" +:+ k +:+ ">") k +:+ rewriteCustomLinks' rest.
Proof.
  intros Hk. unfold rewriteCustomLinks.
  change ("<" +:+ k +:+ ">" +:+ rest) with (String "<" (k +:+ ">" +:+ rest)).
  cbn [String.length replaceCustomLinks].
  change (String "<" (k +:+ ">" +:+ rest)) with ("<" +:+ k +:+ ">" +:+ rest).
  rewrite (customLinkPattern_match k rest Hk). f_equal.
  apply replaceCustomLinks_fuel; [|lia].
  rewrite string_length_app. simpl. lia.
Qed.

Lemma rewriteCustomLinks_skip c s :
  customLinkPattern (String c s) = None ->
  rewriteCustomLinks' (String c s) = String c (rewriteCustomLinks' s).
Proof.
  intros Hp. unfold rewriteCustomLinks.
  cbn [String.length replaceCustomLinks]. now rewrite Hp.
Qed.

(** The equations of the second pass. *)
Lemma rewriteMdLinks_match t v rest :
  mdText t -> mdTarget v ->
  rewriteMdLinks' ("[" +:+ t +:+ "](" +:+ v +:+ ")" +:+ rest)
  = replacement' ("[" +:+ t +:+ "](" +:+ v +:+ ")") v +:+ rewriteMdLinks' rest.
Proof.
  intros Ht Hv. unfold rewriteMdLinks.
  change ("[" +:+ t +:+ "](" +:+ v +:+ ")" +:+ rest)
    with (String "[" (t +:+ "](" +:+ v +:+ ")" +:+ rest)).
  cbn [String.length replaceMdLinks].
  change (String "[" (t +:+ "](" +:+ v +:+ ")" +:+ rest))
    with ("[" +:+ t +:+ "](" +:+ v +:+ ")" +:+ rest).
  rewrite (mdLinkPattern_match t v rest Ht Hv). f_equal.
  apply replaceMdLinks_fuel; [|lia].
  rewrite ?string_length_app; simpl; rewrite ?string_length_app; simpl; lia.
Qed.

Lemma rewriteMdLinks_skip c s :
  mdLinkPattern (String c s) = None ->
  rewriteMdLinks' (String c s) = String c (rewriteMdLinks' s).
Proof.
  intros Hp. unfold rewriteMdLinks.
  cbn [String.length replaceMdLinks]. now rewrite Hp.
Qed.

(** Each pass copies the text before the leftmost match. *)
Lemma rewriteCustomLinks_copy pre : forall rest,
  noMatchStarts customLinkPattern pre rest ->
  rewriteCustomLinks' (pre +:+ rest) = pre +:+ rewriteCustomLinks' rest.
Proof.
  induction pre as [|c pre IH]; intros rest H; [reflexivity|].
  apply noMatchStarts_tail in H as [Hc H].
  change (String c pre +:+ rest) with (String c (pre +:+ rest)).
  rewrite (rewriteCustomLinks_skip _ _ Hc), (IH _ H). reflexivity.
Qed.

Lemma rewriteMdLinks_copy pre : forall rest,
  noMatchStarts mdLinkPattern pre rest ->
  rewriteMdLinks' (pre +:+ rest) = pre +:+ rewriteMdLinks' rest.
Proof.
  induction pre as [|c pre IH]; intros rest H; [reflexivity|].
  apply noMatchStarts_tail in H as [Hc H].
  change (String c pre +:+ rest) with (String c (pre +:+ rest)).
  rewrite (rewriteMdLinks_skip _ _ Hc), (IH _ H). reflexivity.
Qed.

Lemma rewriteCustomLinks_leftmost pre k rest :
  noMatchStarts customLinkPattern pre ("<" +:+ k +:+ ">" +:+ rest) ->
  customKey k ->
  rewriteCustomLinks' (pre +:+ "<" +:+ k +:+ ">" +:+ rest)
  = pre +:+ replacement' ("<" +:+ k +:+ ">") k +:+ rewriteCustomLinks' rest.
Proof.
  intros H Hk. now rewrite (rewriteCustomLinks_copy _ _ H), rewriteCustomLinks_match.
Qed.

Lemma rewriteMdLinks_leftmost pre t v rest :
  noMatchStarts mdLinkPattern pre ("[" +:+ t +:+ "](" +:+ v +:+ ")" +:+ rest) ->
  mdText t -> mdTarget v ->
  rewriteMdLinks' (pre +:+ "[" +:+ t +:+ "](" +:+ v +:+ ")" +:+ rest)
  = pre +:+ replacement' ("[" +:+ t +:+ "](" +:+ v +:+ ")") v +:+ rewriteMdLinks' rest.
Proof.
  intros H Ht Hv. now rewrite (rewriteMdLinks_copy _ _ H), rewriteMdLinks_match.
Qed.

(** When no key-path resolves, neither pass changes a character. *)
Lemma replaceCustomLinks_unresolved :
  (forall k, getLinkForKeyPath k base version = None) ->
  forall n s, replaceCustomLinks' n s = s.
Proof.
  intros Hnone. induction n as [|n IH]; intros s; [reflexivity|].
  destruct s as [|c s]; [reflexivity|]. cbn [replaceCustomLinks].
  destruct (customLinkPattern (String c s)) as [[k rest]|] eqn:Hp.
  - rewrite IH, (replacement_unresolved _ _ (Hnone k)).
    apply customLinkPattern_inv in Hp as [-> _].
    now rewrite !string_app_assoc.
  - now rewrite IH.
Qed.

Lemma replaceMdLinks_unresolved :
  (forall k, getLinkForKeyPath k base version = None) ->
  forall n s, replaceMdLinks' n s = s.
Proof.
  intros Hnone. induction n as [|n IH]; intros s; [reflexivity|].
  destruct s as [|c s]; [reflexivity|]. cbn [replaceMdLinks].
  destruct (mdLinkPattern (String c s)) as [[[t v] rest]|] eqn:Hp.
  - rewrite IH, (replacement_unresolved _ _ (Hnone v)).
    apply mdLinkPattern_inv in Hp as [-> _].
    now rewrite !string_app_assoc.
  - now rewrite IH.
Qed.

End RewriteFacts.

(** Both passes consult the resolver only at the base path and the version
    they were given. *)
Lemma replaceCustomLinks_ext g1 g2 base version :
  (forall k, g1 k base version = g2 k base version) ->
  forall n s, replaceCustomLinks g1 base version n s = replaceCustomLinks g2 base version n s.
Proof.
  intros Hext. induction n as [|n IH]; intros s; [reflexivity|].
  destruct s as [|c s]; [reflexivity|]. cbn [replaceCustomLinks].
  destruct (customLinkPattern (String c s)) as [[k rest]|].
  - unfold replacement. now rewrite Hext, IH.
  - now rewrite IH.
Qed.

Lemma replaceMdLinks_ext g1 g2 base version :
  (forall k, g1 k base version = g2 k base version) ->
  forall n s, replaceMdLinks g1 base version n s = replaceMdLinks g2 base version n s.
Proof.
  intros Hext. induction n as [|n IH]; intros s; [reflexivity|].
  destruct s as [|c s]; [reflexivity|]. cbn [replaceMdLinks].
  destruct (mdLinkPattern (String c s)) as [[[t v] rest]|].
  - unfold replacement. now rewrite Hext, IH.
  - now rewrite IH.
Qed.

(** ** C5: what [rewriteTypeLinks] replaces and what it leaves *)

Section BothPasses.

Variable getLinkForKeyPath : string -> string -> option string -> option LinkTarget.
Variable base : string.
Variable version : option string.

#[local] Abbreviation replacement' := (replacement getLinkForKeyPath base version).
#[local] Abbreviation pass1 := (rewriteCustomLinks getLinkForKeyPath base version).
#[local] Abbreviation pass2 := (rewriteMdLinks getLinkForKeyPath base version).

(** An unresolved span that the second pass does not read as part of a
    link stays. *)
Lemma both_passes_unresolved pre k rest :
  withoutChar "<" pre -> withoutChar "[" pre ->
  customKey k -> withoutChar "[" k ->
  getLinkForKeyPath k base version = None ->
  pass2 (pass1 (pre +:+ "<" +:+ k +:+ ">" +:+ rest))
  = pre +:+ "<" +:+ k +:+ ">" +:+ pass2 (pass1 rest).
Proof.
  intros H1 H2 Hk Hk2 Hnone.
  rewrite rewriteCustomLinks_leftmost
    by (try apply noMatchStarts_customLinkPattern; assumption).
  rewrite (replacement_unresolved _ _ _ _ _ Hnone).
  transitivity (pass2 ((pre +:+ "<" +:+ k +:+ ">") +:+ pass1 rest)).
  { f_equal. now rewrite !string_app_assoc. }
  rewrite rewriteMdLinks_copy; [now rewrite !string_app_assoc|].
  apply noMatchStarts_mdLinkPattern.
  apply withoutChar_app. split; [exact H2|].
  apply (withoutChar_app "[" "<" (k +:+ ">")). split; [reflexivity|].
  apply withoutChar_app. split; [exact Hk2 | reflexivity].
Qed.

(** The link that the first pass writes is read by the second. *)
Lemma both_passes_resolved pre k rest link :
  withoutChar "<" pre -> withoutChar "[" pre ->
  customKey k ->
  getLinkForKeyPath k base version = Some link ->
  mdText (link_name link) -> mdTarget (link_path link) ->
  pass2 (pass1 (pre +:+ "<" +:+ k +:+ ">" +:+ rest))
  = pre +:+ replacement' (markdownLink link) (link_path link) +:+ pass2 (pass1 rest).
Proof.
  intros H1 H2 Hk Hsome Hname Hpath.
  rewrite rewriteCustomLinks_leftmost
    by (try apply noMatchStarts_customLinkPattern; assumption).
  rewrite (replacement_resolved _ _ _ _ _ _ Hsome). unfold markdownLink.
  transitivity (pass2 (pre +:+ "[" +:+ link_name link +:+ "](" +:+ link_path link +:+ ")"
                         +:+ pass1 rest)).
  { f_equal. now rewrite !string_app_assoc. }
  now rewrite rewriteMdLinks_leftmost
    by (try apply noMatchStarts_mdLinkPattern; assumption).
Qed.

(** A markdown link without [<] is left to the second pass. *)
Lemma both_passes_md pre t k rest :
  withoutChar "<" pre -> withoutChar "[" pre ->
  mdText t -> mdTarget k -> withoutChar "<" t -> withoutChar "<" k ->
  pass2 (pass1 (pre +:+ "[" +:+ t +:+ "](" +:+ k +:+ ")" +:+ rest))
  = pre +:+ replacement' ("[" +:+ t +:+ "](" +:+ k +:+ ")") k +:+ pass2 (pass1 rest).
Proof.
  intros H1 H2 Ht Hk Ht' Hk'.
  transitivity (pass2 (pass1 ((pre +:+ "[" +:+ t +:+ "](" +:+ k +:+ ")") +:+ rest))).
  { do 2 f_equal. now rewrite !string_app_assoc. }
  rewrite rewriteCustomLinks_copy.
  2:{ apply noMatchStarts_customLinkPattern.
      apply withoutChar_app. split; [exact H1|].
      apply (withoutChar_app "<" "[" (t +:+ "](" +:+ k +:+ ")")). split; [reflexivity|].
      apply withoutChar_app. split; [exact Ht'|].
      apply (withoutChar_app "<" "](" (k +:+ ")")). split; [reflexivity|].
      apply withoutChar_app. split; [exact Hk' | reflexivity]. }
  transitivity (pass2 (pre +:+ "[" +:+ t +:+ "](" +:+ k +:+ ")" +:+ pass1 rest)).
  { f_equal. now rewrite !string_app_assoc. }
  now rewrite rewriteMdLinks_leftmost
    by (try apply noMatchStarts_mdLinkPattern; assumption).
Qed.

End BothPasses.

(** C5, as stated, fails, in three ways. The link that the first pass
    writes for [<Foo.bar>] is read by the second pass, which hands its
    path to the resolver: with a resolver that resolves that path too the
    result is another link. A span [<K>] whose key-path resolves is not
    replaced when an earlier [<] starts a match that contains it. And
    an unresolved match [<Unknown.thing>] does not stay when it lies in
    the text of a markdown link the target of which resolves. *)
Lemma rewriteTypeLinks_resolution_counterexample :
  let self := MetadataProcessor.new "/" "next" in
  (resolvePathToo "Foo.bar" "/" None
   = Some {| link_name := "Foo.bar"; link_path := "/api/Foo.html#bar" |}
   /\ rewriteTypeLinks resolvePathToo [] self "<Foo.bar>" = "[Foo](/api/Foo.html)")
  /\ (resolveFooBar "Foo.bar" "/" None
      = Some {| link_name := "Foo.bar"; link_path := "/api/Foo.html#bar" |}
      /\ rewriteTypeLinks resolveFooBar [] self "a < b and <Foo.bar>"
         = "a < b and <Foo.bar>")
  /\ (resolveFooBar "Unknown.thing" "/" None = None
      /\ rewriteTypeLinks resolveFooBar [] self "[see <Unknown.thing>](Foo.bar)"
         = "[Foo.bar](/api/Foo.html#bar)").
Proof. repeat split; reflexivity. Qed.

(** C5, amended. [rewriteTypeLinks] is a total function from strings to
    strings (it raises nothing and logs nothing) made of two passes, the
    second reading what the first wrote. Each pass reads its text from
    left to right: the text before the leftmost match of its pattern is
    copied; the match, [<K>] with a non-empty [K] without [>] and [/] in
    the first pass and [[text](K)] in the second, becomes the markdown
    link of the target that [K] resolves to and is copied, character for
    character, when [K] does not resolve; and the pass goes on with the
    text after the match. No match starts in a text without [<], and
    without [[] for the second pass. For the two passes together, with
    a text before the span that has neither [<] nor [[]: an unresolved
    [<K>] without [[] stays; a resolved [<K>] becomes the link of its
    target, or the link of the target that the path of that link resolves
    to if it does; a markdown link without [<] becomes the link of the
    target its [K] resolves to, or stays. When no key-path resolves the
    text is unchanged. In particular [<Foo.bar>], with [Foo.bar]
    resolving to the name [Foo.bar] and the path [/api/Foo.html#bar],
    becomes [[Foo.bar](/api/Foo.html#bar)] when the resolver does not
    resolve that path, and an unresolved [<Unknown.thing>] is
    unchanged. *)
Theorem rewriteTypeLinks_resolution
    (getLinkForKeyPath : string -> string -> option string -> option LinkTarget)
    (versions : list string) (self : MetadataProcessor.t) :
  let base := MetadataProcessor.base self in
  let version := linkVersion versions (MetadataProcessor.version self) in
  let resolve k := getLinkForKeyPath k base version in
  let pass1 := rewriteCustomLinks getLinkForKeyPath base version in
  let pass2 := rewriteMdLinks getLinkForKeyPath base version in
  let rewriteLinks := rewriteTypeLinks getLinkForKeyPath versions self in
  (forall s, rewriteLinks s = pass2 (pass1 s))
  /\ (forall pre rest, noMatchStarts customLinkPattern pre rest ->
        pass1 (pre +:+ rest) = pre +:+ pass1 rest)
  /\ (forall pre k rest,
        noMatchStarts customLinkPattern pre ("<" +:+ k +:+ ">" +:+ rest) -> customKey k ->
        pass1 (pre +:+ "<" +:+ k +:+ ">" +:+ rest)
        = pre +:+ match resolve k with
                  | Some link => markdownLink link
                  | None => "<" +:+ k +:+ ">"
                  end +:+ pass1 rest)
  /\ (forall pre rest, noMatchStarts mdLinkPattern pre rest ->
        pass2 (pre +:+ rest) = pre +:+ pass2 rest)
  /\ (forall pre t k rest,
        noMatchStarts mdLinkPattern pre ("[" +:+ t +:+ "](" +:+ k +:+ ")" +:+ rest) ->
        mdText t -> mdTarget k ->
        pass2 (pre +:+ "[" +:+ t +:+ "](" +:+ k +:+ ")" +:+ rest)
        = pre +:+ match resolve k with
                  | Some link => markdownLink link
                  | None => "[" +:+ t +:+ "](" +:+ k +:+ ")"
                  end +:+ pass2 rest)
  /\ (forall pre rest,
        (withoutChar "<" pre -> noMatchStarts customLinkPattern pre rest)
        /\ (withoutChar "[" pre -> noMatchStarts mdLinkPattern pre rest))
  /\ (forall pre k rest,
        withoutChar "<" pre -> withoutChar "[" pre -> customKey k -> withoutChar "[" k ->
        resolve k = None ->
        rewriteLinks (pre +:+ "<" +:+ k +:+ ">" +:+ rest)
        = pre +:+ "<" +:+ k +:+ ">" +:+ rewriteLinks rest)
  /\ (forall pre k rest link,
        withoutChar "<" pre -> withoutChar "[" pre -> customKey k ->
        resolve k = Some link -> mdText (link_name link) -> mdTarget (link_path link) ->
        rewriteLinks (pre +:+ "<" +:+ k +:+ ">" +:+ rest)
        = pre +:+ match resolve (link_path link) with
                  | Some link' => markdownLink link'
                  | None => markdownLink link
                  end +:+ rewriteLinks rest)
  /\ (forall pre t k rest,
        withoutChar "<" pre -> withoutChar "[" pre -> mdText t -> mdTarget k ->
        withoutChar "<" t -> withoutChar "<" k ->
        rewriteLinks (pre +:+ "[" +:+ t +:+ "](" +:+ k +:+ ")" +:+ rest)
        = pre +:+ match resolve k with
                  | Some link => markdownLink link
                  | None => "[" +:+ t +:+ "](" +:+ k +:+ ")"
                  end +:+ rewriteLinks rest)
  /\ ((forall k, resolve k = None) -> forall s, rewriteLinks s = s)
  /\ (resolve "Foo.bar" = Some {| link_name := "Foo.bar"; link_path := "/api/Foo.html#bar" |} ->
      resolve "/api/Foo.html#bar" = None ->
      rewriteLinks "<Foo.bar>" = "[Foo.bar](/api/Foo.html#bar)")
  /\ (resolve "Unknown.thing" = None -> rewriteLinks "<Unknown.thing>" = "<Unknown.thing>").
Proof.
  intros base version resolve pass1 pass2 rewriteLinks.
  assert (Hboth : forall s, rewriteLinks s = pass2 (pass1 s)) by reflexivity.
  split; [exact Hboth|].
  split; [intros pre rest; apply rewriteCustomLinks_copy|].
  split.
  { intros pre k rest Hpre Hk. unfold pass1.
    rewrite rewriteCustomLinks_leftmost by assumption.
    unfold replacement. fold (resolve k). now destruct (resolve k). }
  split; [intros pre rest; apply rewriteMdLinks_copy|].
  split.
  { intros pre t k rest Hpre Ht Hk. unfold pass2.
    rewrite rewriteMdLinks_leftmost by assumption.
    unfold replacement. fold (resolve k). now destruct (resolve k). }
  split.
  { intros pre rest. split;
      [apply noMatchStarts_customLinkPattern | apply noMatchStarts_mdLinkPattern]. }
  split.
  { intros pre k rest H1 H2 Hk Hk2 Hnone. rewrite !Hboth.
    now apply both_passes_unresolved. }
  split.
  { intros pre k rest link H1 H2 Hk Hsome Hname Hpath. rewrite !Hboth.
    unfold pass1, pass2. rewrite (both_passes_resolved _ _ _ pre k rest link) by assumption.
    unfold replacement. fold (resolve (link_path link)).
    now destruct (resolve (link_path link)). }
  split.
  { intros pre t k rest H1 H2 Ht Hk Ht' Hk'. rewrite !Hboth.
    unfold pass1, pass2. rewrite both_passes_md by assumption.
    unfold replacement. fold (resolve k). now destruct (resolve k). }
  split.
  { intros Hnone s. unfold rewriteLinks, rewriteTypeLinks, rewriteMdLinks, rewriteCustomLinks.
    rewrite replaceMdLinks_unresolved by exact Hnone.
    now apply replaceCustomLinks_unresolved. }
  split.
  - intros Hfoo Hpath. rewrite Hboth. unfold pass1, pass2.
    change "<Foo.bar>" with ("" +:+ "<" +:+ "Foo.bar" +:+ ">" +:+ "").
    rewrite (both_passes_resolved getLinkForKeyPath base version "" "Foo.bar" ""
               {| link_name := "Foo.bar"; link_path := "/api/Foo.html#bar" |});
      try reflexivity; try exact Hfoo; try (split; [discriminate | reflexivity]).
    cbn [link_path]. now rewrite (replacement_unresolved _ _ _ _ _ Hpath).
  - intros Hunknown. rewrite Hboth. unfold pass1, pass2.
    change "<Unknown.thing>" with ("" +:+ "<" +:+ "Unknown.thing" +:+ ">" +:+ "").
    rewrite (both_passes_unresolved getLinkForKeyPath base version "" "Unknown.thing" "");
      try reflexivity; try exact Hunknown; split; [discriminate | reflexivity].
Qed.

Lemma rewriteTypeLinks_resolution_witness :
  rewriteTypeLinks resolveFooBar [] (MetadataProcessor.new "/" "next")
    ("see " +:+ "<" +:+ "Foo.bar" +:+ ">" +:+ " and <Unknown.thing>")
  = "see " +:+ "[Foo.bar](/api/Foo.html#bar)"
      +:+ rewriteTypeLinks resolveFooBar [] (MetadataProcessor.new "/" "next")
            " and <Unknown.thing>"
  /\ rewriteTypeLinks resolveFooBar [] (MetadataProcessor.new "/" "next") "<Foo.bar>"
     = "[Foo.bar](/api/Foo.html#bar)".
Proof.
  pose proof (rewriteTypeLinks_resolution resolveFooBar [] (MetadataProcessor.new "/" "next"))
    as H.
  cbv zeta in H. destruct H as (_ & _ & _ & _ & _ & _ & _ & Hresolved & _ & _ & Hfoo & _).
  assert (Hkey : customKey "Foo.bar") by (split; [discriminate | reflexivity]).
  assert (Hname : mdText "Foo.bar") by (split; [discriminate | reflexivity]).
  assert (Hpath : mdTarget "/api/Foo.html#bar") by (split; [discriminate | reflexivity]).
  split.
  - exact (Hresolved "see " "Foo.bar" " and <Unknown.thing>"
             {| link_name := "Foo.bar"; link_path := "/api/Foo.html#bar" |}
             eq_refl eq_refl Hkey eq_refl Hname Hpath).
  - exact (Hfoo eq_refl eq_refl).
Defined.

(** ** C6: the version handed to the resolver *)

(** C6, as stated, fails: with the single declared version [8.0.0] and a
    processor for the version [next], the resolver is called with [next]
    and not with the null sentinel. *)
Lemma linkVersion_single_version_counterexample :
  length ["8.0.0"] = 1
  /\ linkVersion ["8.0.0"] (MetadataProcessor.version (MetadataProcessor.new "/" "next"))
     = Some "next"
  /\ rewriteTypeLinks resolveShowingVersion ["8.0.0"] (MetadataProcessor.new "/" "next")
       "<Titanium.UI>"
     = "[next](Titanium.UI)".
Proof. repeat split; reflexivity. Qed.

(** C6, amended. The version handed to the resolver, at every call of
    both passes, is the null sentinel exactly when no version is declared
    or the processor's version is the first declared one; otherwise, that
    is when at least one version is declared and the processor's version
    is not the first one, it is the processor's own version. *)
Theorem linkVersion_spec (versions : list string) (self : MetadataProcessor.t) :
  let version := linkVersion versions (MetadataProcessor.version self) in
  (version = None
   <-> versions = [] \/ head versions = Some (MetadataProcessor.version self))
  /\ (version = Some (MetadataProcessor.version self)
      <-> versions <> [] /\ head versions <> Some (MetadataProcessor.version self))
  /\ (forall g1 g2 : string -> string -> option string -> option LinkTarget,
        (forall k, g1 k (MetadataProcessor.base self) version
                   = g2 k (MetadataProcessor.base self) version) ->
        forall s, rewriteTypeLinks g1 versions self s = rewriteTypeLinks g2 versions self s).
Proof.
  cbv zeta. unfold linkVersion.
  split; [|split].
  - destruct versions as [|v0 vs]; simpl.
    + split; auto.
    + destruct (String.eqb_spec (MetadataProcessor.version self) v0) as [->|Hne].
      * split; auto.
      * split; [discriminate|]. intros [H|H]; [discriminate | congruence].
  - destruct versions as [|v0 vs]; simpl.
    + split; [discriminate | intros [H _]; congruence].
    + destruct (String.eqb_spec (MetadataProcessor.version self) v0) as [->|Hne].
      * split; [discriminate | intros [_ H]; congruence].
      * split; [|reflexivity]. intros _. split; [discriminate | congruence].
  - intros g1 g2 Hext s. unfold rewriteTypeLinks, rewriteMdLinks, rewriteCustomLinks.
    rewrite (replaceCustomLinks_ext g1 g2 _ _ Hext).
    now rewrite (replaceMdLinks_ext g1 g2 _ _ Hext).
Qed.

(** ** C9: the lookup by lower-cased key *)

(** C9, as stated, fails: the query is compared as it is given, so the
    query [Foo] does not find the stored type [Foo], whose lower-cased
    name equals the lower-cased query. *)
Lemma findMetadataWithLowerCasedKey_counterexample :
  storeWithFoo !! "next" = Some [("Foo", emptyMetadata "Foo")]
  /\ Js.toLowerCase "Foo" = Js.toLowerCase "Foo"
  /\ findMetadataWithLowerCasedKey storeWithFoo "Foo" "next" = None
  /\ findMetadataWithLowerCasedKey storeWithFoo "FOO" "next" = None
  /\ findMetadataWithLowerCasedKey storeWithFoo "foo" "next" = Some (emptyMetadata "Foo").
Proof. repeat split; reflexivity. Qed.

Lemma toLowerCase_no_upper s : Js.all_chars (fun c => negb (Js.is_upper c)) (Js.toLowerCase s) = true.
Proof.
  induction s as [|c s IH]; [reflexivity|]. simpl. rewrite IH, andb_true_r.
  unfold Js.lower_char. destruct (Js.is_upper c) eqn:Hc; [|now rewrite Hc].
  destruct c as [[] [] [] [] [] [] [] []]; try discriminate Hc; reflexivity.
Qed.

Lemma findLowerCased_Some q typesMetadata metadata :
  findLowerCased q typesMetadata = Some metadata ->
  exists typeName, (typeName, metadata) ∈ typesMetadata /\ Js.toLowerCase typeName = q.
Proof.
  induction typesMetadata as [|[k v] rest IH]; simpl; [discriminate|].
  destruct (String.eqb_spec (Js.toLowerCase k) q) as [Heq|Hne].
  - intros [= ->]. exists k. split; [left | exact Heq].
  - intros H. destruct (IH H) as (n & Hin & Hn). exists n. split; [now right | exact Hn].
Qed.

Lemma findLowerCased_None q typesMetadata :
  findLowerCased q typesMetadata = None <->
  forall typeName metadata, (typeName, metadata) ∈ typesMetadata -> Js.toLowerCase typeName <> q.
Proof.
  induction typesMetadata as [|[k v] rest IH]; simpl.
  - split; [|reflexivity]. intros _ n m Hin. inversion Hin.
  - destruct (String.eqb_spec (Js.toLowerCase k) q) as [Heq|Hne].
    + split; [discriminate|]. intros H. exfalso. apply (H k v); [left | exact Heq].
    + rewrite IH. split.
      * intros H n m Hin. inversion Hin; subst; [exact Hne | now apply (H n m)].
      * intros H n m Hin. apply (H n m). now right.
Qed.

(** C9, amended. For every query [q] and version [v], the lookup returns
    the metadata of a stored type of version [v] whose lower-cased name
    equals [q] itself (only the stored name is lower-cased, the first such
    type in the order of the store) whenever there is one, and no match
    otherwise; so the lower-cased form of a stored name finds it, and a
    query with an upper-case letter finds nothing. *)
Theorem findMetadataWithLowerCasedKey_spec (store : Store) (q v : string) :
  (forall metadata,
      findMetadataWithLowerCasedKey store q v = Some metadata ->
      exists typesMetadata typeName,
        store !! v = Some typesMetadata
        /\ (typeName, metadata) ∈ typesMetadata /\ Js.toLowerCase typeName = q)
  /\ (findMetadataWithLowerCasedKey store q v = None <->
      forall typesMetadata typeName metadata,
        store !! v = Some typesMetadata ->
        (typeName, metadata) ∈ typesMetadata -> Js.toLowerCase typeName <> q)
  /\ (forall typesMetadata typeName metadata,
        store !! v = Some typesMetadata -> (typeName, metadata) ∈ typesMetadata ->
        is_Some (findMetadataWithLowerCasedKey store (Js.toLowerCase typeName) v))
  /\ (Js.toLowerCase q <> q -> findMetadataWithLowerCasedKey store q v = None).
Proof.
  unfold findMetadataWithLowerCasedKey.
  assert (Hnone : (match store !! v with
                   | Some typesMetadata => findLowerCased q typesMetadata
                   | None => None
                   end = None) <->
                  forall typesMetadata typeName metadata,
                    store !! v = Some typesMetadata ->
                    (typeName, metadata) ∈ typesMetadata -> Js.toLowerCase typeName <> q).
  { destruct (store !! v) as [types|].
    - rewrite findLowerCased_None. split.
      + intros H types' n m [= <-]. apply H.
      + intros H n m. now apply (H types n m).
    - split; [discriminate | reflexivity]. }
  split; [|split; [exact Hnone|split]].
  - intros metadata H. destruct (store !! v) as [types|]; [|discriminate].
    destruct (findLowerCased_Some _ _ _ H) as (n & Hin & Hn). now exists types, n.
  - intros types n m Hv Hin. rewrite Hv.
    destruct (findLowerCased (Js.toLowerCase n) types) eqn:Hf; [eauto|].
    exfalso. rewrite findLowerCased_None in Hf. now apply (Hf n m).
  - intros Hq. apply Hnone. intros types n m _ _ Heq. apply Hq.
    rewrite <- Heq. clear. induction n as [|c n IH]; [reflexivity|].
    simpl. rewrite IH. f_equal. unfold Js.lower_char at 1.
    destruct (Js.is_upper (Js.lower_char c)) eqn:Hu; [|reflexivity].
    exfalso. pose proof (toLowerCase_no_upper (String c "")) as H. simpl in H.
    now rewrite Hu in H.
Qed.

(** ** Lists of members *)

(** The boolean [filter] of the standard library is the [filter] of a
    decidable predicate. *)
Lemma List_filter_decide {A} (f : A -> bool) (P : A -> Prop) `{!forall x, Decision (P x)}
    (l : list A) :
  (forall x, f x = true <-> P x) -> List.filter f l = filter P l.
Proof.
  intros Hf. induction l as [|x l IH]; [reflexivity|]. simpl.
  rewrite filter_cons, IH. destruct (f x) eqn:Hx.
  - rewrite decide_True; [reflexivity | now apply Hf].
  - rewrite decide_False; [reflexivity|]. intros HP. apply Hf in HP. congruence.
Qed.

Lemma truthy_Some_iff o : Js.truthy o = true <-> exists s, o = Some s /\ s <> "".
Proof.
  destruct o as [[|c s]|]; simpl; split; try discriminate.
  - intros (s & [= <-] & H). now contradiction H.
  - intros _. eexists. split; [reflexivity | discriminate].
  - reflexivity.
  - intros (s & H & _). discriminate.
Qed.

Lemma filterInherited_true metadata member :
  filterInherited metadata member = true <-> ~ inheritedFromOther metadata member.
Proof.
  unfold filterInherited, inheritedFromOther.
  destruct (Js.truthy (Member.inherits member)) eqn:Ht; simpl.
  - apply truthy_Some_iff in Ht as (p & Hp & Hne). rewrite Hp.
    destruct (bool_decide_reflect (Some p = Some (TypeMetadata.name metadata))) as [Heq|Hneq];
      simpl.
    + split; [|reflexivity]. intros _ (q & [= <-] & _ & H). congruence.
    + split; [discriminate|]. intros H. exfalso. apply H. exists p.
      repeat split; [assumption | congruence].
  - split; [|reflexivity]. intros _ (p & Hp & Hne & _).
    assert (Js.truthy (Member.inherits member) = true); [|congruence].
    apply truthy_Some_iff. now exists p.
Qed.

Lemma filterInheritedMembers_members metadata memberType :
  members memberType (filterInheritedMembers metadata)
  = filter (fun member => ~ inheritedFromOther metadata member)
      (members memberType metadata).
Proof.
  destruct memberType; simpl;
    apply List_filter_decide; intros x;
    rewrite <- (filterInherited_true metadata x); unfold filterInherited; reflexivity.
Qed.

(** ** C4: the filter of the inherited members *)

(** C4. For every metadata object and each of the three member kinds,
    [filterInheritedMembers] leaves the name of the type as it is and
    leaves of that kind exactly the members that are not inherited from
    another type, in their order: it removes the members whose [inherits]
    is set (to a name: JavaScript takes the empty string for a field that
    is not set) and differs from the name of the type, and keeps those
    with no [inherits] and those whose [inherits] is the name of the
    type. The result for one kind depends on the members of that kind and
    on the name of the type only. *)
Theorem filterInheritedMembers_spec (metadata : TypeMetadata.t) (memberType : MemberType) :
  let metadata' := filterInheritedMembers metadata in
  TypeMetadata.name metadata' = TypeMetadata.name metadata
  /\ members memberType metadata'
     = filter (fun member => ~ inheritedFromOther metadata member)
         (members memberType metadata)
  /\ (forall member,
        member ∈ members memberType metadata' <->
        member ∈ members memberType metadata /\ ~ inheritedFromOther metadata member)
  /\ (forall member,
        member ∈ members memberType metadata ->
        Member.inherits member = None
        \/ Member.inherits member = Some (TypeMetadata.name metadata) ->
        member ∈ members memberType metadata')
  /\ (forall member,
        member ∈ members memberType metadata ->
        (exists parent, Member.inherits member = Some parent /\ parent <> ""
                        /\ parent <> TypeMetadata.name metadata) ->
        member ∉ members memberType metadata')
  /\ members memberType metadata' `sublist_of` members memberType metadata.
Proof.
  intros metadata'.
  pose proof (filterInheritedMembers_members metadata memberType) as Heq.
  fold metadata' in Heq.
  split; [reflexivity|]. split; [exact Heq|]. rewrite Heq.
  split; [|split; [|split]].
  - intros member. rewrite list_elem_of_filter. tauto.
  - intros member Hin Hinh. apply list_elem_of_filter. split; [|exact Hin].
    intros (p & Hp & Hne & Hname). destruct Hinh as [H|H]; congruence.
  - intros member _ Hinh Hin. apply list_elem_of_filter in Hin as [Hnot _].
    now apply Hnot.
  - apply sublist_filter.
Qed.

(** ** C2: properties and constants *)

Lemma splitStep_fold l : forall properties constants,
  fold_left splitStep l (properties, constants)
  = (properties ++ filter (fun m => ~ isConstant m) l, constants ++ filter isConstant l).
Proof.
  induction l as [|m l IH]; intros ps cs; simpl.
  - now rewrite !app_nil_r.
  - rewrite !filter_cons.
    destruct (decide (isConstant m)) as [Hc|Hc].
    + rewrite decide_False by (intros H; now apply H).
      unfold isConstant in Hc. rewrite Hc, IH. now rewrite <- app_assoc.
    + rewrite decide_True by exact Hc.
      unfold isConstant in Hc. apply not_true_is_false in Hc. rewrite Hc, IH.
      now rewrite <- app_assoc.
Qed.

Lemma splitPropertiesAndConstants_lists metadata :
  TypeMetadata.properties (splitPropertiesAndConstants metadata)
  = filter (fun m => ~ isConstant m) (TypeMetadata.properties metadata)
  /\ TypeMetadata.constants (splitPropertiesAndConstants metadata)
     = Some (filter isConstant (TypeMetadata.properties metadata))
  /\ TypeMetadata.methods (splitPropertiesAndConstants metadata)
     = TypeMetadata.methods metadata
  /\ TypeMetadata.events (splitPropertiesAndConstants metadata)
     = TypeMetadata.events metadata.
Proof.
  unfold splitPropertiesAndConstants. rewrite splitStep_fold. simpl. auto.
Qed.

Lemma elem_of_memberNames n l :
  n ∈ memberNames l <-> exists m, m ∈ l /\ Member.name m = n.
Proof.
  unfold memberNames. rewrite elem_of_list_to_set, list_elem_of_fmap.
  split; intros (m & H1 & H2); exists m; auto.
Qed.

(** C2. [splitPropertiesAndConstants] partitions the properties: the
    constants are the members whose name fully matches the pattern, in
    their order, the properties that stay are the other members, in their
    order; the two sets of names are disjoint and their union is the set
    of the names before the split. *)
Theorem splitPropertiesAndConstants_partition (metadata : TypeMetadata.t) :
  let before := TypeMetadata.properties metadata in
  let properties := TypeMetadata.properties (splitPropertiesAndConstants metadata) in
  exists constants,
    TypeMetadata.constants (splitPropertiesAndConstants metadata) = Some constants
    /\ memberNames properties ## memberNames constants
    /\ memberNames properties ∪ memberNames constants = memberNames before
    /\ (forall member, member ∈ constants <-> member ∈ before /\ isConstant member)
    /\ (forall member, member ∈ properties <-> member ∈ before /\ ~ isConstant member)
    /\ constants = filter isConstant before
    /\ properties = filter (fun member => ~ isConstant member) before
    /\ constants `sublist_of` before
    /\ properties `sublist_of` before.
Proof.
  intros before properties.
  destruct (splitPropertiesAndConstants_lists metadata) as (Hp & Hc & _).
  exists (filter isConstant before). fold before in Hp, Hc. fold properties in Hp.
  rewrite Hp. split; [exact Hc|].
  split; [|split; [|split; [|split; [|split; [|split; [|split]]]]]];
    try reflexivity; try apply sublist_filter; try (intros member; rewrite list_elem_of_filter; tauto).
  - intros n Hn1 Hn2.
    apply elem_of_memberNames in Hn1 as (m1 & Hm1 & <-).
    apply elem_of_memberNames in Hn2 as (m2 & Hm2 & Heq).
    apply list_elem_of_filter in Hm1 as [Hm1 _]. apply list_elem_of_filter in Hm2 as [Hm2 _].
    apply Hm1. unfold isConstant in *. congruence.
  - apply set_eq. intros n. rewrite elem_of_union, !elem_of_memberNames. split.
    + intros [(m & Hm & <-)|(m & Hm & <-)]; apply list_elem_of_filter in Hm as [_ Hm]; eauto.
    + intros (m & Hm & <-). destruct (decide (isConstant m)) as [Hc'|Hc'].
      * right. exists m. split; [|reflexivity]. now apply list_elem_of_filter.
      * left. exists m. split; [|reflexivity]. now apply list_elem_of_filter.
Qed.

(** ** Sorting by name *)

Section SortByName.

Variable localeCompare : string -> string -> Z.

Lemma insertByName_Permutation a l : Permutation (insertByName localeCompare a l) (a :: l).
Proof.
  induction l as [|b l IH]; simpl; [reflexivity|].
  destruct (_ <=? 0)%Z; [reflexivity|].
  rewrite IH. apply perm_swap.
Qed.

Lemma sortByName_Permutation l : Permutation (sortByName localeCompare l) l.
Proof.
  induction l as [|a l IH]; simpl; [reflexivity|].
  rewrite insertByName_Permutation. now constructor.
Qed.

Lemma sortByName_length l : length (sortByName localeCompare l) = length l.
Proof. apply Permutation_length, sortByName_Permutation. Qed.

Lemma insertByName_sorted a l :
  consistentComparator localeCompare ->
  StronglySorted (nameLe localeCompare) l -> StronglySorted (nameLe localeCompare) (insertByName localeCompare a l).
Proof.
  intros [Htotal Htrans] Hl. induction Hl as [|b l Hl IH Hb]; simpl.
  - repeat constructor.
  - destruct (Z.leb_spec (localeCompare (Member.name a) (Member.name b)) 0) as [Hle|Hgt].
    + constructor; [now constructor|]. constructor; [exact Hle|].
      eapply Forall_impl; [exact Hb|]. intros c Hc. unfold nameLe in *. eauto.
    + constructor; [exact IH|].
      rewrite (insertByName_Permutation a l). constructor; [|exact Hb].
      unfold nameLe. destruct (Htotal (Member.name a) (Member.name b)); [lia | assumption].
Qed.

Lemma sortByName_sorted l :
  consistentComparator localeCompare -> StronglySorted (nameLe localeCompare) (sortByName localeCompare l).
Proof.
  intros Hc. induction l as [|a l IH]; simpl; [constructor|].
  now apply insertByName_sorted.
Qed.

(** Stability: members that the comparison does not tell apart are not
    reordered. *)
Lemma insertByName_stable (P : Member.t -> Prop) `{!forall m, Decision (P m)} a l :
  (forall x y, P x -> P y -> (nameLe localeCompare) x y) ->
  filter P (insertByName localeCompare a l) = filter P (a :: l).
Proof.
  intros HP. induction l as [|b l IH]; simpl; [reflexivity|].
  destruct (Z.leb_spec (localeCompare (Member.name a) (Member.name b)) 0) as [Hle|Hgt];
    [reflexivity|].
  rewrite (filter_cons _ b), IH, !filter_cons.
  destruct (decide (P a)) as [Ha|Ha], (decide (P b)) as [Hb|Hb]; try reflexivity.
  exfalso. specialize (HP a b Ha Hb). unfold nameLe in HP. lia.
Qed.

Lemma sortByName_stable (P : Member.t -> Prop) `{!forall m, Decision (P m)} l :
  (forall x y, P x -> P y -> (nameLe localeCompare) x y) ->
  filter P (sortByName localeCompare l) = filter P l.
Proof.
  intros HP. induction l as [|a l IH]; simpl; [reflexivity|].
  rewrite insertByName_stable by exact HP. now rewrite !filter_cons, IH.
Qed.

Lemma sortByName_stable_rank n l :
  consistentComparator localeCompare ->
  filter (rankedWith localeCompare n) (sortByName localeCompare l) = filter (rankedWith localeCompare n) l.
Proof.
  intros [_ Htrans]. apply sortByName_stable.
  intros x y [Hx _] [_ Hy]. unfold nameLe. eauto.
Qed.

Lemma sortByName_stable_name n l :
  consistentComparator localeCompare ->
  filter (fun m => Member.name m = n) (sortByName localeCompare l)
  = filter (fun m => Member.name m = n) l.
Proof.
  intros [Htotal _]. apply sortByName_stable.
  intros x y Hx Hy. unfold nameLe. rewrite Hx, Hy. now destruct (Htotal n n).
Qed.

(** A sorted list is its own sorting, so that the result of [sortByName]
    does not depend on how the stable sort is carried out. *)
Lemma sortByName_sorted_id l :
  StronglySorted (nameLe localeCompare) l -> sortByName localeCompare l = l.
Proof.
  induction 1 as [|a l Hl IH Ha]; simpl; [reflexivity|]. rewrite IH.
  destruct l as [|b l]; [reflexivity|]. simpl.
  apply Forall_cons in Ha as [Hab _]. unfold nameLe in Hab.
  now destruct (Z.leb_spec (localeCompare (Member.name a) (Member.name b)) 0); [|lia].
Qed.

(** Two sorted lists with the same members of every rank, in the same
    order, are equal: every stable sort returns what [sortByName] does. *)
Lemma sorted_stable_unique l1 : forall l2,
  consistentComparator localeCompare ->
  StronglySorted (nameLe localeCompare) l1 ->
  StronglySorted (nameLe localeCompare) l2 ->
  (forall n, filter (rankedWith localeCompare n) l1 = filter (rankedWith localeCompare n) l2) ->
  l1 = l2.
Proof.
  induction l1 as [|x l1 IH]; intros l2 Hc S1 S2 Hrank.
  - destruct l2 as [|y l2]; [reflexivity|]. exfalso.
    specialize (Hrank (Member.name y)). rewrite filter_cons, decide_True in Hrank.
    + discriminate Hrank.
    + destruct Hc as [Htotal _]. split; now destruct (Htotal (Member.name y) (Member.name y)).
  - assert (Hrefl : forall m, rankedWith localeCompare (Member.name m) m).
    { intros m. destruct Hc as [Htotal _].
      split; now destruct (Htotal (Member.name m) (Member.name m)). }
    destruct l2 as [|y l2].
    { exfalso. specialize (Hrank (Member.name x)).
      rewrite filter_cons, decide_True in Hrank by apply Hrefl. discriminate Hrank. }
    apply StronglySorted_inv in S1 as [S1 Hx]. apply StronglySorted_inv in S2 as [S2 Hy].
    assert (Hxy : nameLe localeCompare x y).
    { assert (Hin : y ∈ filter (rankedWith localeCompare (Member.name y)) (x :: l1)).
      { rewrite Hrank. apply list_elem_of_filter. split; [apply Hrefl | left]. }
      apply list_elem_of_filter in Hin as [Hr Hin].
      apply elem_of_cons in Hin as [->|Hin]; [apply Hrefl|].
      rewrite Forall_forall in Hx. now apply Hx. }
    assert (Hyx : nameLe localeCompare y x).
    { assert (Hin : x ∈ filter (rankedWith localeCompare (Member.name x)) (y :: l2)).
      { rewrite <- Hrank. apply list_elem_of_filter. split; [apply Hrefl | left]. }
      apply list_elem_of_filter in Hin as [Hr Hin].
      apply elem_of_cons in Hin as [->|Hin]; [apply Hrefl|].
      rewrite Forall_forall in Hy. now apply Hy. }
    assert (x = y) as <-.
    { pose proof (Hrank (Member.name x)) as H.
      rewrite !filter_cons, decide_True in H by apply Hrefl.
      rewrite decide_True in H by (split; assumption). now inversion H. }
    f_equal. apply IH; try assumption.
    intros n. specialize (Hrank n). rewrite !filter_cons in Hrank.
    destruct (decide (rankedWith localeCompare n x)); [now inversion Hrank | exact Hrank].
Qed.

Lemma sortByName_unique l l' :
  consistentComparator localeCompare ->
  StronglySorted (nameLe localeCompare) l' ->
  (forall n, filter (rankedWith localeCompare n) l' = filter (rankedWith localeCompare n) l) ->
  l' = sortByName localeCompare l.
Proof.
  intros Hc Hs Hrank. apply sorted_stable_unique; try assumption.
  - now apply sortByName_sorted.
  - intros n. now rewrite Hrank, sortByName_stable_rank.
Qed.

Lemma keptMembers_Permutation k md :
  keptMembers localeCompare k md
  ≡ₚ filter (fun m => ~ inheritedFromOther md m) (members k md).
Proof. destruct k; simpl; try apply sortByName_Permutation. reflexivity. Qed.

End SortByName.

(** ** The pipeline *)

Section PipelineFacts.

Variable getLinkForKeyPath : string -> string -> option string -> option LinkTarget.
Variable markdown_render : LinkOpenRule -> string -> option string.
Variable localeCompare : string -> string -> Z.
Variable versions : list string.

#[local] Abbreviation renderMarkdown' :=
  (renderMarkdown getLinkForKeyPath markdown_render versions).
#[local] Abbreviation memberCallback' :=
  (memberCallback getLinkForKeyPath markdown_render versions).
#[local] Abbreviation transformMembers' :=
  (transformMembersAndCollectHeaders getLinkForKeyPath markdown_render versions).
#[local] Abbreviation pipeline' :=
  (transoformMetadataAndCollectHeaders getLinkForKeyPath markdown_render localeCompare
     versions).

(** The rendering of a text depends on the processor through its base
    path and its version only. *)
Lemma renderMarkdown_self rule self self' text :
  MetadataProcessor.base self' = MetadataProcessor.base self ->
  MetadataProcessor.version self' = MetadataProcessor.version self ->
  renderMarkdown' rule self' text = renderMarkdown' rule self text.
Proof.
  intros Hb Hv. unfold renderMarkdown, rewriteTypeLinks. now rewrite Hb, Hv.
Qed.

(** A step that renders one field keeps what its setter keeps. *)
Lemma renderField_keeps {A} (f : Member.t -> A) render get set m :
  (forall v m, f (set v m) = f m) ->
  f (fst (renderField render get set m)) = f m.
Proof.
  intros Hset. unfold renderField, bind, lift, modify.
  destruct (Js.truthy (get m)); [|reflexivity].
  destruct (render (get m)); simpl; [apply Hset | reflexivity].
Qed.

Lemma renderExamples_keeps {A} (f : Member.t -> A) render m :
  (forall v m, f (Member.set_examples v m) = f m) ->
  f (fst (renderExamples render m)) = f m.
Proof.
  intros Hset. unfold renderExamples, bind, lift, modify, ret, throw.
  destruct (Member.examples m) as [[[|e l]|html]|]; try reflexivity.
  - destruct (render _); simpl; [apply Hset | reflexivity].
  - now destruct (Js.is_empty html).
Qed.

(** The rendering of the fields of a member keeps its name and its
    [inherits] field, however it completes. *)
Lemma transformMemberFields_keeps {A} (f : Member.t -> A) render m :
  (forall v m, f (Member.set_summary v m) = f m) ->
  (forall v m, f (Member.set_description v m) = f m) ->
  (forall v m, f (Member.set_examples v m) = f m) ->
  (forall v m, f (Member.set_deprecated_notes v m) = f m) ->
  (forall v m, f (Member.set_returns_summary v m) = f m) ->
  f (fst (transformMemberFields render m)) = f m.
Proof.
  intros H1 H2 H3 H4 H5. unfold transformMemberFields, bind.
  pose proof (renderField_keeps f render Member.summary Member.set_summary m H1) as K1.
  destruct (renderField render Member.summary _ m) as [m1 [[]|e]]; simpl in *; [|exact K1].
  pose proof (renderField_keeps f render Member.description Member.set_description m1 H2) as K2.
  destruct (renderField render Member.description _ m1) as [m2 [[]|e]]; simpl in *;
    [|congruence].
  pose proof (renderExamples_keeps f render m2 H3) as K3.
  destruct (renderExamples render m2) as [m3 [[]|e]]; simpl in *; [|congruence].
  pose proof (renderField_keeps f render (deprecated_notes) Member.set_deprecated_notes m3 H4)
    as K4.
  destruct (renderField render deprecated_notes _ m3) as [m4 [[]|e]]; simpl in *;
    [|congruence].
  pose proof (renderField_keeps f render returns_summary_of Member.set_returns_summary m4 H5)
    as K5.
  congruence.
Qed.

Lemma transformMemberFields_name render m :
  Member.name (fst (transformMemberFields render m)) = Member.name m.
Proof. now apply transformMemberFields_keeps. Qed.

(** What the loop over the members of one kind leaves. *)
Ltac unfold_loop :=
  unfold MetadataProcessor.set_hasConstants in *;
  cbn [loop_this headers MetadataProcessor.base MetadataProcessor.version
       MetadataProcessor.additionalHeaders MetadataProcessor.hasConstants] in *.

Lemma forEach_memberCallback memberType rule l : forall lp lp' l' o,
  forEach (memberCallback' memberType rule) l lp = ((lp', l'), o) ->
  MetadataProcessor.base (loop_this lp') = MetadataProcessor.base (loop_this lp)
  /\ MetadataProcessor.version (loop_this lp') = MetadataProcessor.version (loop_this lp)
  /\ MetadataProcessor.additionalHeaders (loop_this lp')
     = MetadataProcessor.additionalHeaders (loop_this lp)
  /\ Member.name <$> l' = Member.name <$> l
  /\ (o = Return tt ->
      l' = (fun m => fst (transformMemberFields (renderMarkdown' rule (loop_this lp)) m)) <$> l
      /\ headers lp'
         = headers lp
           ++ (memberHeader <$>
                 filter (fun m => ~ (memberType = Properties /\ isConstant m)) l)
      /\ (MetadataProcessor.hasConstants (loop_this lp') = true <->
          MetadataProcessor.hasConstants (loop_this lp) = true
          \/ (memberType = Properties /\ exists m, m ∈ l /\ isConstant m))).
Proof.
  induction l as [|m l IH]; intros lp lp' l' o H.
  - simpl in H. inversion H; subst. repeat split; auto.
    + now rewrite app_nil_r.
    + intros [?|(_ & m & Hm & _)]; [assumption | inversion Hm].
  - simpl in H. unfold memberCallback at 1 in H.
    pose proof (transformMemberFields_name (renderMarkdown' rule (loop_this lp)) m) as Hname.
    destruct (transformMemberFields (renderMarkdown' rule (loop_this lp)) m)
      as [m' [[]|e]] eqn:Hm; simpl in Hname.
    2:{ inversion H; subst. repeat split; rewrite ?fmap_cons; simpl; congruence. }
    destruct (String.eqb (memberTypeKey memberType) "properties"
              && constantNamingPattern (Member.name m')) eqn:Hc.
    + destruct (forEach _ l _) as [[lp1 l1] o1] eqn:Hrest. inversion H; subst.
      destruct (IH _ _ _ _ Hrest) as (Hb & Hv & Ha & Hn & Hret). unfold_loop.
      apply andb_true_iff in Hc as [Hk Hc].
      assert (memberType = Properties) as -> by (destruct memberType; simpl in Hk; congruence).
      assert (isConstant m) as Hcm by (unfold isConstant; congruence).
      split; [congruence|]. split; [congruence|]. split; [congruence|].
      split; [rewrite !fmap_cons; congruence|]. intros Ho. destruct (Hret Ho) as (Hl & Hh & Hcs).
      split; [|split].
      * rewrite Hl, fmap_cons, Hm. simpl.
        f_equal; try (apply list_fmap_ext; intros i x _; now rewrite renderMarkdown_self).
      * rewrite Hh, filter_cons.
        rewrite decide_False; [reflexivity|]. intros Hnot. now apply Hnot.
      * split.
        -- intros _. right. split; [reflexivity|]. exists m. split; [left | assumption].
        -- intros _. apply Hcs. now left.
    + destruct (forEach _ l _) as [[lp1 l1] o1] eqn:Hrest. inversion H; subst.
      destruct (IH _ _ _ _ Hrest) as (Hb & Hv & Ha & Hn & Hret). unfold_loop.
      assert (Hnc : ~ (memberType = Properties /\ isConstant m)).
      { intros [-> Hcm]. unfold isConstant in Hcm. simpl in Hc. congruence. }
      split; [congruence|]. split; [congruence|]. split; [congruence|].
      split; [rewrite !fmap_cons; congruence|]. intros Ho. destruct (Hret Ho) as (Hl & Hh & Hcs).
      split; [|split].
      * now rewrite Hl, fmap_cons, Hm.
      * rewrite Hh, filter_cons, decide_True by exact Hnc.
        rewrite <- app_assoc. simpl. unfold memberHeader. now rewrite Hname.
      * split.
        -- intros Hh'. apply Hcs in Hh' as [Hh'|(Hk & x & Hx & Hcx)]; [now left|].
           right. split; [assumption|]. exists x. split; [now right | assumption].
        -- intros [Hh'|(Hk & x & Hx & Hcx)]; apply Hcs; [now left|].
           right. split; [assumption|]. inversion Hx; subst; [|now exists x].
           exfalso. apply Hnc. now split.
Qed.


Lemma members_set_members k v md : members k (set_members k v md) = v.
Proof. now destruct k. Qed.

Lemma members_set_members_ne k k' v md :
  k' <> k -> members k' (set_members k v md) = members k' md.
Proof. destruct k, k'; simpl; congruence. Qed.

Lemma filter_all {A} (P : A -> Prop) `{!forall x, Decision (P x)} (l : list A) :
  (forall x, P x) -> filter P l = l.
Proof.
  intros HP. induction l as [|x l IH]; [reflexivity|].
  now rewrite filter_cons, decide_True, IH by apply HP.
Qed.

(** What [transformMembersAndCollectHeaders] leaves, for one kind. *)
Lemma transformMembers_spec k env env' o :
  transformMembers' k env = (env', o) ->
  link_open env' = link_open env
  /\ MetadataProcessor.base (this env') = MetadataProcessor.base (this env)
  /\ MetadataProcessor.version (this env') = MetadataProcessor.version (this env)
  /\ (forall k', k' <> k -> members k' (metadata env') = members k' (metadata env))
  /\ TypeMetadata.constants (metadata env') = TypeMetadata.constants (metadata env)
  /\ Member.name <$> members k (metadata env') = Member.name <$> members k (metadata env)
  /\ (o = Return tt ->
      members k (metadata env')
      = (fun m => fst (transformMemberFields (renderMarkdown' (link_open env) (this env)) m))
          <$> members k (metadata env)
      /\ MetadataProcessor.additionalHeaders (this env')
         = MetadataProcessor.additionalHeaders (this env)
           ++ headerGroup k
                (filter (fun m => ~ (k = Properties /\ isConstant m))
                   (members k (metadata env)))
      /\ (MetadataProcessor.hasConstants (this env') = true <->
          MetadataProcessor.hasConstants (this env) = true
          \/ (k = Properties /\ exists m, m ∈ members k (metadata env) /\ isConstant m))).
Proof.
  unfold transformMembersAndCollectHeaders.
  destruct (members k (metadata env)) as [|m0 l0] eqn:Hmem.
  { intros [= <- <-]. rewrite Hmem. repeat split; auto.
    - simpl. now rewrite app_nil_r.
    - intros [?|(_ & m & Hm & _)]; [assumption | inversion Hm]. }
  destruct (forEach _ (m0 :: l0) _) as [[lp l'] o'] eqn:Hloop.
  destruct (forEach_memberCallback _ _ _ _ _ _ _ Hloop) as (Hb & Hv & Ha & Hn & Hret).
  cbn [loop_this headers] in *.
  assert (Hk' : forall md k', k' <> k ->
                  members k' (set_members k l' md) = members k' md)
    by (intros; now apply members_set_members_ne).
  assert (Hcst : forall md, TypeMetadata.constants (set_members k l' md)
                            = TypeMetadata.constants md) by (intros; now destruct k).
  destruct o' as [[]|e].
  - destruct (Hret eq_refl) as (Hl & Hh & Hc). rewrite app_nil_l in Hh.
    destruct (headers lp) as [|h hs] eqn:Hhs.
    + intros [= <- <-]. cbn [link_open this metadata].
      rewrite members_set_members.
      repeat split; auto.
      * symmetry in Hh. apply fmap_nil_inv in Hh. rewrite Hh. simpl.
        now rewrite app_nil_r.
      * apply Hc.
      * apply Hc.
    + intros [= <- <-]. unfold on_this. cbn [link_open this metadata].
      rewrite members_set_members. cbn [MetadataProcessor.set_additionalHeaders
        MetadataProcessor.base MetadataProcessor.version MetadataProcessor.additionalHeaders
        MetadataProcessor.hasConstants].
      repeat split; auto.
      * rewrite Ha, <- app_assoc. f_equal.
        destruct (filter _ (m0 :: l0)) as [|x xs]; [discriminate Hh|].
        unfold headerGroup. now rewrite Hh.
      * apply Hc.
      * apply Hc.
  - intros [= <- <-]. cbn [link_open this metadata]. rewrite members_set_members.
    repeat split; auto; discriminate.
Qed.

Lemma prepared_members k metadata :
  members k
    (TypeMetadata.set_methods
       (sortByName localeCompare
          (TypeMetadata.methods
             (TypeMetadata.set_properties
                (sortByName localeCompare
                   (TypeMetadata.properties
                      (filterInheritedMembers (TypeMetadata.delete_prose metadata))))
                (filterInheritedMembers (TypeMetadata.delete_prose metadata)))))
       (TypeMetadata.set_properties
          (sortByName localeCompare
             (TypeMetadata.properties
                (filterInheritedMembers (TypeMetadata.delete_prose metadata))))
          (filterInheritedMembers (TypeMetadata.delete_prose metadata))))
  = keptMembers localeCompare k metadata.
Proof.
  pose proof (filterInheritedMembers_members (TypeMetadata.delete_prose metadata)) as Hf.
  assert (Hi : forall l : list Member.t,
            filter (fun member =>
                      ~ inheritedFromOther (TypeMetadata.delete_prose metadata) member) l
            = filter (fun member => ~ inheritedFromOther metadata member) l).
  { intros l. apply list_filter_iff. intros x. reflexivity. }
  unfold keptMembers.
  destruct k; cbn [members TypeMetadata.set_methods TypeMetadata.set_properties
                   TypeMetadata.properties TypeMetadata.methods TypeMetadata.events].
  - pose proof (Hf Properties) as Heq. cbn [members] in Heq. now rewrite Heq, Hi.
  - pose proof (Hf Methods) as Heq. cbn [members] in Heq. now rewrite Heq, Hi.
  - pose proof (Hf Events) as Heq. cbn [members] in Heq. now rewrite Heq, Hi.
Qed.

Lemma members_set_summary k html md :
  members k (TypeMetadata.set_summary html md) = members k md.
Proof. now destruct k. Qed.

#[local] Abbreviation renderedMember' :=
  (renderedMember getLinkForKeyPath markdown_render versions).

Lemma renderField_ext r1 r2 get set m :
  (forall x, r1 x = r2 x) -> renderField r1 get set m = renderField r2 get set m.
Proof.
  intros H. unfold renderField, bind, lift.
  destruct (Js.truthy (get m)); [now rewrite H | reflexivity].
Qed.

Lemma renderExamples_ext r1 r2 m :
  (forall x, r1 x = r2 x) -> renderExamples r1 m = renderExamples r2 m.
Proof.
  intros H. unfold renderExamples, bind, lift.
  destruct (Member.examples m) as [[[|e l]|html]|]; try reflexivity. now rewrite H.
Qed.

Lemma transformMemberFields_ext r1 r2 m :
  (forall x, r1 x = r2 x) -> transformMemberFields r1 m = transformMemberFields r2 m.
Proof.
  intros H. unfold transformMemberFields, bind.
  rewrite (renderField_ext r1 r2 _ _ m H).
  destruct (renderField r2 Member.summary _ m) as [m1 [[]|e]]; [|reflexivity].
  rewrite (renderField_ext r1 r2 _ _ m1 H).
  destruct (renderField r2 Member.description _ m1) as [m2 [[]|e]]; [|reflexivity].
  rewrite (renderExamples_ext r1 r2 m2 H).
  destruct (renderExamples r2 m2) as [m3 [[]|e]]; [|reflexivity].
  rewrite (renderField_ext r1 r2 _ _ m3 H).
  destruct (renderField r2 deprecated_notes _ m3) as [m4 [[]|e]]; [|reflexivity].
  apply renderField_ext, H.
Qed.

Lemma renderedMember_name self m : Member.name (renderedMember' self m) = Member.name m.
Proof. apply transformMemberFields_name. Qed.

Lemma renderedMember_self self self' :
  MetadataProcessor.base self' = MetadataProcessor.base self ->
  MetadataProcessor.version self' = MetadataProcessor.version self ->
  forall l : list Member.t, renderedMember' self' <$> l = renderedMember' self <$> l.
Proof.
  intros Hb Hv l. apply list_fmap_ext. intros i x _. unfold renderedMember.
  f_equal. apply transformMemberFields_ext. intros t. now apply renderMarkdown_self.
Qed.

(** What the pipeline leaves, according to how it completes. *)
Lemma pipeline_spec env env' o :
  pipeline' env = (env', o) ->
  MetadataProcessor.base (this env') = MetadataProcessor.base (this env)
  /\ MetadataProcessor.version (this env') = MetadataProcessor.version (this env)
  /\ match o with
     | Throw _ => link_open env' = RenderTokenRule
     | Return _ =>
         let kept k := keptMembers localeCompare k (metadata env) in
         let rendered k := renderedMember' (this env) <$> kept k in
         link_open env' = link_open env
         /\ TypeMetadata.properties (metadata env')
            = filter (fun m => ~ isConstant m) (rendered Properties)
         /\ TypeMetadata.constants (metadata env')
            = Some (filter isConstant (rendered Properties))
         /\ TypeMetadata.methods (metadata env') = rendered Methods
         /\ TypeMetadata.events (metadata env') = rendered Events
         /\ MetadataProcessor.additionalHeaders (this env')
            = MetadataProcessor.additionalHeaders (this env)
              ++ headerGroup Properties (filter (fun m => ~ isConstant m) (kept Properties))
              ++ headerGroup Methods (kept Methods)
              ++ headerGroup Events (kept Events)
         /\ (MetadataProcessor.hasConstants (this env') = true <->
             MetadataProcessor.hasConstants (this env) = true
             \/ exists m, m ∈ kept Properties /\ isConstant m)
     end.
Proof.
  unfold transoformMetadataAndCollectHeaders, bind, modify, gets, lift.
  cbn [on_metadata set_link_open link_open this metadata].
  destruct (renderMarkdown' RenderTokenRule (this env) _) as [html|e].
  2:{ intros [= <- <-]. cbn [this link_open]. auto. }
  match goal with
  | |- context [transformMembers' Properties ?e] => set (env2 := e)
  end.
  assert (Hmem : forall k, members k (metadata env2) = keptMembers localeCompare k (metadata env)).
  { intros k. unfold env2. cbn [on_metadata set_link_open link_open this metadata].
    rewrite members_set_summary. apply prepared_members. }
  assert (Hthis : this env2 = this env) by reflexivity.
  assert (Hrule : link_open env2 = RenderTokenRule) by reflexivity.
  clearbody env2.
  destruct (transformMembers' Properties env2) as [env3 o3] eqn:H3.
  apply transformMembers_spec in H3 as (Hl3 & Hb3 & Hv3 & Hk3 & Hc3 & Hn3 & Hr3).
  rewrite Hthis in *. rewrite Hrule in *.
  destruct o3 as [[]|e]; [|intros [= <- <-]; auto].
  destruct (Hr3 eq_refl) as (Hp3 & Hh3 & Hcs3). clear Hr3.
  destruct (transformMembers' Methods env3) as [env4 o4] eqn:H4.
  apply transformMembers_spec in H4 as (Hl4 & Hb4 & Hv4 & Hk4 & Hc4 & Hn4 & Hr4).
  destruct o4 as [[]|e]; [|intros [= <- <-]; split; [|split]; congruence].
  destruct (Hr4 eq_refl) as (Hp4 & Hh4 & Hcs4). clear Hr4.
  destruct (transformMembers' Events env4) as [env5 o5] eqn:H5.
  apply transformMembers_spec in H5 as (Hl5 & Hb5 & Hv5 & Hk5 & Hc5 & Hn5 & Hr5).
  destruct o5 as [[]|e]; [|intros [= <- <-]; split; [|split]; congruence].
  destruct (Hr5 eq_refl) as (Hp5 & Hh5 & Hcs5). clear Hr5.
  intros [= <- <-]. cbn [on_metadata set_link_open link_open this metadata].
  split; [congruence|]. split; [congruence|].
  (* the three lists after the three loops *)
  assert (HP : members Properties (metadata env5)
               = renderedMember' (this env) <$> keptMembers localeCompare Properties (metadata env)).
  { rewrite (Hk5 Properties), (Hk4 Properties), Hp3, Hmem by discriminate. reflexivity. }
  assert (HM : members Methods (metadata env5)
               = renderedMember' (this env) <$> keptMembers localeCompare Methods (metadata env)).
  { rewrite (Hk5 Methods), Hp4, Hl3, (Hk3 Methods), Hmem by discriminate.
    now apply (renderedMember_self (this env) (this env3)). }
  assert (HE : members Events (metadata env5)
               = renderedMember' (this env) <$> keptMembers localeCompare Events (metadata env)).
  { rewrite Hp5, Hl4, Hl3, (Hk4 Events), (Hk3 Events), Hmem by discriminate.
    apply (renderedMember_self (this env) (this env4)); congruence. }
  cbn [members] in HP, HM, HE.
  destruct (splitPropertiesAndConstants_lists (metadata env5)) as (Sp & Sc & Sm & Se).
  rewrite Sp, Sc, Sm, Se, HP, HM, HE.
  split; [reflexivity|]. split; [reflexivity|]. split; [reflexivity|].
  split; [reflexivity|]. split; [reflexivity|]. split.
  - rewrite Hh5, Hh4, Hh3, <- !app_assoc. f_equal. f_equal; [|f_equal].
    + rewrite Hmem. f_equal. apply list_filter_iff. intros m. tauto.
    + rewrite (Hk3 Methods), Hmem by discriminate. f_equal.
      apply filter_all. intros m [H _]. discriminate H.
    + rewrite (Hk4 Events), (Hk3 Events), Hmem by discriminate. f_equal.
      apply filter_all. intros m [H _]. discriminate H.
  - rewrite Hcs5, Hcs4, Hcs3, Hmem. split.
    + intros [[[H|(_ & H)]|(H & _)]|(H & _)]; try discriminate H; auto.
    + intros [H|H]; auto.
Qed.

End PipelineFacts.

(** ** The pipeline returns *)

Section PipelineReturns.

Variable getLinkForKeyPath : string -> string -> option string -> option LinkTarget.
Variable markdown_render : LinkOpenRule -> string -> option string.
Variable localeCompare : string -> string -> Z.
Variable versions : list string.

#[local] Abbreviation renderMarkdown' :=
  (renderMarkdown getLinkForKeyPath markdown_render versions).
#[local] Abbreviation memberCallback' :=
  (memberCallback getLinkForKeyPath markdown_render versions).
#[local] Abbreviation transformMembers' :=
  (transformMembersAndCollectHeaders getLinkForKeyPath markdown_render versions).
#[local] Abbreviation pipeline' :=
  (transoformMetadataAndCollectHeaders getLinkForKeyPath markdown_render localeCompare
     versions).

(** The renderer returns on every text. *)
Hypothesis render_total : forall rule text, is_Some (markdown_render rule text).

Lemma renderMarkdown_returns rule self text :
  exists html, renderMarkdown' rule self (Some text) = Return html.
Proof.
  unfold renderMarkdown. destruct (render_total rule (rewriteTypeLinks getLinkForKeyPath versions self text))
    as [html ->]. now exists html.
Qed.

Lemma renderField_returns rule self get set m :
  snd (renderField (renderMarkdown' rule self) get set m) = Return tt.
Proof.
  unfold renderField, bind, lift, modify, ret.
  destruct (Js.truthy (get m)) eqn:Ht; [|reflexivity].
  apply truthy_Some_iff in Ht as (text & -> & _).
  now destruct (renderMarkdown_returns rule self text) as [html ->].
Qed.

Lemma renderExamples_returns rule self m :
  examplesNotRendered m ->
  snd (renderExamples (renderMarkdown' rule self) m) = Return tt.
Proof.
  intros Hex. unfold renderExamples, bind, lift, modify, ret, throw.
  destruct (Member.examples m) as [[[|e l]|html]|] eqn:He; try reflexivity.
  - now destruct (renderMarkdown_returns rule self (combinedExamplesMarkdown (e :: l)))
      as [html ->].
  - now rewrite (Hex html He).
Qed.

Lemma transformMemberFields_returns rule self m :
  examplesNotRendered m ->
  snd (transformMemberFields (renderMarkdown' rule self) m) = Return tt.
Proof.
  intros Hex. unfold transformMemberFields, bind.
  pose proof (renderField_returns rule self Member.summary Member.set_summary m) as R1.
  pose proof (renderField_keeps Member.examples (renderMarkdown' rule self)
                Member.summary Member.set_summary m (fun _ _ => eq_refl)) as K1.
  destruct (renderField _ Member.summary _ m) as [m1 o1]. simpl in R1, K1. subst o1.
  pose proof (renderField_returns rule self Member.description Member.set_description m1)
    as R2.
  pose proof (renderField_keeps Member.examples (renderMarkdown' rule self)
                Member.description Member.set_description m1 (fun _ _ => eq_refl)) as K2.
  destruct (renderField _ Member.description _ m1) as [m2 o2]. simpl in R2, K2. subst o2.
  assert (Hex2 : examplesNotRendered m2)
    by (unfold examplesNotRendered in *; now rewrite K2, K1).
  pose proof (renderExamples_returns rule self m2 Hex2) as R3.
  destruct (renderExamples _ m2) as [m3 o3]. simpl in R3. subst o3.
  pose proof (renderField_returns rule self deprecated_notes Member.set_deprecated_notes m3)
    as R4.
  destruct (renderField _ deprecated_notes _ m3) as [m4 o4]. simpl in R4. subst o4.
  apply renderField_returns.
Qed.

Lemma forEach_memberCallback_returns memberType rule l : forall lp,
  Forall examplesNotRendered l ->
  snd (forEach (memberCallback' memberType rule) l lp) = Return tt.
Proof.
  induction l as [|m l IH]; intros lp Hl; [reflexivity|].
  apply Forall_cons in Hl as [Hm Hl]. simpl. unfold memberCallback at 1.
  pose proof (transformMemberFields_returns rule (loop_this lp) m Hm) as R.
  destruct (transformMemberFields _ m) as [m' o]. simpl in R. subst o.
  destruct (_ && _).
  - specialize (IH {| loop_this := MetadataProcessor.set_hasConstants true (loop_this lp);
                      headers := headers lp |} Hl).
    now destruct (forEach _ l _) as [[lp' l'] o'].
  - specialize (IH {| loop_this := loop_this lp;
                      headers := headers lp ++ [memberHeader m'] |} Hl).
    now destruct (forEach _ l _) as [[lp' l'] o'].
Qed.

Lemma transformMembers_returns k env :
  Forall examplesNotRendered (members k (metadata env)) ->
  snd (transformMembers' k env) = Return tt.
Proof.
  intros Hl. unfold transformMembersAndCollectHeaders.
  destruct (members k (metadata env)) as [|m0 l0] eqn:Hmem; [reflexivity|].
  pose proof (forEach_memberCallback_returns k (link_open env) (m0 :: l0)
                {| loop_this := this env; headers := [] |} Hl) as R.
  destruct (forEach _ (m0 :: l0) _) as [[lp l'] o]. simpl in R. subst o.
  now destruct (headers lp).
Qed.

(** When the renderer returns on every text, the type has a summary and
    no member carries an [examples] field that is already rendered, the
    pipeline returns. *)
Lemma pipeline_returns env :
  is_Some (TypeMetadata.summary (metadata env)) ->
  (forall k, Forall examplesNotRendered (members k (metadata env))) ->
  snd (pipeline' env) = Return tt.
Proof.
  intros [text Hs] Hall.
  assert (Hkept : forall k, Forall examplesNotRendered
                              (keptMembers localeCompare k (metadata env))).
  { intros k. rewrite keptMembers_Permutation. apply Forall_forall. intros m Hm.
    apply list_elem_of_filter in Hm as [_ Hm].
    specialize (Hall k). rewrite Forall_forall in Hall. now apply Hall. }
  unfold transoformMetadataAndCollectHeaders, bind, modify, gets, lift.
  cbn [on_metadata set_link_open link_open this metadata].
  replace (TypeMetadata.summary _) with (Some text)
    by (rewrite <- Hs; unfold filterInheritedMembers; reflexivity).
  destruct (renderMarkdown_returns RenderTokenRule (this env) text) as [html ->].
  match goal with
  | |- context [transformMembers' Properties ?e] => set (env2 := e)
  end.
  assert (Hmem : forall k, members k (metadata env2) = keptMembers localeCompare k (metadata env)).
  { intros k. unfold env2. cbn [on_metadata set_link_open link_open this metadata].
    rewrite members_set_summary. apply prepared_members. }
  clearbody env2.
  pose proof (transformMembers_returns Properties env2) as R3.
  destruct (transformMembers' Properties env2) as [env3 o3] eqn:H3.
  rewrite Hmem in R3. cbn [snd] in R3. rewrite (R3 (Hkept Properties)).
  apply transformMembers_spec in H3 as (_ & _ & _ & Hk3 & _).
  pose proof (transformMembers_returns Methods env3) as R4.
  destruct (transformMembers' Methods env3) as [env4 o4] eqn:H4.
  rewrite (Hk3 Methods), Hmem in R4 by discriminate. cbn [snd] in R4.
  rewrite (R4 (Hkept Methods)).
  apply transformMembers_spec in H4 as (_ & _ & _ & Hk4 & _).
  pose proof (transformMembers_returns Events env4) as R5.
  destruct (transformMembers' Events env4) as [env5 o5] eqn:H5.
  rewrite (Hk4 Events), (Hk3 Events), Hmem in R5 by discriminate. cbn [snd] in R5.
  now rewrite (R5 (Hkept Events)).
Qed.

End PipelineReturns.

Lemma filter_fmap_comm {A B} (f : A -> B) (P : B -> Prop) `{!forall y, Decision (P y)}
    (l : list A) :
  filter P (f <$> l) = f <$> filter (fun x => P (f x)) l.
Proof.
  induction l as [|x l IH]; [reflexivity|].
  rewrite fmap_cons, !filter_cons, IH. now destruct (decide (P (f x))).
Qed.

Lemma StronglySorted_filter {A} (R : A -> A -> Prop) (P : A -> Prop)
    `{!forall x, Decision (P x)} (l : list A) :
  StronglySorted R l -> StronglySorted R (filter P l).
Proof.
  induction 1 as [|x l Hl IH Hx]; [constructor|].
  rewrite filter_cons. destruct (decide (P x)); [|exact IH].
  constructor; [exact IH|]. apply Forall_forall. intros y Hy.
  apply list_elem_of_filter in Hy as [_ Hy].
  rewrite Forall_forall in Hx. now apply Hx.
Qed.

Lemma filter_all_in {A} (P : A -> Prop) `{!forall x, Decision (P x)} (l : list A) :
  (forall x, x ∈ l -> P x) -> filter P l = l.
Proof.
  induction l as [|x l IH]; intros HP; [reflexivity|].
  rewrite filter_cons, decide_True by (apply HP; left).
  f_equal. apply IH. intros y Hy. apply HP. now right.
Qed.

Section Claims.

Variable getLinkForKeyPath : string -> string -> option string -> option LinkTarget.
Variable markdown_render : LinkOpenRule -> string -> option string.
Variable localeCompare : string -> string -> Z.
Variable versions : list string.

#[local] Abbreviation pipeline' :=
  (transoformMetadataAndCollectHeaders getLinkForKeyPath markdown_render localeCompare
     versions).
#[local] Abbreviation renderedMember' :=
  (renderedMember getLinkForKeyPath markdown_render versions).

(** ** C3: the order of the members *)

(** C3. When the comparison of names is that of a total preorder and the
    pipeline returns, the properties and the methods it leaves are in
    non-decreasing order of name; they are the rendered members of the
    stable sort of the members that were not filtered out, so that
    members the comparison ranks together, and members of one name among
    them, keep the order they had in the input; the events are the
    rendered events that were not filtered out, in the order of the
    input. *)
Theorem pipeline_order (env env' : Env) :
  consistentComparator localeCompare ->
  pipeline' env = (env', Return tt) ->
  let input k := filter (fun m => ~ inheritedFromOther (metadata env) m)
                   (members k (metadata env)) in
  let rendered := renderedMember' (this env) in
  StronglySorted (nameLe localeCompare) (TypeMetadata.properties (metadata env'))
  /\ StronglySorted (nameLe localeCompare) (TypeMetadata.methods (metadata env'))
  /\ TypeMetadata.methods (metadata env')
     = rendered <$> sortByName localeCompare (input Methods)
  /\ TypeMetadata.properties (metadata env')
     = filter (fun m => ~ isConstant m)
         (rendered <$> sortByName localeCompare (input Properties))
  /\ (forall n,
        filter (rankedWith localeCompare n) (TypeMetadata.methods (metadata env'))
        = rendered <$> filter (rankedWith localeCompare n) (input Methods))
  /\ (forall n,
        filter (rankedWith localeCompare n) (TypeMetadata.properties (metadata env'))
        = filter (fun m => ~ isConstant m)
            (rendered <$> filter (rankedWith localeCompare n) (input Properties)))
  /\ (forall n,
        filter (fun m => Member.name m = n) (TypeMetadata.methods (metadata env'))
        = rendered <$> filter (fun m => Member.name m = n) (input Methods))
  /\ (forall n,
        filter (fun m => Member.name m = n) (TypeMetadata.properties (metadata env'))
        = filter (fun m => ~ isConstant m)
            (rendered <$> filter (fun m => Member.name m = n) (input Properties)))
  /\ TypeMetadata.events (metadata env') = rendered <$> input Events
  /\ Member.name <$> TypeMetadata.events (metadata env') = Member.name <$> input Events.
Proof.
  intros Hcmp Hrun input rendered.
  destruct (pipeline_spec _ _ _ _ _ _ _ Hrun) as (_ & _ & _ & Hp & _ & Hm & He & _).
  cbn [keptMembers] in Hp, Hm, He. fold (input Properties) in Hp.
  fold (input Methods) in Hm. fold (input Events) in He. fold rendered in Hp, Hm, He.
  assert (Hname : forall m, Member.name (rendered m) = Member.name m)
    by apply renderedMember_name.
  assert (Hsorted : forall l, StronglySorted (nameLe localeCompare)
                                (rendered <$> sortByName localeCompare l)).
  { intros l. eapply StronglySorted_fmap; [|now apply sortByName_sorted].
    intros x y Hxy. unfold nameLe. now rewrite !Hname. }
  assert (Hrank : forall n l,
            filter (rankedWith localeCompare n) (rendered <$> sortByName localeCompare l)
            = rendered <$> filter (rankedWith localeCompare n) l).
  { intros n l. rewrite filter_fmap_comm.
    rewrite (list_filter_iff _ (rankedWith localeCompare n))
      by (intros x; unfold rankedWith; now rewrite Hname).
    now rewrite sortByName_stable_rank. }
  assert (Hsame : forall n l,
            filter (fun m => Member.name m = n) (rendered <$> sortByName localeCompare l)
            = rendered <$> filter (fun m => Member.name m = n) l).
  { intros n l. rewrite filter_fmap_comm.
    rewrite (list_filter_iff _ (fun m => Member.name m = n))
      by (intros x; now rewrite Hname).
    now rewrite sortByName_stable_name. }
  rewrite Hp, Hm, He.
  split; [apply StronglySorted_filter, Hsorted|].
  split; [apply Hsorted|].
  split; [reflexivity|]. split; [reflexivity|].
  split; [intros n; apply Hrank|].
  split.
  { intros n. rewrite <- Hrank.
    rewrite !list_filter_filter. apply list_filter_iff. intros x. tauto. }
  split; [intros n; apply Hsame|].
  split; [|split; [reflexivity|]].
  - intros n. rewrite <- Hsame.
    rewrite !list_filter_filter. apply list_filter_iff. intros x. tauto.
  - rewrite <- list_fmap_compose. apply list_fmap_ext. intros i x _. apply Hname.
Qed.


(** ** C7: the headers *)

Lemma headers_of_names (l : list Member.t) :
  memberHeader <$> l
  = (fun n => {| level := 3; title := n; slug := Js.toLowerCase n |}) <$> (Member.name <$> l).
Proof. rewrite <- list_fmap_compose. reflexivity. Qed.

Lemma names_of_filter_isConstant (l : list Member.t) :
  Member.name <$> filter (fun m => ~ isConstant m) l
  = filter (fun n => constantNamingPattern n <> true) (Member.name <$> l).
Proof. now rewrite filter_fmap_comm. Qed.

(** C7. A fresh processor whose pipeline returns has accumulated, for
    the properties, then the methods, then the events that were not
    filtered out, in the order the pipeline gives them: one level-2 header
    of the kind (title the capitalized kind, slug the kind) if the kind
    has a member that is not a constant, followed by one level-3 header
    for each such member (title the name, slug the lower-cased name); a
    constant, that is a property whose name matches the pattern, has no
    header of its own. With exactly the two properties [MAX_SIZE] and
    [title], not inherited, and no method and no event, the accumulated
    list is the [Properties] header followed by the header of [title],
    and one call of [appendAdditionalHeaders] appends to the headers of
    the page that list and then one [Constants] header. *)
Theorem pipeline_headers (env env' : Env) :
  MetadataProcessor.additionalHeaders (this env) = [] ->
  pipeline' env = (env', Return tt) ->
  let kept k := keptMembers localeCompare k (metadata env) in
  MetadataProcessor.additionalHeaders (this env')
  = headerGroup Properties (filter (fun m => ~ isConstant m) (kept Properties))
    ++ headerGroup Methods (kept Methods) ++ headerGroup Events (kept Events)
  /\ (forall k m l,
        headerGroup k (m :: l)
        = {| level := 2;
             title := match k with
                      | Properties => "Properties"
                      | Methods => "Methods"
                      | Events => "Events"
                      end;
             slug := memberTypeKey k |}
          :: ((fun m => {| level := 3; title := Member.name m;
                           slug := Js.toLowerCase (Member.name m) |}) <$> (m :: l)))
  /\ (Member.name <$> TypeMetadata.properties (metadata env) ≡ₚ ["MAX_SIZE"; "title"] ->
      (forall m, m ∈ TypeMetadata.properties (metadata env) ->
                 ~ inheritedFromOther (metadata env) m) ->
      TypeMetadata.methods (metadata env) = [] ->
      TypeMetadata.events (metadata env) = [] ->
      MetadataProcessor.additionalHeaders (this env')
      = [ {| level := 2; title := "Properties"; slug := "properties" |};
          {| level := 3; title := "title"; slug := "title" |} ]
      /\ forall page,
          page_headers (appendAdditionalHeaders (this env') page)
          = Some (match page_headers page with Some h => h | None => [] end
                  ++ [ {| level := 2; title := "Properties"; slug := "properties" |};
                       {| level := 3; title := "title"; slug := "title" |} ]
                  ++ [ {| level := 2; title := "Constants"; slug := "constants" |} ])).
Proof.
  intros Hfresh Hrun kept.
  destruct (pipeline_spec _ _ _ _ _ _ _ Hrun) as (_ & _ & _ & _ & _ & _ & _ & Hh & Hc).
  fold kept in Hh, Hc. rewrite Hfresh, app_nil_l in Hh.
  split; [exact Hh|]. split; [now intros [] m l|].
  intros Hnames Hown Hmeth Hev.
  assert (HkP : Member.name <$> kept Properties ≡ₚ ["MAX_SIZE"; "title"]).
  { unfold kept. rewrite keptMembers_Permutation. cbn [members].
    rewrite filter_all_in by exact Hown. exact Hnames. }
  assert (HkM : kept Methods = []) by (unfold kept; simpl; now rewrite Hmeth).
  assert (HkE : kept Events = []) by (unfold kept; simpl; now rewrite Hev).
  assert (Htitle : Member.name <$> filter (fun m => ~ isConstant m) (kept Properties) = ["title"]).
  { rewrite names_of_filter_isConstant. apply Permutation_singleton_r.
    rewrite HkP. reflexivity. }
  assert (Hhdr : MetadataProcessor.additionalHeaders (this env')
                 = [ {| level := 2; title := "Properties"; slug := "properties" |};
                     {| level := 3; title := "title"; slug := "title" |} ]).
  { unfold kept in *. rewrite Hh, HkM, HkE. cbn [headerGroup app]. rewrite app_nil_r.
    destruct (filter _ (keptMembers _ Properties _)) as [|m l] eqn:Hf; [discriminate Htitle|].
    unfold headerGroup. rewrite headers_of_names. rewrite Htitle. reflexivity. }
  split; [exact Hhdr|]. intros page.
  assert (Hhas : MetadataProcessor.hasConstants (this env') = true).
  { apply Hc. right.
    assert (Hin : "MAX_SIZE" ∈ Member.name <$> kept Properties)
      by (rewrite HkP; left).
    apply list_elem_of_fmap in Hin as (m & Hm & Hin). exists m. split; [exact Hin|].
    unfold isConstant. now rewrite <- Hm. }
  unfold appendAdditionalHeaders. rewrite Hhas, Hhdr. simpl. now rewrite <- app_assoc.
Qed.


(** ** C10: the flag and the constants *)

(** C10. After the pipeline of a fresh processor has returned, the
    metadata carries a [constants] list, and the flag [hasConstants] is
    set exactly when that list is not empty; so [appendAdditionalHeaders]
    puts the [Constants] header after the accumulated headers exactly
    when the metadata has at least one constant. *)
Theorem hasConstants_iff_constants (env env' : Env) :
  MetadataProcessor.hasConstants (this env) = false ->
  pipeline' env = (env', Return tt) ->
  exists constants,
    TypeMetadata.constants (metadata env') = Some constants
    /\ (MetadataProcessor.hasConstants (this env') = true <-> constants <> [])
    /\ forall page,
         page_headers (appendAdditionalHeaders (this env') page)
         = Some ((match page_headers page with Some h => h | None => [] end
                  ++ MetadataProcessor.additionalHeaders (this env'))
                 ++ match constants with
                    | [] => []
                    | _ => [ {| level := 2; title := "Constants"; slug := "constants" |} ]
                    end).
Proof.
  intros Hfresh Hrun.
  destruct (pipeline_spec _ _ _ _ _ _ _ Hrun) as (_ & _ & _ & _ & Hcs & _ & _ & _ & Hc).
  cbv zeta in Hcs, Hc. rewrite Hfresh in Hc.
  eexists. split; [exact Hcs|].
  assert (Hiff : MetadataProcessor.hasConstants (this env') = true <->
                 filter isConstant
                   (renderedMember' (this env)
                      <$> keptMembers localeCompare Properties (metadata env)) <> []).
  { rewrite Hc, filter_fmap_comm. split.
    - intros [H|(m & Hm & Hcm)]; [discriminate H|]. intros Hnil.
      apply fmap_nil_inv in Hnil.
      assert (Hin : m ∈ filter (fun x => isConstant (renderedMember' (this env) x))
                          (keptMembers localeCompare Properties (metadata env))).
      { apply list_elem_of_filter. split; [|exact Hm].
        unfold isConstant. now rewrite renderedMember_name. }
      rewrite Hnil in Hin. inversion Hin.
    - intros Hne. right.
      destruct (filter _ (keptMembers _ _ _)) as [|m l] eqn:Hf; [now contradiction Hne|].
      assert (Hin : m ∈ m :: l) by left. rewrite <- Hf in Hin.
      apply list_elem_of_filter in Hin as [Hcm Hin]. exists m. split; [exact Hin|].
      unfold isConstant in *. now rewrite renderedMember_name in Hcm. }
  split; [exact Hiff|]. intros page. unfold appendAdditionalHeaders.
  destruct (MetadataProcessor.hasConstants (this env')) eqn:Hhas.
  - destruct (filter isConstant _) as [|c cs]; [|reflexivity].
    exfalso. now apply Hiff.
  - destruct (filter isConstant _) as [|c cs]; [simpl; now rewrite app_nil_r|].
    exfalso. assert (false = true); [|discriminate]. now apply Hiff.
Qed.

(** ** C8: the [link_open] rule *)

(** The rule is put back when the pipeline returns and is left
    suppressed when it throws. *)
Lemma link_open_after_pipeline (env env' : Env) (o : outcome unit) :
  pipeline' env = (env', o) ->
  match o with
  | Return _ => link_open env' = link_open env
  | Throw _ => link_open env' = RenderTokenRule
  end.
Proof.
  intros Hrun. destruct (pipeline_spec _ _ _ _ _ _ _ Hrun) as (_ & _ & H).
  destruct o; [apply H | exact H].
Qed.

(** C8 fails on the code for a type without a summary: the call of
    [renderMarkdown] of line 289 throws a [TypeError], line 293 is not
    reached, and the rule VuePress installed stays replaced by the plain
    one. *)
Theorem link_open_not_restored_after_throw (self : MetadataProcessor.t)
    (md : TypeMetadata.t) :
  TypeMetadata.summary md = None ->
  let before := {| link_open := RouterLinkRule; this := self; metadata := md |} in
  snd (pipeline' before) = Throw TypeError
  /\ link_open (fst (pipeline' before)) = RenderTokenRule
  /\ link_open (fst (pipeline' before)) <> link_open before.
Proof.
  intros Hsummary before.
  assert (Hrun : snd (pipeline' before) = Throw TypeError).
  { unfold transoformMetadataAndCollectHeaders, bind, modify, gets, lift.
    unfold before, filterInheritedMembers, renderMarkdown.
    cbn [on_metadata set_link_open link_open this metadata TypeMetadata.summary
         TypeMetadata.set_methods TypeMetadata.set_properties TypeMetadata.set_events
         TypeMetadata.delete_prose].
    now rewrite Hsummary. }
  split; [exact Hrun|].
  destruct (pipeline' before) as [env' o] eqn:E. cbn [fst snd] in *. subst o.
  apply link_open_after_pipeline in E. rewrite E.
  split; [reflexivity | discriminate].
Qed.

End Claims.

(** ** The cache of processors *)

Lemma processorProperty_not_processor self name loc :
  processorProperty self name <> ProcessorAt loc.
Proof.
  unfold processorProperty.
  repeat match goal with |- context [if ?b then _ else _] => destruct b end; discriminate.
Qed.

(** The processors that [processed[version][typeName]] can be are those of
    [lookupProcessed]. *)
Lemma readProcessed_ProcessorAt objects processed v t loc :
  readProcessed objects processed v t = ProcessorAt loc
  <-> lookupProcessed processed v t = Some loc.
Proof.
  unfold readProcessed, lookupProcessed, readProperty.
  destruct (processed !! v) as [o|]; [|split; discriminate].
  destruct (String.eqb t "__proto__").
  - destruct (prototype o); split; congruence.
  - destruct (own_properties o !! t); [split; congruence|].
    split; [|discriminate]. intros H. exfalso.
    destruct (prototype o) as [p|].
    + destruct (objects !! p) as [self|].
      * now apply processorProperty_not_processor in H.
      * destruct (inheritedKey t); discriminate H.
    + destruct (inheritedKey t); discriminate H.
Qed.

Lemma lookupProcessed_cacheProcessor processed v t loc :
  lookupProcessed (cacheProcessor processed v t loc) v t = Some loc.
Proof.
  unfold lookupProcessed, cacheProcessor, assignProperty.
  destruct (processed !! v) as [o|]; rewrite lookup_insert_eq;
    destruct (String.eqb t "__proto__"); cbn [own_properties prototype];
    try reflexivity; apply lookup_insert_eq.
Qed.

Lemma lookupProcessed_cacheProcessor_ne processed v' t' loc' v t :
  (v', t') <> (v, t) ->
  lookupProcessed (cacheProcessor processed v' t' loc') v t = lookupProcessed processed v t.
Proof.
  intros Hne. unfold lookupProcessed, cacheProcessor, assignProperty.
  destruct (decide (v' = v)) as [->|Hv].
  - assert (Ht : t' <> t) by congruence.
    destruct (processed !! v) as [o|]; rewrite lookup_insert_eq;
      destruct (String.eqb_spec t' "__proto__") as [->|Ht'];
      destruct (String.eqb_spec t "__proto__") as [->|Ht''];
      cbn [own_properties prototype]; try congruence;
      rewrite ?lookup_insert_ne by exact Ht; try reflexivity; apply lookup_empty.
  - destruct (processed !! v') as [o|]; now rewrite lookup_insert_ne.
Qed.

(** What a request reads in the cache depends on the processors there
    are only. *)
Lemma readProcessed_objects objects objects' processed v t :
  (forall v' t' loc, lookupProcessed processed v' t' = Some loc ->
                     is_Some (objects !! loc)) ->
  (forall loc self, objects !! loc = Some self -> objects' !! loc = Some self) ->
  readProcessed objects' processed v t = readProcessed objects processed v t.
Proof.
  intros Hwf Hext. unfold readProcessed, readProperty.
  destruct (processed !! v) as [o|] eqn:Hv; [|reflexivity].
  destruct (String.eqb t "__proto__"); [reflexivity|].
  destruct (own_properties o !! t); [reflexivity|].
  destruct (prototype o) as [p|] eqn:Hp; [|reflexivity].
  destruct (Hwf v "__proto__" p) as [self Hself].
  { unfold lookupProcessed. now rewrite Hv. }
  now rewrite Hself, (Hext p self Hself).
Qed.





Lemma pageTypeName_apiFrontmatter page :
  pageTypeName (set_frontmatter (apiFrontmatter (frontmatter page)) page) = pageTypeName page.
Proof. reflexivity. Qed.

Lemma pageVersion_apiFrontmatter page :
  pageVersion (set_frontmatter (apiFrontmatter (frontmatter page)) page) = pageVersion page.
Proof. reflexivity. Qed.

Section Cache.

Variable getLinkForKeyPath : string -> string -> option string -> option LinkTarget.
Variable markdown_render : LinkOpenRule -> string -> option string.
Variable localeCompare : string -> string -> Z.
Variable versions : list string.
Variable context_base : string.

#[local] Abbreviation pipeline' :=
  (transoformMetadataAndCollectHeaders getLinkForKeyPath markdown_render localeCompare
     versions).
#[local] Abbreviation extendPageData' :=
  (extendPageData getLinkForKeyPath markdown_render localeCompare versions context_base).
#[local] Abbreviation serve' :=
  (serve getLinkForKeyPath markdown_render localeCompare versions context_base).





(** The processors there are stay where they are when one is created. *)
Lemma objects_created (l : list MetadataProcessor.t) (x y self : MetadataProcessor.t) loc :
  l !! loc = Some self -> <[length l := x]> (l ++ [y]) !! loc = Some self.
Proof.
  intros H. apply lookup_lt_Some in H as Hlt.
  rewrite list_lookup_insert_ne by lia. now rewrite lookup_app_l.
Qed.

Lemma insert_at_length {A} (l : list A) (x y : A) : <[length l := x]> (l ++ [y]) = l ++ [x].
Proof. induction l as [|a l IH]; [reflexivity|]. simpl. now rewrite IH. Qed.

(** The cache refers to processors there are: at the start, when it is
    empty, and then after every request. *)
Lemma cacheWellFormed_empty w : processed w = ∅ -> cacheWellFormed w.
Proof.
  intros Hempty v t loc H. unfold lookupProcessed in H.
  rewrite Hempty, lookup_empty in H. discriminate H.
Qed.

Lemma extendPageData_wellFormed page w :
  cacheWellFormed w -> cacheWellFormed (fst (fst (extendPageData' page w))).
Proof.
  intros Hwf. unfold extendPageData.
  destruct (apiPathPattern (regularPath page)); cbn [negb fst]; [|exact Hwf].
  rewrite pageTypeName_apiFrontmatter, pageVersion_apiFrontmatter.
  set (typeName := pageTypeName page). set (version := pageVersion page).
  destruct (findMetadata (service_metadata w) typeName version) as [md|]; [|exact Hwf].
  destruct (readProcessed (objects w) (processed w) version typeName) as [|loc'|] eqn:Hp'.
  2:{ destruct (objects w !! loc'); exact Hwf. }
  2:{ exact Hwf. }
  assert (Hgrow : forall x loc, is_Some (objects w !! loc) ->
            is_Some (<[length (objects w) := x]>
                       (objects w ++ [MetadataProcessor.new context_base version]) !! loc)).
  { intros x loc [self Hself]. exists self. now apply objects_created. }
  destruct (pipeline' _) as [env [[]|e]]; unfold commit; cbn [fst]; intros v t loc;
    cbn [set_currentPage_null processed objects].
  - destruct (decide ((version, typeName) = (v, t))) as [[= <- <-]|Hne].
    + rewrite lookupProcessed_cacheProcessor. intros [= <-].
      rewrite insert_at_length. exists (this env).
      now rewrite lookup_app_r, Nat.sub_diag.
    + rewrite lookupProcessed_cacheProcessor_ne by exact Hne.
      intros H. apply Hgrow. now apply (Hwf v t).
  - intros H. apply Hgrow. now apply (Hwf v t).
Qed.

Lemma serve_wellFormed pages : forall w,
  cacheWellFormed w -> cacheWellFormed (serve' pages w).
Proof.
  induction pages as [|page pages IH]; intros w H; [exact H|].
  simpl. apply IH. now apply extendPageData_wellFormed.
Qed.

(** ** C1: one processor and one run of the pipeline for each pair *)



End Cache.

(** ** The claims on sample inputs *)

Lemma codeUnitCompare_consistent : consistentComparator codeUnitCompare.
Proof.
  assert (Hle : forall a b, (codeUnitCompare a b <= 0)%Z <-> String.compare a b <> Gt).
  { intros a b. unfold codeUnitCompare. destruct (String.compare a b); split;
      intros H; try lia; try discriminate. now contradiction H. }
  split.
  - intros a b. rewrite !Hle. rewrite (String.compare_antisym b a).
    destruct (String.compare a b); simpl; [left|left|right]; discriminate.
  - intros a b c. rewrite !Hle. intros Hab Hbc.
    destruct (String.compare a b) eqn:Eab; [| |now contradiction Hab].
    + apply String.compare_eq_iff in Eab. now subst.
    + destruct (String.compare b c) eqn:Ebc; [| |now contradiction Hbc].
      * apply String.compare_eq_iff in Ebc. subst. now rewrite Eab.
      * apply String_as_OT.cmp_lt in Eab, Ebc.
        pose proof (String_as_OT.lt_trans _ _ _ Eab Ebc) as Hac.
        apply String_as_OT.cmp_lt in Hac. unfold String_as_OT.cmp in Hac.
        now rewrite Hac.
Qed.

Example samplePipeline_result :
  let after := sampleAfter in
  snd (samplePipeline (sampleEnv sampleMetadata)) = Return tt
  /\ Member.name <$> TypeMetadata.properties (metadata after) = ["title"]
  /\ option_map (fmap Member.name) (TypeMetadata.constants (metadata after))
     = Some ["MAX_SIZE"]
  /\ Member.name <$> TypeMetadata.methods (metadata after) = ["add"; "show"]
  /\ Member.name <$> TypeMetadata.events (metadata after) = ["click"; "blur"]
  /\ TypeMetadata.summary (metadata after)
     = Some "<p>See [Foo.bar](/api/Foo.html#bar)</p>"
  /\ link_open after = RouterLinkRule
  /\ MetadataProcessor.hasConstants (this after) = true
  /\ (title <$> MetadataProcessor.additionalHeaders (this after))
     = ["Properties"; "title"; "Methods"; "add"; "show"; "Events"; "click"; "blur"].
Proof. vm_compute. repeat split; reflexivity. Qed.

Lemma pipeline_order_witness :
  StronglySorted (nameLe codeUnitCompare) (TypeMetadata.methods (metadata sampleAfter))
  /\ Member.name <$> TypeMetadata.events (metadata sampleAfter) = ["click"; "blur"].
Proof.
  assert (Hrun : transoformMetadataAndCollectHeaders resolveFooBar sampleRender
                   codeUnitCompare [] (sampleEnv sampleMetadata)
                 = (sampleAfter, Return tt))
    by (vm_compute; reflexivity).
  pose proof (pipeline_order resolveFooBar sampleRender codeUnitCompare []
                (sampleEnv sampleMetadata) sampleAfter codeUnitCompare_consistent Hrun) as H.
  cbv zeta in H. destruct H as (_ & Hsorted & _ & _ & _ & _ & _ & _ & _ & Hevents).
  split; [exact Hsorted|]. vm_compute. reflexivity.
Defined.

Lemma pipeline_headers_witness :
  MetadataProcessor.additionalHeaders (this twoPropertiesAfter)
  = [ {| level := 2; title := "Properties"; slug := "properties" |};
      {| level := 3; title := "title"; slug := "title" |} ]
  /\ page_headers (appendAdditionalHeaders (this twoPropertiesAfter) samplePage)
     = Some (match page_headers samplePage with Some h => h | None => [] end
             ++ [ {| level := 2; title := "Properties"; slug := "properties" |};
                  {| level := 3; title := "title"; slug := "title" |} ]
             ++ [ {| level := 2; title := "Constants"; slug := "constants" |} ]).
Proof.
  assert (Hrun : transoformMetadataAndCollectHeaders resolveFooBar sampleRender
                   codeUnitCompare [] (sampleEnv twoProperties)
                 = (twoPropertiesAfter, Return tt))
    by (vm_compute; reflexivity).
  pose proof (pipeline_headers resolveFooBar sampleRender codeUnitCompare []
                (sampleEnv twoProperties) twoPropertiesAfter eq_refl Hrun) as H.
  cbv zeta in H. destruct H as (_ & _ & H).
  assert (Hnames : Member.name <$> TypeMetadata.properties (metadata (sampleEnv twoProperties))
                   ≡ₚ ["MAX_SIZE"; "title"]) by apply perm_swap.
  assert (Hown : forall m, m ∈ TypeMetadata.properties (metadata (sampleEnv twoProperties)) ->
                           ~ inheritedFromOther (metadata (sampleEnv twoProperties)) m).
  { intros m Hm (p & Hp & _).
    apply elem_of_cons in Hm as [->|Hm]; [discriminate Hp|].
    apply elem_of_cons in Hm as [->|Hm]; [discriminate Hp | inversion Hm]. }
  destruct (H Hnames Hown eq_refl eq_refl) as [Hh Hpage].
  split; [exact Hh|]. exact (Hpage samplePage).
Defined.

Lemma hasConstants_iff_constants_witness :
  exists constants,
    TypeMetadata.constants (metadata sampleAfter) = Some constants
    /\ (MetadataProcessor.hasConstants (this sampleAfter) = true <-> constants <> []).
Proof.
  assert (Hrun : transoformMetadataAndCollectHeaders resolveFooBar sampleRender
                   codeUnitCompare [] (sampleEnv sampleMetadata)
                 = (sampleAfter, Return tt))
    by (vm_compute; reflexivity).
  destruct (hasConstants_iff_constants resolveFooBar sampleRender codeUnitCompare []
              (sampleEnv sampleMetadata) sampleAfter eq_refl Hrun)
    as (constants & Hc & Hiff & _).
  exists constants. split; [exact Hc | exact Hiff].
Defined.

Lemma link_open_not_restored_after_throw_witness :
  let before := {| link_open := RouterLinkRule; this := MetadataProcessor.new "/" "next";
                   metadata := noSummary |} in
  let run := transoformMetadataAndCollectHeaders resolveFooBar sampleRender
               codeUnitCompare [] before in
  snd run = Throw TypeError
  /\ link_open (fst run) = RenderTokenRule
  /\ link_open (fst run) <> link_open before.
Proof.
  exact (link_open_not_restored_after_throw resolveFooBar sampleRender codeUnitCompare []
           (MetadataProcessor.new "/" "next") noSummary eq_refl).
Defined.


(** The patterns on small inputs. *)
Example customLinkPattern_examples :
  customLinkPattern "<Foo.bar> x" = Some ("Foo.bar", " x")
  /\ customLinkPattern "<a/b>" = None
  /\ customLinkPattern "<>" = None
  /\ customLinkPattern "<a<b>c" = Some ("a<b", "c")
  /\ customLinkPattern "<open" = None.
Proof. repeat split; reflexivity. Qed.

Example mdLinkPattern_examples :
  mdLinkPattern "[text](Foo.bar) x" = Some ("text", "Foo.bar", " x")
  /\ mdLinkPattern "[text] (Foo.bar)" = None
  /\ mdLinkPattern "[](Foo.bar)" = None
  /\ mdLinkPattern "[a[b](c(d)e" = Some ("a[b", "c(d", "e").
Proof. repeat split; reflexivity. Qed.

Example constantNamingPattern_examples :
  constantNamingPattern "MAX_SIZE" = true
  /\ constantNamingPattern "HTTP2" = true
  /\ constantNamingPattern "title" = false
  /\ constantNamingPattern "Max" = false
  /\ constantNamingPattern "" = false
  /\ constantNamingPattern "A-B" = false.
Proof. repeat split; reflexivity. Qed.

Example apiPathPattern_examples :
  apiPathPattern "/api/titanium/ui.html" = true
  /\ apiPathPattern "/next/api/titanium/ui.html" = true
  /\ apiPathPattern "/8.0.0/api/" = true
  /\ apiPathPattern "/guide/api.html" = false
  /\ apiPathPattern "/a/b/api/x" = false.
Proof. repeat split; reflexivity. Qed.

Example rewriteTypeLinks_examples :
  rewriteTypeLinks resolveFooBar [] (MetadataProcessor.new "/" "next")
    "[the bar](Foo.bar), <Foo.bar>, [other](Baz) and <a/b>"
  = "[Foo.bar](/api/Foo.html#bar), [Foo.bar](/api/Foo.html#bar), [other](Baz) and <a/b>".
Proof. reflexivity. Qed.

(** A second run of the pipeline on metadata it has already processed is
    not the identity: the constants are no longer among the properties,
    and the flag of the new processor stays unset. *)
Example second_run_differs :
  let again := samplePipeline (sampleEnv (metadata sampleAfter)) in
  snd again = Return tt
  /\ MetadataProcessor.hasConstants (this (fst again)) = false
  /\ TypeMetadata.summary (metadata (fst again))
     = Some "<p><p>See [Foo.bar](/api/Foo.html#bar)</p></p>".
Proof. vm_compute. repeat split; reflexivity. Qed.

(** * Further properties *)

(** ** The route of the development server *)

#[local] Arguments String.append !_ _ / : simpl nomatch.

Lemma countSlashes_app s t : countSlashes (s +:+ t) = countSlashes s + countSlashes t.
Proof. induction s as [|c s IH]; simpl; [reflexivity | rewrite IH; lia]. Qed.

Lemma countSlashes_routeChars s : Js.all_chars routeChar s = true -> countSlashes s = 0.
Proof.
  induction s as [|c s IH]; simpl; [reflexivity|]. intros H.
  apply andb_true_iff in H as [Hc Hs]. rewrite (IH Hs).
  destruct (Ascii.eqb_spec c "/") as [->|_]; [discriminate Hc | reflexivity].
Qed.

Lemma string_app_inv_length s1 : forall s2 t1 t2,
  String.length s1 = String.length s2 -> s1 +:+ t1 = s2 +:+ t2 -> s1 = s2 /\ t1 = t2.
Proof.
  induction s1 as [|c s1 IH]; intros [|d s2] t1 t2 Hlen H; simpl in *; try discriminate.
  - auto.
  - inversion H; subst. destruct (IH s2 t1 t2) as [-> ->]; [lia | assumption | auto].
Qed.

Lemma string_app_inv_tail s1 s2 t1 t2 :
  String.length t1 = String.length t2 -> s1 +:+ t1 = s2 +:+ t2 -> s1 = s2 /\ t1 = t2.
Proof.
  intros Hlen H. apply string_app_inv_length; [|exact H].
  apply (f_equal String.length) in H. rewrite !string_length_app in H. lia.
Qed.

Lemma typeSegmentRun_Some s : forall g,
  typeSegmentRun s = Some g ->
  exists c, s = g +:+ String c "json" /\ Js.all_chars routeChar g = true
            /\ is_line_terminator c = false.
Proof.
  induction s as [|c rest IH]; intros g; simpl; [discriminate|].
  destruct (String.eqb_spec rest "json") as [->|Hne].
  - destruct (is_line_terminator c) eqn:Hc; [discriminate|].
    intros [= <-]. exists c. auto.
  - destruct (routeChar c) eqn:Hc; [|discriminate].
    destruct (typeSegmentRun rest) as [g'|]; [|discriminate].
    intros [= <-]. destruct (IH g' eq_refl) as (d & -> & Hall & Hd).
    exists d. simpl. rewrite Hc. auto.
Qed.

Lemma typeSegmentRun_run g : forall c,
  Js.all_chars routeChar g = true -> is_line_terminator c = false ->
  typeSegmentRun (g +:+ String c "json") = Some g.
Proof.
  induction g as [|a g IH]; intros c Hall Hc.
  - simpl. now rewrite Hc.
  - simpl in Hall. apply andb_true_iff in Hall as [Ha Hall].
    cbn [String.append typeSegmentRun].
    destruct (String.eqb_spec (g +:+ String c "json") "json") as [Heq|_].
    + apply (f_equal String.length) in Heq. rewrite string_length_app in Heq.
      simpl in Heq. lia.
    + now rewrite Ha, (IH c Hall Hc).
Qed.

Lemma metadataRouteAt_Some s version typeName :
  metadataRouteAt s = Some (version, typeName) ->
  routeSegment version /\ routeSegment typeName
  /\ exists c, is_line_terminator c = false
               /\ s = "/" +:+ version +:+ "/" +:+ typeName +:+ String c "json".
Proof.
  unfold metadataRouteAt. destruct s as [|a s1]; [discriminate|].
  destruct (Ascii.eqb_spec a "/") as [->|Ha].
  2:{ intros H. exfalso. destruct a as [[] [] [] [] [] [] [] []]; try discriminate H.
      now apply Ha. }
  destruct (Js.span routeChar s1) as [run r] eqn:Hs.
  destruct run as [|c v]; [discriminate|]. destruct r as [|e s2]; [discriminate|].
  destruct (Ascii.eqb_spec e "/") as [->|He].
  2:{ intros H. exfalso. destruct e as [[] [] [] [] [] [] [] []]; try discriminate H.
      now apply He. }
  unfold typeSegment. destruct (typeSegmentRun s2) as [[|d g]|] eqn:Ht; try discriminate.
  intros [= <- <-]. apply span_split in Hs as [-> Hall].
  apply typeSegmentRun_Some in Ht as (x & -> & Hg & Hx).
  split; [split; [discriminate | exact Hall]|].
  split; [split; [discriminate | exact Hg]|].
  exists x. split; [exact Hx|]. simpl. rewrite ?string_app_assoc. reflexivity.
Qed.

Lemma metadataRouteAt_match version typeName c rest :
  routeSegment version -> routeSegment typeName -> is_line_terminator c = false ->
  rest = typeName +:+ String c "json" ->
  metadataRouteAt ("/" +:+ version +:+ "/" +:+ rest) = Some (version, typeName).
Proof.
  intros [Hv Hvall] [Hn Hnall] Hc ->. simpl.
  rewrite (span_run routeChar version "/" _ Hvall eq_refl).
  destruct version as [|a v]; [contradiction|].
  unfold typeSegment. rewrite (typeSegmentRun_run typeName c Hnall Hc).
  destruct typeName; [contradiction | reflexivity].
Qed.

Lemma metadataRoutePattern_here s captures :
  metadataRouteAt s = Some captures -> metadataRoutePattern s = Some captures.
Proof. intros H. destruct s; cbn [metadataRoutePattern]; now rewrite H. Qed.

Lemma metadataRoutePattern_later a s :
  metadataRouteAt (String a s) = None ->
  metadataRoutePattern (String a s) = metadataRoutePattern s.
Proof. intros H. cbn [metadataRoutePattern]. now rewrite H. Qed.

(** The leftmost match of the route in a path that ends with
    [/version/typeName.json] is that ending, whatever comes before. *)
Lemma metadataRoutePattern_suffix prefix : forall version typeName,
  routeSegment version -> routeSegment typeName ->
  metadataRoutePattern (prefix +:+ "/" +:+ version +:+ "/" +:+ typeName +:+ ".json")
  = Some (version, typeName).
Proof.
  induction prefix as [|a prefix IH]; intros version typeName Hv Hn.
  - apply metadataRoutePattern_here.
    now apply (metadataRouteAt_match version typeName "." (typeName +:+ ".json")).
  - change (metadataRoutePattern
              (String a (prefix +:+ "/" +:+ version +:+ "/" +:+ typeName +:+ ".json"))
            = Some (version, typeName)).
    destruct (metadataRouteAt
                (String a (prefix +:+ "/" +:+ version +:+ "/" +:+ typeName +:+ ".json")))
      as [[v' n']|] eqn:Hat;
      [exfalso | rewrite (metadataRoutePattern_later _ _ Hat); now apply IH].
    apply metadataRouteAt_Some in Hat as ([_ Hv'] & [_ Hn'] & c & _ & Heq).
    assert (Hsplit : String a (prefix +:+ "/" +:+ version +:+ "/" +:+ typeName +:+ ".json")
                     = (String a prefix +:+ "/" +:+ version +:+ "/" +:+ typeName)
                         +:+ String "." "json")
      by (rewrite !string_app_assoc; reflexivity).
    assert (Hsplit' : "/" +:+ v' +:+ "/" +:+ n' +:+ String c "json"
                      = ("/" +:+ v' +:+ "/" +:+ n') +:+ String c "json")
      by (rewrite !string_app_assoc; reflexivity).
    rewrite Hsplit, Hsplit' in Heq.
    apply string_app_inv_tail in Heq as [Heq _]; [|reflexivity].
    simpl in Heq. injection Heq as -> Heq.
    apply (f_equal countSlashes) in Heq.
    rewrite !countSlashes_app in Heq. cbn [countSlashes] in Heq.
    rewrite !countSlashes_app in Heq. cbn [countSlashes] in Heq.
    destruct Hv as [_ Hv], Hn as [_ Hn].
    rewrite (countSlashes_routeChars _ Hv), (countSlashes_routeChars _ Hn),
      (countSlashes_routeChars _ Hv'), (countSlashes_routeChars _ Hn') in Heq.
    simpl in Heq. lia.
Qed.

Lemma metadataRoutePattern_Some path : forall captures,
  metadataRoutePattern path = Some captures ->
  exists prefix rest, path = prefix +:+ rest /\ metadataRouteAt rest = Some captures.
Proof.
  induction path as [|a path IH]; intros captures H.
  - cbn [metadataRoutePattern] in H.
    destruct (metadataRouteAt "") eqn:Hat; [|discriminate].
    exists "", "". split; [reflexivity | congruence].
  - cbn [metadataRoutePattern] in H.
    destruct (metadataRouteAt (String a path)) eqn:Hat.
    + exists "", (String a path). split; [reflexivity | congruence].
    + destruct (IH _ H) as (prefix & rest & -> & Hrest).
      exists (String a prefix), rest. split; [reflexivity | exact Hrest].
Qed.

Lemma lower_char_idempotent c : Js.lower_char (Js.lower_char c) = Js.lower_char c.
Proof. destruct c as [[] [] [] [] [] [] [] []]; reflexivity. Qed.

Lemma toLowerCase_idempotent s : Js.toLowerCase (Js.toLowerCase s) = Js.toLowerCase s.
Proof.
  induction s as [|c s IH]; [reflexivity|]. simpl. now rewrite IH, lower_char_idempotent.
Qed.

Lemma lower_char_routeChar c : routeChar c = true -> routeChar (Js.lower_char c) = true.
Proof. destruct c as [[] [] [] [] [] [] [] []]; intros H; try discriminate H; reflexivity. Qed.

Lemma toLowerCase_routeSegment s : routeSegment s -> routeSegment (Js.toLowerCase s).
Proof.
  intros [Hne Hall]. split; [now destruct s|].
  clear Hne. induction s as [|c s IH]; [reflexivity|]. simpl in *.
  apply andb_true_iff in Hall as [Hc Hs]. now rewrite (lower_char_routeChar c Hc), IH.
Qed.

(** With lower-cased names that are pairwise distinct, the lookup by the
    lower-cased name of a stored type finds that type. *)
Lemma findLowerCased_stored typesMetadata : forall name metadata,
  NoDup ((fun entry => Js.toLowerCase (fst entry)) <$> typesMetadata) ->
  (name, metadata) ∈ typesMetadata ->
  findLowerCased (Js.toLowerCase name) typesMetadata = Some metadata.
Proof.
  induction typesMetadata as [|[k x] rest IH]; intros name metadata Hnd Hin.
  - inversion Hin.
  - rewrite fmap_cons in Hnd. apply NoDup_cons in Hnd as [Hk Hnd]. simpl in Hk. simpl.
    apply elem_of_cons in Hin as [[= <- <-]|Hin].
    + now rewrite String.eqb_refl.
    + destruct (String.eqb_spec (Js.toLowerCase k) (Js.toLowerCase name)) as [Heq|_];
        [|now apply IH].
      exfalso. apply Hk. rewrite Heq.
      apply list_elem_of_fmap. now exists (name, metadata).
Qed.

(** ** X1: what the development server answers with *)

(** X1. The middleware answers with metadata only to a request that
    accepts JSON and whose path ends with [/version/typeName] followed by
    one character and [json], both segments being non-empty strings of
    word characters and dots; the metadata is that of a type stored for
    that version whose lower-cased name is the segment [typeName], so the
    segment has no upper-case letter. *)
Theorem devServerMiddleware_Json (store : Store) (req : Request) (metadata : TypeMetadata.t) :
  devServerMiddleware store req = Json metadata ->
  accepts_json req = true
  /\ exists prefix version typeName c typesMetadata name,
       request_path req
       = prefix +:+ "/" +:+ version +:+ "/" +:+ typeName +:+ String c "json"
       /\ routeSegment version /\ routeSegment typeName
       /\ store !! version = Some typesMetadata
       /\ (name, metadata) ∈ typesMetadata
       /\ Js.toLowerCase name = typeName
       /\ Js.toLowerCase typeName = typeName.
Proof.
  unfold devServerMiddleware. destruct (accepts_json req); [|discriminate]. cbn [negb].
  destruct (metadataRoutePattern (request_path req)) as [[version typeName]|] eqn:Hroute;
    [|discriminate].
  destruct (findMetadataWithLowerCasedKey store typeName version) as [md|] eqn:Hfind;
    [|discriminate].
  intros [= ->]. split; [reflexivity|].
  apply metadataRoutePattern_Some in Hroute as (prefix & rest & Hpath & Hat).
  apply metadataRouteAt_Some in Hat as (Hv & Hn & c & _ & ->).
  unfold findMetadataWithLowerCasedKey in Hfind.
  destruct (store !! version) as [types|] eqn:Hstore; [|discriminate].
  apply findLowerCased_Some in Hfind as (name & Hin & Hname).
  exists prefix, version, typeName, c, types, name.
  repeat split; try assumption; try apply Hv; try apply Hn.
  rewrite <- Hname. apply toLowerCase_idempotent.
Qed.

Lemma devServerMiddleware_Json_witness :
  devServerMiddleware storeWithFoo
    {| accepts_json := true; request_path := "/metadata/next/foo.json" |}
  = Json (emptyMetadata "Foo")
  /\ exists prefix version typeName c typesMetadata name,
       "/metadata/next/foo.json"
       = prefix +:+ "/" +:+ version +:+ "/" +:+ typeName +:+ String c "json"
       /\ routeSegment version /\ routeSegment typeName
       /\ storeWithFoo !! version = Some typesMetadata
       /\ (name, emptyMetadata "Foo") ∈ typesMetadata
       /\ Js.toLowerCase name = typeName
       /\ Js.toLowerCase typeName = typeName.
Proof.
  assert (Hrun : devServerMiddleware storeWithFoo
                   {| accepts_json := true; request_path := "/metadata/next/foo.json" |}
                 = Json (emptyMetadata "Foo")) by (vm_compute; reflexivity).
  split; [exact Hrun|].
  exact (proj2 (devServerMiddleware_Json storeWithFoo
                  {| accepts_json := true; request_path := "/metadata/next/foo.json" |}
                  (emptyMetadata "Foo") Hrun)).
Defined.

(** ** X2: the files of [generated] and the development server *)

Lemma routeChar_lower_char c : routeChar (Js.lower_char c) = routeChar c.
Proof. destruct c as [[] [] [] [] [] [] [] []]; reflexivity. Qed.

Lemma slash_lower_char c : Ascii.eqb (Js.lower_char c) "/" = Ascii.eqb c "/".
Proof. destruct c as [[] [] [] [] [] [] [] []]; reflexivity. Qed.

Lemma routeSegment_toLowerCase s : routeSegment (Js.toLowerCase s) <-> routeSegment s.
Proof.
  split; [|apply toLowerCase_routeSegment].
  intros [Hne Hall]. split; [now destruct s|].
  clear Hne. induction s as [|c s IH]; [reflexivity|]. simpl in *.
  rewrite routeChar_lower_char in Hall.
  apply andb_true_iff in Hall as [Hc Hs]. now rewrite Hc, IH.
Qed.

Lemma countSlashes_toLowerCase s : countSlashes (Js.toLowerCase s) = countSlashes s.
Proof.
  induction s as [|c s IH]; [reflexivity|]. simpl. now rewrite slash_lower_char, IH.
Qed.

(** The text after the last slash. *)
Lemma split_last_slash a : forall b x y,
  countSlashes x = 0 -> countSlashes y = 0 ->
  a +:+ String "/" x = b +:+ String "/" y -> a = b /\ x = y.
Proof.
  induction a as [|c a IH]; intros [|d b] x y Hx Hy H; simpl in H.
  - injection H as ->. auto.
  - injection H as _ ->. rewrite countSlashes_app in Hx. simpl in Hx. lia.
  - injection H as _ <-. rewrite countSlashes_app in Hy. simpl in Hy. lia.
  - injection H as -> H. destruct (IH b x y Hx Hy H) as [-> ->]. auto.
Qed.

(** In a path that ends with [/version/typeName.json], segments without
    a slash, the route matches that ending only. *)
Lemma metadataRoutePattern_ending prefix version typeName v n :
  countSlashes version = 0 -> countSlashes typeName = 0 ->
  metadataRoutePattern (prefix +:+ "/" +:+ version +:+ "/" +:+ typeName +:+ ".json")
  = Some (v, n) ->
  v = version /\ n = typeName /\ routeSegment version /\ routeSegment typeName.
Proof.
  intros Hversion HtypeName H.
  apply metadataRoutePattern_Some in H as (prefix0 & rest0 & Hpath & Hat).
  apply metadataRouteAt_Some in Hat as (Hv & Hn & c & _ & ->).
  assert (Hl : prefix +:+ "/" +:+ version +:+ "/" +:+ typeName +:+ ".json"
               = ((prefix +:+ String "/" version) +:+ String "/" typeName)
                   +:+ String "." "json")
    by (rewrite !string_app_assoc; reflexivity).
  assert (Hr : prefix0 +:+ "/" +:+ v +:+ "/" +:+ n +:+ String c "json"
               = ((prefix0 +:+ String "/" v) +:+ String "/" n) +:+ String c "json")
    by (rewrite !string_app_assoc; reflexivity).
  rewrite Hl, Hr in Hpath.
  apply string_app_inv_tail in Hpath as [Hpath _]; [|reflexivity].
  destruct Hv as [Hv0 Hv], Hn as [Hn0 Hn].
  apply split_last_slash in Hpath as [Hpath <-];
    [|exact HtypeName | now apply countSlashes_routeChars].
  apply split_last_slash in Hpath as [_ <-];
    [|exact Hversion | now apply countSlashes_routeChars].
  repeat split; assumption.
Qed.

(** X2. Take a type stored under a version. When the version and the
    name of the type are non-empty strings of word characters and dots,
    a request that accepts JSON for [/version/] followed by the file name
    [generated] gives the type (its lower-cased name and [.json]), after
    any prefix, is answered with the metadata of a stored type of that
    version with the same lower-cased name, and with the metadata of that
    very type when the lower-cased names of the version are pairwise
    distinct. When one of the two is not such a string, as the version
    [8.0.0-beta] or a name with a hyphen, and neither has a slash, the
    request is handed on: the file is not served. *)
Theorem devServerMiddleware_serves_generated (store : Store) (prefix version name : string)
    (typesMetadata : list (string * TypeMetadata.t)) (metadata : TypeMetadata.t) :
  store !! version = Some typesMetadata ->
  (name, metadata) ∈ typesMetadata ->
  let req := {| accepts_json := true;
                request_path := prefix +:+ "/" +:+ version +:+ "/" +:+ metadataFileName name |} in
  (routeSegment version -> routeSegment name ->
   (exists name' metadata',
       (name', metadata') ∈ typesMetadata
       /\ Js.toLowerCase name' = Js.toLowerCase name
       /\ devServerMiddleware store req = Json metadata')
   /\ (NoDup ((fun entry => Js.toLowerCase (fst entry)) <$> typesMetadata) ->
       devServerMiddleware store req = Json metadata))
  /\ (countSlashes version = 0 -> countSlashes name = 0 ->
      ~ (routeSegment version /\ routeSegment name) ->
      devServerMiddleware store req = Next).
Proof.
  intros Hstore Hin req. split.
  - intros Hv Hn.
    assert (Hroute : metadataRoutePattern (request_path req)
                     = Some (version, Js.toLowerCase name)).
    { unfold req, metadataFileName. cbn [request_path].
      apply metadataRoutePattern_suffix; [exact Hv | now apply toLowerCase_routeSegment]. }
    unfold devServerMiddleware. cbn [accepts_json req negb]. rewrite Hroute.
    unfold findMetadataWithLowerCasedKey. rewrite Hstore. split.
    + destruct (findLowerCased (Js.toLowerCase name) typesMetadata) as [md'|] eqn:Hfind.
      * apply findLowerCased_Some in Hfind as (name' & Hin' & Hname').
        now exists name', md'.
      * exfalso. rewrite findLowerCased_None in Hfind. now apply (Hfind name metadata).
    + intros Hnd. now rewrite (findLowerCased_stored typesMetadata name metadata Hnd Hin).
  - intros Hv Hn Hnot. unfold devServerMiddleware. cbn [accepts_json req negb].
    destruct (metadataRoutePattern (request_path req)) as [[v n]|] eqn:Hroute;
      [exfalso | reflexivity].
    unfold req, metadataFileName in Hroute. cbn [request_path] in Hroute.
    apply metadataRoutePattern_ending in Hroute as (_ & _ & Hv' & Hn');
      [|exact Hv | now rewrite countSlashes_toLowerCase].
    apply Hnot. split; [exact Hv' | now apply routeSegment_toLowerCase].
Qed.

Lemma devServerMiddleware_serves_generated_witness :
  devServerMiddleware storeWithFoo
    {| accepts_json := true;
       request_path := "/metadata" +:+ "/" +:+ "next" +:+ "/" +:+ metadataFileName "Foo" |}
  = Json (emptyMetadata "Foo")
  /\ devServerMiddleware storeWithBeta
       {| accepts_json := true;
          request_path :=
            "/metadata" +:+ "/" +:+ "8.0.0-beta" +:+ "/" +:+ metadataFileName "Foo" |}
     = Next.
Proof.
  assert (Hv : routeSegment "next") by (split; [discriminate | reflexivity]).
  assert (Hn : routeSegment "Foo") by (split; [discriminate | reflexivity]).
  assert (Hstore : storeWithFoo !! "next" = Some [("Foo", emptyMetadata "Foo")])
    by (vm_compute; reflexivity).
  assert (Hbeta : storeWithBeta !! "8.0.0-beta" = Some [("Foo", emptyMetadata "Foo")])
    by (vm_compute; reflexivity).
  assert (Hin : ("Foo", emptyMetadata "Foo") ∈ [("Foo", emptyMetadata "Foo")]) by left.
  assert (Hnot : ~ (routeSegment "8.0.0-beta" /\ routeSegment "Foo")).
  { intros [[_ H] _]. vm_compute in H. discriminate H. }
  split.
  - destruct (devServerMiddleware_serves_generated storeWithFoo "/metadata" "next" "Foo"
                [("Foo", emptyMetadata "Foo")] (emptyMetadata "Foo") Hstore Hin)
      as [Hserved _].
    destruct (Hserved Hv Hn) as [_ H].
    apply H. repeat constructor. intros Hx. inversion Hx.
  - destruct (devServerMiddleware_serves_generated storeWithBeta "/metadata" "8.0.0-beta"
                "Foo" [("Foo", emptyMetadata "Foo")] (emptyMetadata "Foo") Hbeta Hin)
      as [_ Hnext].
    exact (Hnext eq_refl eq_refl Hnot).
Defined.

(** ** The table of type links *)

Lemma lookupLink_is_Some name typeLinks :
  is_Some (lookupLink name typeLinks) <-> name ∈ (fst <$> typeLinks).
Proof.
  induction typeLinks as [|[k p] rest IH]; simpl.
  - split; [intros [x H]; discriminate | intros H; inversion H].
  - rewrite elem_of_cons. simpl. destruct (String.eqb_spec k name) as [->|Hne].
    + split; [now left | eauto].
    + rewrite IH. split; [now right | intros [H|H]; [congruence | exact H]].
Qed.

Lemma lookupLink_assignLink name path typeLinks :
  lookupLink name (assignLink name path typeLinks) = Some path.
Proof.
  induction typeLinks as [|[k p] rest IH]; simpl.
  - now rewrite String.eqb_refl.
  - destruct (String.eqb_spec k name) as [->|Hne]; simpl.
    + now rewrite String.eqb_refl.
    + apply String.eqb_neq in Hne. now rewrite Hne.
Qed.

Lemma lookupLink_assignLink_ne name path typeLinks name' :
  name' <> name ->
  lookupLink name' (assignLink name path typeLinks) = lookupLink name' typeLinks.
Proof.
  intros Hne. induction typeLinks as [|[k p] rest IH]; simpl.
  - destruct (String.eqb_spec name name'); [congruence | reflexivity].
  - destruct (String.eqb_spec k name) as [->|Hk]; simpl.
    + destruct (String.eqb_spec name name'); [congruence | reflexivity].
    + now rewrite IH.
Qed.

Lemma assignLink_keys name path typeLinks :
  fst <$> assignLink name path typeLinks
  = if decide (name ∈ (fst <$> typeLinks)) then fst <$> typeLinks
    else (fst <$> typeLinks) ++ [name].
Proof.
  induction typeLinks as [|[k p] rest IH].
  - cbn [assignLink]. rewrite decide_False; [reflexivity | intros H; inversion H].
  - cbn [assignLink]. destruct (String.eqb_spec k name) as [->|Hk].
    + rewrite !fmap_cons. cbn [fst]. rewrite decide_True by left. reflexivity.
    + rewrite !fmap_cons, IH. cbn [fst].
      destruct (decide (name ∈ (fst <$> rest))) as [Hin|Hin].
      * rewrite decide_True by now right. reflexivity.
      * rewrite decide_False; [reflexivity|].
        intros H. apply elem_of_cons in H as [H|H]; congruence.
Qed.

Section TypeLinksFacts.

Variable getLinkForKeyPath : string -> string -> option string -> option LinkTarget.

#[local] Abbreviation typeLinkStep' := (typeLinkStep getLinkForKeyPath).
#[local] Abbreviation typeLinksOfNames' := (typeLinksOfNames getLinkForKeyPath).
#[local] Abbreviation typeLinksOfVersions' := (typeLinksOfVersions getLinkForKeyPath).
#[local] Abbreviation resolvedTable' := (resolvedTable getLinkForKeyPath).

Lemma typeLinkStep_Return typeLinks name typeLinks' :
  resolvedTable' typeLinks ->
  typeLinkStep' typeLinks name = Return typeLinks' ->
  resolvedTable' typeLinks'
  /\ (inheritedKey name = false -> is_Some (getLinkForKeyPath name "/" None))
  /\ forall n, n ∈ (fst <$> typeLinks')
               <-> (n = name /\ inheritedKey name = false) \/ n ∈ (fst <$> typeLinks).
Proof.
  intros [Hnd Hres] Hstep. unfold typeLinkStep, hasLink in Hstep.
  destruct (lookupLink name typeLinks) as [p|] eqn:Hp.
  - assert (Hin : name ∈ (fst <$> typeLinks)) by (apply lookupLink_is_Some; eauto).
    destruct (Hres name p Hp) as (link & Hlink & _). rewrite Hlink in Hstep.
    assert (Hkeys : fst <$> typeLinks' = fst <$> typeLinks).
    { destruct (Js.truthy (Some p)); injection Hstep as <-; [reflexivity|].
      rewrite assignLink_keys. now rewrite decide_True. }
    split; [split|split; [eauto|]].
    + now rewrite Hkeys.
    + destruct (Js.truthy (Some p)); injection Hstep as <-; [exact Hres|].
      intros n q Hn. destruct (decide (n = name)) as [->|Hne].
      * rewrite lookupLink_assignLink in Hn. injection Hn as <-. eauto.
      * rewrite lookupLink_assignLink_ne in Hn by exact Hne. now apply Hres.
    + intros n. rewrite Hkeys. split; [now right|]. intros [[-> _]|H]; assumption.
  - destruct (inheritedKey name) eqn:Hproto.
    + injection Hstep as <-. split; [now split|]. split; [discriminate|].
      intros n. split; [now right|]. intros [[_ H]|H]; [discriminate H | exact H].
    + assert (Hnin : name ∉ (fst <$> typeLinks)).
      { intros Hin. apply lookupLink_is_Some in Hin as [x Hx]. congruence. }
      destruct (getLinkForKeyPath name "/" None) as [link|] eqn:Hlink; [|discriminate].
      injection Hstep as <-. split; [split|split; [eauto|]].
      * rewrite assignLink_keys, decide_False by exact Hnin.
        apply NoDup_app. split; [exact Hnd|]. split; [|apply NoDup_singleton].
        intros x Hx Hx'. apply list_elem_of_singleton in Hx'. congruence.
      * intros n q Hn. destruct (decide (n = name)) as [->|Hne].
        -- rewrite lookupLink_assignLink in Hn. injection Hn as <-. eauto.
        -- rewrite lookupLink_assignLink_ne in Hn by exact Hne. now apply Hres.
      * intros n. rewrite assignLink_keys, decide_False by exact Hnin.
        rewrite elem_of_app, list_elem_of_singleton. tauto.
Qed.

Lemma typeLinkStep_Throw typeLinks name e :
  resolvedTable' typeLinks ->
  typeLinkStep' typeLinks name = Throw e ->
  e = TypeError /\ inheritedKey name = false /\ getLinkForKeyPath name "/" None = None.
Proof.
  intros [_ Hres] Hstep. unfold typeLinkStep, hasLink in Hstep.
  destruct (lookupLink name typeLinks) as [p|] eqn:Hp.
  - destruct (Hres name p Hp) as (link & Hlink & _). rewrite Hlink in Hstep.
    destruct (Js.truthy (Some p)); discriminate Hstep.
  - destruct (inheritedKey name); [discriminate|].
    destruct (getLinkForKeyPath name "/" None); [discriminate|].
    injection Hstep as <-. auto.
Qed.

Lemma typeLinksOfNames_spec names : forall typeLinks,
  resolvedTable' typeLinks ->
  match typeLinksOfNames' names typeLinks with
  | Return typeLinks' =>
      resolvedTable' typeLinks'
      /\ (forall n, n ∈ names -> inheritedKey n = false ->
                    is_Some (getLinkForKeyPath n "/" None))
      /\ forall n, n ∈ (fst <$> typeLinks')
                   <-> (n ∈ names /\ inheritedKey n = false) \/ n ∈ (fst <$> typeLinks)
  | Throw e =>
      e = TypeError
      /\ exists n, n ∈ names /\ inheritedKey n = false
                   /\ getLinkForKeyPath n "/" None = None
  end.
Proof.
  induction names as [|name names IH]; intros typeLinks Hres; simpl.
  - split; [exact Hres|]. split; [intros n H; inversion H|].
    intros n. split; [now right|]. intros [[H _]|H]; [inversion H | exact H].
  - destruct (typeLinkStep' typeLinks name) as [typeLinks1|e] eqn:Hstep.
    + destruct (typeLinkStep_Return _ _ _ Hres Hstep) as (Hres1 & Hname & Hkeys1).
      specialize (IH typeLinks1 Hres1).
      destruct (typeLinksOfNames' names typeLinks1) as [typeLinks'|e].
      * destruct IH as (Hres' & Hall & Hkeys). split; [exact Hres'|]. split.
        -- intros n Hn. apply elem_of_cons in Hn as [->|Hn]; auto.
        -- intros n. rewrite Hkeys, Hkeys1, elem_of_cons. split.
           ++ intros [[H1 H2]|[[-> H]|H]];
                [left; split; [now right | exact H2] | left; split; [now left | exact H]
                | now right].
           ++ intros [[[->|H1] H2]|H];
                [right; left; auto | left; auto | right; right; exact H].
      * destruct IH as (-> & n & Hn & Hproto & Hnone). split; [reflexivity|].
        exists n. split; [now right | auto].
    + destruct (typeLinkStep_Throw _ _ _ Hres Hstep) as (-> & Hproto & Hnone).
      split; [reflexivity|]. exists name. split; [left | auto].
Qed.

Lemma typeLinksOfVersions_spec store versions : forall typeLinks,
  resolvedTable' typeLinks ->
  match typeLinksOfVersions' store versions typeLinks with
  | Return typeLinks' =>
      resolvedTable' typeLinks'
      /\ (forall version, version ∈ versions -> is_Some (store !! version))
      /\ (forall n, listedType store versions n -> is_Some (getLinkForKeyPath n "/" None))
      /\ forall n, n ∈ (fst <$> typeLinks')
                   <-> listedType store versions n \/ n ∈ (fst <$> typeLinks)
  | Throw e =>
      e = TypeError
      /\ ((exists version, version ∈ versions /\ store !! version = None)
          \/ exists n, listedType store versions n /\ getLinkForKeyPath n "/" None = None)
  end.
Proof.
  induction versions as [|version versions IH]; intros typeLinks Hres; simpl.
  - split; [exact Hres|]. split; [intros v H; inversion H|].
    split; [intros n (_ & v & t & H & _); inversion H|].
    intros n. split; [now right|].
    intros [(_ & v & t & H & _)|H]; [inversion H | exact H].
  - destruct (store !! version) as [types|] eqn:Hstore.
    2:{ split; [reflexivity|]. left. exists version. split; [left | exact Hstore]. }
    pose proof (typeLinksOfNames_spec (fst <$> types) typeLinks Hres) as Hnames.
    destruct (typeLinksOfNames' (fst <$> types) typeLinks) as [typeLinks1|e].
    + destruct Hnames as (Hres1 & Hall1 & Hkeys1). specialize (IH typeLinks1 Hres1).
      assert (Hlisted : forall n, listedType store (version :: versions) n
                                  <-> (n ∈ (fst <$> types) /\ inheritedKey n = false)
                                      \/ listedType store versions n).
      { intros n. split.
        - intros (Hproto & v & t & Hv & Ht & Hn). apply elem_of_cons in Hv as [->|Hv].
          + left. split; [congruence | exact Hproto].
          + right. split; [exact Hproto | now exists v, t].
        - intros [[Hn Hproto]|(Hproto & v & t & Hv & Ht & Hn)]; (split; [exact Hproto|]).
          + exists version, types. split; [left | auto].
          + exists v, t. split; [now right | auto]. }
      destruct (typeLinksOfVersions' store versions typeLinks1) as [typeLinks'|e].
      * destruct IH as (Hres' & Hloaded & Hall & Hkeys). split; [exact Hres'|].
        split; [|split].
        -- intros v Hv. apply elem_of_cons in Hv as [->|Hv]; [eauto | auto].
        -- intros n Hn. apply Hlisted in Hn as [[Hn Hproto]|Hn]; auto.
        -- intros n. rewrite Hkeys, Hkeys1, Hlisted. tauto.
      * destruct IH as (-> & [(v & Hv & Hnone)|(n & Hn & Hnone)]); (split; [reflexivity|]).
        -- left. exists v. split; [now right | exact Hnone].
        -- right. exists n. split; [apply Hlisted; now right | exact Hnone].
    + destruct Hnames as (-> & n & Hn & Hproto & Hnone). split; [reflexivity|]. right.
      exists n. split; [|exact Hnone]. split; [exact Hproto|].
      exists version, types. split; [left | auto].
Qed.

(** ** X3: the table of type links *)

(** X3. When the table of type links is built, it has exactly one entry
    for each type name of the listed versions that is not the name of a
    property of [Object.prototype], and no other entry; the path of an
    entry is the path the resolver gives the name for the base path [/]
    and no version. *)
Theorem typeLinks_table (store : Store) (versions : list string)
    (table : list (string * string)) :
  typeLinks getLinkForKeyPath store versions = Return table ->
  NoDup (fst <$> table)
  /\ (forall name, name ∈ (fst <$> table) <-> listedType store versions name)
  /\ (forall name, listedType store versions name ->
        exists link, getLinkForKeyPath name "/" None = Some link
                     /\ lookupLink name table = Some (link_path link)).
Proof.
  intros Hrun. unfold typeLinks in Hrun.
  assert (Hempty : resolvedTable' []).
  { split; [constructor | intros n p H; discriminate H]. }
  pose proof (typeLinksOfVersions_spec store versions [] Hempty) as H.
  rewrite Hrun in H. destruct H as ([Hnd Hres] & _ & _ & Hkeys).
  split; [exact Hnd|]. split.
  - intros name. rewrite Hkeys. split; [intros [H|H]; [exact H | inversion H] | now left].
  - intros name Hname.
    assert (Hin : name ∈ (fst <$> table)) by (apply Hkeys; now left).
    apply lookupLink_is_Some in Hin as [path Hpath].
    destruct (Hres name path Hpath) as (link & Hlink & <-). now exists link.
Qed.

(** X4. The table of type links is built exactly when every listed
    version is loaded and every type name of the listed versions that is
    not the name of a property of [Object.prototype] resolves; otherwise
    the construction throws a [TypeError]. *)
Theorem typeLinks_returns_iff (store : Store) (versions : list string) :
  ((exists table, typeLinks getLinkForKeyPath store versions = Return table)
   <-> (forall version, version ∈ versions -> is_Some (store !! version))
       /\ (forall name, listedType store versions name ->
                        is_Some (getLinkForKeyPath name "/" None)))
  /\ (forall e, typeLinks getLinkForKeyPath store versions = Throw e -> e = TypeError).
Proof.
  assert (Hempty : resolvedTable' []).
  { split; [constructor | intros n p H; discriminate H]. }
  pose proof (typeLinksOfVersions_spec store versions [] Hempty) as H.
  unfold typeLinks.
  destruct (typeLinksOfVersions' store versions []) as [table|e].
  - destruct H as (_ & Hloaded & Hall & _). split; [|discriminate].
    split; [auto | eauto].
  - destruct H as (-> & Hwhy). split; [|now intros e [= <-]].
    split; [intros [t Ht]; discriminate Ht|]. intros [Hloaded Hall]. exfalso.
    destruct Hwhy as [(v & Hv & Hnone)|(n & Hn & Hnone)].
    + destruct (Hloaded v Hv) as [x Hx]. congruence.
    + destruct (Hall n Hn) as [x Hx]. congruence.
Qed.

End TypeLinksFacts.

Lemma typeLinks_table_witness :
  NoDup (fst <$> [("Foo", "Foo")])
  /\ lookupLink "Foo" [("Foo", "Foo")] = Some "Foo".
Proof.
  assert (Hrun : typeLinks resolveShowingVersion storeWithFoo ["next"]
                 = Return [("Foo", "Foo")]) by (vm_compute; reflexivity).
  destruct (typeLinks_table resolveShowingVersion storeWithFoo ["next"] [("Foo", "Foo")] Hrun)
    as (Hnd & _ & _).
  split; [exact Hnd | reflexivity].
Defined.

Example typeLinks_examples :
  typeLinks resolveFooBar storeWithFoo ["next"] = Throw TypeError
  /\ typeLinks resolveShowingVersion storeWithFoo ["next"; "8.0.0"] = Throw TypeError
  /\ typeLinks resolveShowingVersion storeWithFoo ["next"; "next"] = Return [("Foo", "Foo")]
  /\ typeLinks resolveShowingVersion storeWithConstructor ["next"] = Return [("Foo", "Foo")].
Proof. vm_compute. repeat split; reflexivity. Qed.

(** ** X5: the [metadata] command *)

Lemma push_flags_fold (rest : list string) : forall acc,
  fold_left (fun acc cur => acc ++ ["-a"; cur]) rest acc
  = acc ++ flat_map (fun cur => ["-a"; cur]) rest.
Proof.
  induction rest as [|p rest IH]; intros acc; simpl.
  - now rewrite app_nil_r.
  - rewrite IH, <- app_assoc. reflexivity.
Qed.

(** X5. Without an input path the action of the [metadata] command fails
    before it logs or runs anything. Otherwise it runs one command, made of
    [node], the script, [-f json-raw], the first input path, then every
    other input path in order, each behind its own [-a], then [-o] and the
    output directory (the resolved [-o] option if given and not empty, else
    [api] under the source directory), the words joined by single spaces;
    it logs the success line exactly when that command succeeds and else
    logs the failure and passes the error on. *)
Theorem metadataAction_spec (path_resolve : list string -> string)
    (docgenMainScript sourceDir : string) (execAsync : string -> option string)
    (inputPaths : list string) (option_o : option string) :
  let run := metadataAction path_resolve docgenMainScript sourceDir execAsync
               inputPaths option_o in
  (inputPaths = [] -> run = ([], CliMissingPaths))
  /\ forall first rest,
       inputPaths = first :: rest ->
       let outputPath :=
         match option_o with
         | Some (String c o) => path_resolve [String c o]
         | _ => path_resolve [sourceDir; "api"]
         end in
       let command :=
         String.concat " "
           (["node"; docgenMainScript; "-f"; "json-raw"; first]
              ++ flat_map (fun cur => ["-a"; cur]) rest ++ ["-o"; outputPath]) in
       length (commandWords docgenMainScript first rest outputPath) = 2 * length rest + 7
       /\ (execAsync command = None ->
           run = ([LogWait "Generating API metadata...";
                   LogSuccess ("Done! Metadata generated to " +:+ outputPath)], CliDone))
       /\ (forall e, execAsync command = Some e ->
             run = ([LogWait "Generating API metadata...";
                     LogError "Failed to generate API metadata."], CliExecFailed e)).
Proof.
  intros run. split; [intros ->; reflexivity|].
  intros first rest -> outputPath command.
  assert (Hout : (if Js.truthy option_o then path_resolve [Js.template option_o]
                  else path_resolve [sourceDir; "api"]) = outputPath)
    by (unfold outputPath; now destruct option_o as [[|c o]|]).
  assert (Hwords : commandWords docgenMainScript first rest outputPath
                   = ["node"; docgenMainScript; "-f"; "json-raw"; first]
                       ++ flat_map (fun cur => ["-a"; cur]) rest ++ ["-o"; outputPath])
    by (unfold commandWords; now rewrite push_flags_fold).
  split.
  - rewrite Hwords. rewrite !length_app. simpl.
    assert (Hlen : length (flat_map (fun cur => ["-a"; cur]) rest) = 2 * length rest).
    { clear. induction rest as [|p rest IH]; simpl; [reflexivity | rewrite IH; lia]. }
    rewrite Hlen. lia.
  - unfold run, metadataAction. rewrite Hout, Hwords. fold command.
    split; [now intros -> | now intros e ->].
Qed.

Example metadataAction_example :
  metadataAction (String.concat "/") "docgen.js" "/docs" (fun _ => None)
    ["apidoc"; "modules/a"; "modules/b"] None
  = ([LogWait "Generating API metadata...";
      LogSuccess "Done! Metadata generated to /docs/api"], CliDone)
  /\ String.concat " " (commandWords "docgen.js" "apidoc" ["modules/a"; "modules/b"] "/docs/api")
     = "node docgen.js -f json-raw apidoc -a modules/a -a modules/b -o /docs/api".
Proof. split; reflexivity. Qed.

(** ** Stages that can be repeated and stages that cannot *)

Lemma List_filter_idempotent {A} (f : A -> bool) (l : list A) :
  List.filter f (List.filter f l) = List.filter f l.
Proof.
  induction l as [|x l IH]; [reflexivity|]. simpl.
  destruct (f x) eqn:Hx; simpl; now rewrite ?Hx, IH.
Qed.

(** X6. Filtering the inherited members a second time changes nothing,
    and so does sorting a sorted list again when the comparison of names is
    that of a total preorder. *)
Theorem filter_and_sort_idempotent (localeCompare : string -> string -> Z)
    (metadata : TypeMetadata.t) (l : list Member.t) :
  filterInheritedMembers (filterInheritedMembers metadata) = filterInheritedMembers metadata
  /\ (consistentComparator localeCompare ->
      sortByName localeCompare (sortByName localeCompare l) = sortByName localeCompare l).
Proof.
  split.
  - destruct metadata as [n s d e ps ms es cs].
    unfold filterInheritedMembers, filterInherited, TypeMetadata.set_events,
      TypeMetadata.set_methods, TypeMetadata.set_properties. simpl.
    now rewrite !List_filter_idempotent.
  - intros Hc. apply sortByName_sorted_id. now apply sortByName_sorted.
Qed.

(** X7. Sorting by name never loses, adds or duplicates a member,
    whatever the comparison function returns: the result is a permutation
    of the input. *)
Theorem sortByName_rearranges (localeCompare : string -> string -> Z) (l : list Member.t) :
  sortByName localeCompare l ≡ₚ l
  /\ length (sortByName localeCompare l) = length l
  /\ forall m, m ∈ sortByName localeCompare l <-> m ∈ l.
Proof.
  pose proof (sortByName_Permutation localeCompare l) as Hperm.
  split; [exact Hperm|]. split; [now apply Permutation_length|].
  intros m. now rewrite Hperm.
Qed.

(** X8. When the comparison of names is that of a total preorder, the
    result of [sortByName] is the one list in the order of the names
    that keeps the members the comparison ranks with a name in the order
    they had: the sort is stable, and these two facts determine its
    result. *)
Theorem sortByName_determined (localeCompare : string -> string -> Z)
    (l l' : list Member.t) :
  consistentComparator localeCompare ->
  l' = sortByName localeCompare l
  <-> StronglySorted (nameLe localeCompare) l'
      /\ forall n, filter (rankedWith localeCompare n) l'
                   = filter (rankedWith localeCompare n) l.
Proof.
  intros Hc. split.
  - intros ->. split; [now apply sortByName_sorted|].
    intros n. now apply sortByName_stable_rank.
  - intros [Hsorted Hrank]. now apply sortByName_unique.
Qed.

Lemma filter_complement_nil {A} (P : A -> Prop) `{!forall x, Decision (P x)} (l : list A) :
  filter P (filter (fun x => ~ P x) l) = [].
Proof.
  induction l as [|x l IH]; [reflexivity|]. rewrite filter_cons.
  destruct (decide (~ P x)) as [Hx|Hx]; [|exact IH].
  now rewrite filter_cons, decide_False, IH.
Qed.

Lemma filter_partition_length {A} (P : A -> Prop) `{!forall x, Decision (P x)} (l : list A) :
  length (filter (fun x => ~ P x) l) + length (filter P l) = length l.
Proof.
  induction l as [|x l IH]; [reflexivity|]. rewrite !filter_cons.
  destruct (decide (P x)) as [Hx|Hx].
  - rewrite decide_False by tauto. simpl. lia.
  - rewrite decide_True by exact Hx. simpl. lia.
Qed.

(** X9. Splitting twice is not splitting once: the second split finds no
    constant among the properties left by the first, keeps those
    properties and replaces the constants by the empty list. One split
    keeps the number of members: the properties and constants it leaves
    are as many as the properties it was given. *)
Theorem splitPropertiesAndConstants_again (metadata : TypeMetadata.t) :
  let once := splitPropertiesAndConstants metadata in
  let twice := splitPropertiesAndConstants once in
  TypeMetadata.properties twice = TypeMetadata.properties once
  /\ TypeMetadata.constants twice = Some []
  /\ exists constants,
       TypeMetadata.constants once = Some constants
       /\ length (TypeMetadata.properties once) + length constants
          = length (TypeMetadata.properties metadata).
Proof.
  intros once twice.
  destruct (splitPropertiesAndConstants_lists metadata) as (Hp & Hc & _).
  destruct (splitPropertiesAndConstants_lists once) as (Hp2 & Hc2 & _).
  fold once in Hp, Hc. fold twice in Hp2, Hc2.
  split; [|split].
  - rewrite Hp2, Hp, list_filter_filter. apply list_filter_iff. tauto.
  - rewrite Hc2, Hp. f_equal. apply filter_complement_nil.
  - exists (filter isConstant (TypeMetadata.properties metadata)).
    split; [exact Hc|]. rewrite Hp. apply filter_partition_length.
Qed.

(** ** X10: the headers of a page *)

(** X10. [appendAdditionalHeaders] puts after the headers the page has
    (none if it has no list yet) the accumulated headers of the processor,
    followed by the [Constants] header if the flag is set, and touches
    nothing else of the page; it is not idempotent: a second call appends
    the same headers once more. *)
Theorem appendAdditionalHeaders_twice (self : MetadataProcessor.t) (page : Page) :
  let own :=
    MetadataProcessor.additionalHeaders self
      ++ (if MetadataProcessor.hasConstants self then [constantsHeader] else []) in
  let before := match page_headers page with Some h => h | None => [] end in
  let once := appendAdditionalHeaders self page in
  page_headers once = Some (before ++ own)
  /\ page_headers (appendAdditionalHeaders self once) = Some (before ++ own ++ own)
  /\ regularPath once = regularPath page /\ path once = path page
  /\ page_title once = page_title page /\ page_version once = page_version page
  /\ frontmatter once = frontmatter page /\ metadataKey once = metadataKey page.
Proof.
  intros own before once. unfold once, own, before, appendAdditionalHeaders.
  cbn [set_page_headers page_headers regularPath path page_title page_version
       frontmatter metadataKey].
  destruct (MetadataProcessor.hasConstants self);
    rewrite ?app_nil_r, <- ?app_assoc; repeat split; reflexivity.
Qed.

(** ** X11, X12: the text fields of a member *)

Section MemberFields.

Variable render : option string -> outcome string.

Lemma renderField_Return get set m m' :
  renderField render get set m = (m', Return tt) ->
  if Js.truthy (get m) then exists html, render (get m) = Return html /\ m' = set html m
  else m' = m.
Proof.
  unfold renderField, bind, lift, modify, ret.
  destruct (Js.truthy (get m)); [|now intros [= <-]].
  destruct (render (get m)) as [html|e]; [|discriminate].
  intros [= <-]. now exists html.
Qed.

Lemma renderField_field get set m m' :
  (forall v x, get (set v x) = Some v) ->
  renderField render get set m = (m', Return tt) ->
  renderedField render (get m) (get m').
Proof.
  intros Hgs H. apply renderField_Return in H. unfold renderedField.
  destruct (Js.truthy (get m)); [|now subst].
  destruct H as (html & Hr & ->). exists html. now rewrite Hgs.
Qed.

Lemma renderField_kept {A} (f : Member.t -> A) get set m m' o :
  (forall v x, f (set v x) = f x) ->
  renderField render get set m = (m', o) -> f m' = f m.
Proof.
  intros Hf H. pose proof (renderField_keeps f render get set m Hf) as K.
  now rewrite H in K.
Qed.

Lemma renderExamples_kept {A} (f : Member.t -> A) m m' o :
  (forall v x, f (Member.set_examples v x) = f x) ->
  renderExamples render m = (m', o) -> f m' = f m.
Proof.
  intros Hf H. pose proof (renderExamples_keeps f render m Hf) as K.
  now rewrite H in K.
Qed.

Ltac kept_by f H :=
  first [ refine (renderField_kept f _ _ _ _ _ _ H)
        | refine (renderExamples_kept f _ _ _ _ H) ];
  intros; reflexivity.

(** X11. When the rendering of the fields of a member returns, each of
    [summary], [description], [deprecated.notes] and [returns.summary] that
    was set and not empty holds the rendering of its former text, and
    each that was missing or empty is as it was, with the [deprecated] and
    [returns] objects around it; the name and the [inherits] field are as
    they were. *)
Theorem transformMemberFields_fields (m m' : Member.t) :
  transformMemberFields render m = (m', Return tt) ->
  Member.name m' = Member.name m
  /\ Member.inherits m' = Member.inherits m
  /\ renderedField render (Member.summary m) (Member.summary m')
  /\ renderedField render (Member.description m) (Member.description m')
  /\ renderedField render (deprecated_notes m) (deprecated_notes m')
  /\ renderedField render (returns_summary_of m) (returns_summary_of m')
  /\ (Js.truthy (deprecated_notes m) = false -> Member.deprecated m' = Member.deprecated m)
  /\ (Js.truthy (returns_summary_of m) = false -> Member.returns m' = Member.returns m).
Proof.
  intros Hrun.
  pose proof (transformMemberFields_keeps Member.name render m
                (fun _ _ => eq_refl) (fun _ _ => eq_refl) (fun _ _ => eq_refl)
                (fun _ _ => eq_refl) (fun _ _ => eq_refl)) as Hname.
  pose proof (transformMemberFields_keeps Member.inherits render m
                (fun _ _ => eq_refl) (fun _ _ => eq_refl) (fun _ _ => eq_refl)
                (fun _ _ => eq_refl) (fun _ _ => eq_refl)) as Hinh.
  rewrite Hrun in Hname, Hinh. cbn [fst] in Hname, Hinh.
  split; [exact Hname|]. split; [exact Hinh|].
  unfold transformMemberFields, bind in Hrun.
  destruct (renderField render Member.summary _ m) as [m1 [[]|e]] eqn:H1; [|discriminate].
  destruct (renderField render Member.description _ m1) as [m2 [[]|e]] eqn:H2;
    [|discriminate].
  destruct (renderExamples render m2) as [m3 [[]|e]] eqn:H3; [|discriminate].
  destruct (renderField render deprecated_notes _ m3) as [m4 [[]|e]] eqn:H4; [|discriminate].
  rename Hrun into H5.
  (* each field is written by one step and kept by the others *)
  assert (S : Member.summary m' = Member.summary m1).
  { transitivity (Member.summary m4); [kept_by Member.summary H5|].
    transitivity (Member.summary m3); [kept_by Member.summary H4|].
    transitivity (Member.summary m2);
      [kept_by Member.summary H3 | kept_by Member.summary H2]. }
  assert (D : Member.description m' = Member.description m2
              /\ Member.description m1 = Member.description m).
  { split; [|kept_by Member.description H1].
    transitivity (Member.description m4); [kept_by Member.description H5|].
    transitivity (Member.description m3);
      [kept_by Member.description H4 | kept_by Member.description H3]. }
  assert (P : Member.deprecated m' = Member.deprecated m4
              /\ Member.deprecated m3 = Member.deprecated m).
  { split; [kept_by Member.deprecated H5|].
    transitivity (Member.deprecated m2); [kept_by Member.deprecated H3|].
    transitivity (Member.deprecated m1);
      [kept_by Member.deprecated H2 | kept_by Member.deprecated H1]. }
  assert (R : Member.returns m4 = Member.returns m).
  { transitivity (Member.returns m3); [kept_by Member.returns H4|].
    transitivity (Member.returns m2); [kept_by Member.returns H3|].
    transitivity (Member.returns m1);
      [kept_by Member.returns H2 | kept_by Member.returns H1]. }
  destruct D as [D D1]. destruct P as [P P3].
  split; [rewrite S; refine (renderField_field _ _ _ _ _ H1); reflexivity|].
  split; [rewrite D, <- D1; refine (renderField_field _ _ _ _ _ H2); reflexivity|].
  assert (N3 : deprecated_notes m3 = deprecated_notes m)
    by (unfold deprecated_notes; now rewrite P3).
  assert (N' : deprecated_notes m' = deprecated_notes m4)
    by (unfold deprecated_notes; now rewrite P).
  assert (Q4 : returns_summary_of m4 = returns_summary_of m)
    by (unfold returns_summary_of; now rewrite R).
  split; [rewrite N', <- N3; refine (renderField_field _ _ _ _ _ H4); reflexivity|].
  split; [rewrite <- Q4; refine (renderField_field _ _ _ _ _ H5); reflexivity|].
  split.
  - intros Hf. rewrite P, <- P3. apply renderField_Return in H4.
    rewrite N3, Hf in H4. now subst.
  - intros Hf. rewrite <- R. apply renderField_Return in H5.
    rewrite Q4, Hf in H5. now subst.
Qed.

Lemma combinedExamplesMarkdown_fold (l : list Example) : forall acc,
  fold_left
    (fun acc example =>
       acc +:+ "##### " +:+ Js.template (example_description example) +:+ newline
           +:+ Js.template (example_code example)) l acc
  = acc +:+ String.concat ""
              ((fun example =>
                  "##### " +:+ Js.template (example_description example) +:+ newline
                    +:+ Js.template (example_code example)) <$> l).
Proof.
  induction l as [|e l IH]; intros acc.
  - simpl. now rewrite string_app_nil_r.
  - cbn [fold_left]. rewrite IH, fmap_cons. cbn [String.concat].
    destruct (_ <$> l) as [|x xs] eqn:Hl.
    + cbn [String.concat]. now rewrite !string_app_nil_r.
    + rewrite !string_app_assoc. reflexivity.
Qed.

(** X12. The examples of a member are collapsed into one text: the
    heading [#### Examples] and an empty line, then for each example, in
    the order of the list and with nothing between two examples, a line
    [##### ] with its description followed by its code. When the
    rendering of the fields returns, a non-empty list of examples has been
    replaced by the rendering of that one text, any other [examples] value
    is as it was, and the field is never a non-empty list. *)
Theorem examples_collapsed (m m' : Member.t) :
  transformMemberFields render m = (m', Return tt) ->
  (forall l,
      combinedExamplesMarkdown l
      = "#### Examples" +:+ newline +:+ newline
          +:+ String.concat ""
                ((fun example =>
                    "##### " +:+ Js.template (example_description example) +:+ newline
                      +:+ Js.template (example_code example)) <$> l))
  /\ match Member.examples m with
     | Some (ExamplesList (example :: examples)) =>
         exists html,
           render (Some (combinedExamplesMarkdown (example :: examples))) = Return html
           /\ Member.examples m' = Some (ExamplesHtml html)
     | other => Member.examples m' = other
     end
  /\ (forall example examples,
        Member.examples m' <> Some (ExamplesList (example :: examples))).
Proof.
  intros Hrun.
  split.
  { intros l. unfold combinedExamplesMarkdown. rewrite combinedExamplesMarkdown_fold.
    now rewrite !string_app_assoc. }
  unfold transformMemberFields, bind in Hrun.
  destruct (renderField render Member.summary _ m) as [m1 [[]|e]] eqn:H1; [|discriminate].
  destruct (renderField render Member.description _ m1) as [m2 [[]|e]] eqn:H2;
    [|discriminate].
  destruct (renderExamples render m2) as [m3 [[]|e]] eqn:H3; [|discriminate].
  destruct (renderField render deprecated_notes _ m3) as [m4 [[]|e]] eqn:H4; [|discriminate].
  rename Hrun into H5.
  assert (E2 : Member.examples m2 = Member.examples m).
  { transitivity (Member.examples m1);
      [kept_by Member.examples H2 | kept_by Member.examples H1]. }
  assert (E' : Member.examples m' = Member.examples m3).
  { transitivity (Member.examples m4);
      [kept_by Member.examples H5 | kept_by Member.examples H4]. }
  rewrite E'. clear H1 H2 H4 H5 E'.
  unfold renderExamples, bind, lift, modify, ret, throw in H3. rewrite E2 in H3.
  destruct (Member.examples m) as [[[|ex exs]|html]|] eqn:Hm.
  - injection H3 as <-. rewrite E2. split; [reflexivity | discriminate].
  - destruct (render _) as [html|e] eqn:Hr; [|discriminate].
    injection H3 as <-. cbn [Member.set_examples Member.examples].
    split; [now exists html | discriminate].
  - destruct (Js.is_empty html); [|discriminate].
    injection H3 as <-. rewrite E2. split; [reflexivity | discriminate].
  - injection H3 as <-. rewrite E2. split; [reflexivity | discriminate].
Qed.

End MemberFields.

Example combinedExamplesMarkdown_example :
  combinedExamplesMarkdown
    [ {| example_description := Some "A"; example_code := Some "x()" |};
      {| example_description := Some "B"; example_code := Some "y()" |} ]
  = "#### Examples" +:+ newline +:+ newline +:+ "##### A" +:+ newline +:+ "x()##### B"
      +:+ newline +:+ "y()".
Proof. reflexivity. Qed.

(** ** X13: when the pipeline returns *)

Lemma examplesNotRendered_dec m : {examplesNotRendered m} + {examplesRendered m}.
Proof.
  unfold examplesNotRendered, examplesRendered.
  destruct (Member.examples m) as [[l|html]|].
  - left. intros h H. discriminate H.
  - destruct html as [|c html].
    + left. now intros h [= <-].
    + right. exists (String c html). split; [reflexivity | discriminate].
  - left. intros h H. discriminate H.
Defined.

Lemma examplesRendered_not m : examplesRendered m -> ~ examplesNotRendered m.
Proof. intros (html & H & Hne) Hnot. apply Hne. now apply Hnot. Qed.

Section PipelineOutcome.

Variable getLinkForKeyPath : string -> string -> option string -> option LinkTarget.
Variable markdown_render : LinkOpenRule -> string -> option string.
Variable localeCompare : string -> string -> Z.
Variable versions : list string.

#[local] Abbreviation renderMarkdown' :=
  (renderMarkdown getLinkForKeyPath markdown_render versions).
#[local] Abbreviation memberCallback' :=
  (memberCallback getLinkForKeyPath markdown_render versions).
#[local] Abbreviation transformMembers' :=
  (transformMembersAndCollectHeaders getLinkForKeyPath markdown_render versions).
#[local] Abbreviation pipeline' :=
  (transoformMetadataAndCollectHeaders getLinkForKeyPath markdown_render localeCompare
     versions).

(** The renderer returns on every text. *)
Hypothesis render_total : forall rule text, is_Some (markdown_render rule text).

Lemma transformMemberFields_throws rule self m :
  examplesRendered m ->
  snd (transformMemberFields (renderMarkdown' rule self) m) = Throw TypeError.
Proof.
  intros (html & Hex & Hne). unfold transformMemberFields, bind.
  pose proof (renderField_returns getLinkForKeyPath markdown_render versions render_total rule self
                Member.summary Member.set_summary m) as R1.
  pose proof (renderField_keeps Member.examples (renderMarkdown' rule self)
                Member.summary Member.set_summary m (fun _ _ => eq_refl)) as K1.
  destruct (renderField _ Member.summary _ m) as [m1 o1]. simpl in R1, K1. subst o1.
  pose proof (renderField_returns getLinkForKeyPath markdown_render versions render_total rule self
                Member.description Member.set_description m1) as R2.
  pose proof (renderField_keeps Member.examples (renderMarkdown' rule self)
                Member.description Member.set_description m1 (fun _ _ => eq_refl)) as K2.
  destruct (renderField _ Member.description _ m1) as [m2 o2]. simpl in R2, K2. subst o2.
  unfold renderExamples, throw. rewrite K2, K1, Hex.
  destruct html; [now contradiction Hne | reflexivity].
Qed.

Lemma forEach_memberCallback_outcome memberType rule l : forall lp,
  (snd (forEach (memberCallback' memberType rule) l lp) = Return tt
   /\ Forall examplesNotRendered l)
  \/ (snd (forEach (memberCallback' memberType rule) l lp) = Throw TypeError
      /\ Exists examplesRendered l).
Proof.
  induction l as [|m l IH]; intros lp; [left; split; [reflexivity | constructor]|].
  destruct (examplesNotRendered_dec m) as [Hm|Hm].
  - cbn [forEach]. unfold memberCallback at 1 3.
    pose proof (transformMemberFields_returns getLinkForKeyPath markdown_render versions render_total rule (loop_this lp) m Hm)
      as R.
    destruct (transformMemberFields _ m) as [m' o]. simpl in R. subst o.
    destruct (_ && _).
    + destruct (IH {| loop_this := MetadataProcessor.set_hasConstants true (loop_this lp);
                      headers := headers lp |}) as [[Hr Hall]|[Hr Hex]];
        destruct (forEach _ l _) as [[lp' l'] o']; cbn [snd] in *;
        [left | right]; split; auto.
    + destruct (IH {| loop_this := loop_this lp;
                      headers := headers lp ++ [memberHeader m'] |}) as [[Hr Hall]|[Hr Hex]];
        destruct (forEach _ l _) as [[lp' l'] o']; cbn [snd] in *;
        [left | right]; split; auto.
  - right. split; [|now left]. cbn [forEach]. unfold memberCallback at 1.
    pose proof (transformMemberFields_throws rule (loop_this lp) m Hm) as R.
    destruct (transformMemberFields _ m) as [m' o]. simpl in R. now subst o.
Qed.

Lemma transformMembers_outcome k env :
  (snd (transformMembers' k env) = Return tt
   /\ Forall examplesNotRendered (members k (metadata env)))
  \/ (snd (transformMembers' k env) = Throw TypeError
      /\ Exists examplesRendered (members k (metadata env))).
Proof.
  unfold transformMembersAndCollectHeaders.
  destruct (members k (metadata env)) as [|m0 l0] eqn:Hmem;
    [left; split; [reflexivity | constructor]|].
  destruct (forEach_memberCallback_outcome k (link_open env) (m0 :: l0)
              {| loop_this := this env; headers := [] |}) as [[R H]|[R H]];
    destruct (forEach _ (m0 :: l0) _) as [[lp l'] o]; cbn [snd] in R; subst o.
  - left. split; [now destruct (headers lp) | exact H].
  - right. split; [reflexivity | exact H].
Qed.

Lemma Exists_not_Forall (l : list Member.t) :
  Exists examplesRendered l -> ~ Forall examplesNotRendered l.
Proof.
  intros Hex Hall. apply Exists_exists in Hex as (x & Hx & Hr).
  rewrite Forall_forall in Hall. exact (examplesRendered_not x Hr (Hall x Hx)).
Qed.

(** X13. With a renderer that returns on every text, the pipeline
    returns exactly when the type has a summary and none of its members,
    those inherited from another type apart, carries an [examples] field
    that is already a rendered, non-empty string; every exception it
    throws is a [TypeError]. *)
Theorem pipeline_returns_iff (env : Env) :
  (snd (pipeline' env) = Return tt
   <-> is_Some (TypeMetadata.summary (metadata env))
       /\ forall k m, m ∈ members k (metadata env) ->
                      ~ inheritedFromOther (metadata env) m -> examplesNotRendered m)
  /\ (forall e, snd (pipeline' env) = Throw e -> e = TypeError).
Proof.
  assert (Hkept : forall k,
            Forall examplesNotRendered (keptMembers localeCompare k (metadata env))
            <-> forall m, m ∈ members k (metadata env) ->
                          ~ inheritedFromOther (metadata env) m -> examplesNotRendered m).
  { intros k. rewrite keptMembers_Permutation, Forall_forall. split.
    - intros H m Hm Hown. apply H. now apply list_elem_of_filter.
    - intros H m Hm. apply list_elem_of_filter in Hm as [Hown Hm]. now apply H. }
  assert (Hcases :
    (snd (pipeline' env) = Return tt
     /\ is_Some (TypeMetadata.summary (metadata env))
     /\ forall k, Forall examplesNotRendered (keptMembers localeCompare k (metadata env)))
    \/ (snd (pipeline' env) = Throw TypeError
        /\ (TypeMetadata.summary (metadata env) = None
            \/ exists k, ~ Forall examplesNotRendered
                             (keptMembers localeCompare k (metadata env))))).
  { unfold transoformMetadataAndCollectHeaders, bind, modify, gets, lift.
    cbn [on_metadata set_link_open link_open this metadata].
    replace (TypeMetadata.summary _) with (TypeMetadata.summary (metadata env))
      by (unfold filterInheritedMembers; reflexivity).
    destruct (TypeMetadata.summary (metadata env)) as [text|] eqn:Hs.
    2:{ right. split; [reflexivity | now left]. }
    destruct (renderMarkdown_returns getLinkForKeyPath markdown_render versions render_total RenderTokenRule (this env) text)
      as [html ->].
    match goal with
    | |- context [transformMembers' Properties ?e] => set (env2 := e)
    end.
    assert (Hmem : forall k, members k (metadata env2)
                             = keptMembers localeCompare k (metadata env)).
    { intros k. unfold env2. cbn [on_metadata set_link_open link_open this metadata].
      rewrite members_set_summary. apply prepared_members. }
    clearbody env2.
    destruct (transformMembers_outcome Properties env2) as [[R3 A3]|[R3 A3]];
      destruct (transformMembers' Properties env2) as [env3 o3] eqn:H3;
      cbn [snd] in R3; subst o3; rewrite Hmem in A3.
    2:{ right. split; [reflexivity|]. right. exists Properties.
        now apply Exists_not_Forall. }
    apply transformMembers_spec in H3 as (_ & _ & _ & Hk3 & _).
    destruct (transformMembers_outcome Methods env3) as [[R4 A4]|[R4 A4]];
      destruct (transformMembers' Methods env3) as [env4 o4] eqn:H4;
      cbn [snd] in R4; subst o4; rewrite (Hk3 Methods), Hmem in A4 by discriminate.
    2:{ right. split; [reflexivity|]. right. exists Methods.
        now apply Exists_not_Forall. }
    apply transformMembers_spec in H4 as (_ & _ & _ & Hk4 & _).
    destruct (transformMembers_outcome Events env4) as [[R5 A5]|[R5 A5]];
      destruct (transformMembers' Events env4) as [env5 o5] eqn:H5;
      cbn [snd] in R5; subst o5;
      rewrite (Hk4 Events), (Hk3 Events), Hmem in A5 by discriminate.
    2:{ right. split; [reflexivity|]. right. exists Events.
        now apply Exists_not_Forall. }
    left. split; [reflexivity|]. split; [eauto|]. now intros []. }
  destruct Hcases as [(Hr & Hs & Hall)|(Hr & Hwhy)]; rewrite Hr.
  - split; [|discriminate]. split; [|reflexivity]. intros _. split; [exact Hs|].
    intros k. now apply Hkept.
  - split; [|now intros e [= <-]]. split; [discriminate|]. intros [Hs Hall]. exfalso.
    destruct Hwhy as [Hnone|(k & Hk)].
    + rewrite Hnone in Hs. now destruct Hs.
    + apply Hk, Hkept, Hall.
Qed.

End PipelineOutcome.

(** ** X14: what an exception leaves *)

Section PipelineThrow.

Variable getLinkForKeyPath : string -> string -> option string -> option LinkTarget.
Variable markdown_render : LinkOpenRule -> string -> option string.
Variable localeCompare : string -> string -> Z.
Variable versions : list string.

#[local] Abbreviation transformMembers' :=
  (transformMembersAndCollectHeaders getLinkForKeyPath markdown_render versions).
#[local] Abbreviation pipeline' :=
  (transoformMetadataAndCollectHeaders getLinkForKeyPath markdown_render localeCompare
     versions).

(** The loop over one kind leaves the fields of the type itself as they
    are, and adds no header when it throws. *)
Lemma transformMembers_frame k env env' o :
  transformMembers' k env = (env', o) ->
  TypeMetadata.name (metadata env') = TypeMetadata.name (metadata env)
  /\ TypeMetadata.summary (metadata env') = TypeMetadata.summary (metadata env)
  /\ TypeMetadata.description (metadata env') = TypeMetadata.description (metadata env)
  /\ TypeMetadata.examples (metadata env') = TypeMetadata.examples (metadata env)
  /\ (forall e, o = Throw e ->
        MetadataProcessor.additionalHeaders (this env')
        = MetadataProcessor.additionalHeaders (this env)).
Proof.
  unfold transformMembersAndCollectHeaders.
  destruct (members k (metadata env)) as [|m0 l0].
  { intros [= <- <-]. repeat split; auto. }
  destruct (forEach _ (m0 :: l0) _) as [[lp l'] o'] eqn:Hloop.
  destruct (forEach_memberCallback _ _ _ _ _ _ _ _ _ _ Hloop) as (_ & _ & Ha & _).
  cbn [loop_this] in Ha.
  destruct o' as [[]|e].
  - destruct (headers lp); intros [= <- <-]; cbn [metadata on_this];
      repeat split; try (now destruct k); try discriminate.
  - intros [= <- <-]. cbn [metadata this]. repeat split; try (now destruct k).
Qed.

Lemma transformMembers_names k env env' o :
  transformMembers' k env = (env', o) ->
  forall k', Member.name <$> members k' (metadata env')
             = Member.name <$> members k' (metadata env).
Proof.
  intros H k'. apply transformMembers_spec in H as (_ & _ & _ & Hk & _ & Hn & _).
  destruct (decide (k' = k)) as [->|Hne]; [exact Hn | now rewrite Hk].
Qed.

(** X14. When the pipeline throws, the type has kept its name, has lost
    its [description] and [examples], and has the [constants] it had
    before (the split has not taken place); the members of each kind are,
    by their names, those that were not filtered out, properties and
    methods sorted; and the processor has accumulated the headers of the
    kinds whose loop ran to its end and no header of the kind whose loop
    threw, not even for the members that loop had already rendered. *)
Theorem pipeline_after_throw (env env' : Env) (e : error) :
  pipeline' env = (env', Throw e) ->
  let kept k := keptMembers localeCompare k (metadata env) in
  let old := MetadataProcessor.additionalHeaders (this env) in
  let ofProperties := headerGroup Properties (filter (fun m => ~ isConstant m) (kept Properties)) in
  let ofMethods := headerGroup Methods (kept Methods) in
  TypeMetadata.name (metadata env') = TypeMetadata.name (metadata env)
  /\ TypeMetadata.description (metadata env') = None
  /\ TypeMetadata.examples (metadata env') = None
  /\ TypeMetadata.constants (metadata env') = TypeMetadata.constants (metadata env)
  /\ (forall k, Member.name <$> members k (metadata env') = Member.name <$> kept k)
  /\ (MetadataProcessor.additionalHeaders (this env') = old
      \/ MetadataProcessor.additionalHeaders (this env') = old ++ ofProperties
      \/ MetadataProcessor.additionalHeaders (this env') = old ++ ofProperties ++ ofMethods).
Proof.
  intros Hrun kept old ofProperties ofMethods.
  unfold transoformMetadataAndCollectHeaders, bind, modify, gets, lift in Hrun.
  cbn [on_metadata set_link_open link_open this metadata] in Hrun.
  match type of Hrun with
  | context [set_link_open RenderTokenRule ?x] =>
      set (env1 := set_link_open RenderTokenRule x) in *
  end.
  assert (H1 : TypeMetadata.name (metadata env1) = TypeMetadata.name (metadata env)
               /\ TypeMetadata.description (metadata env1) = None
               /\ TypeMetadata.examples (metadata env1) = None
               /\ TypeMetadata.constants (metadata env1)
                  = TypeMetadata.constants (metadata env)
               /\ (forall k, members k (metadata env1) = kept k)
               /\ this env1 = this env).
  { unfold env1, filterInheritedMembers. repeat split; try reflexivity.
    intros k. apply prepared_members. }
  clearbody env1. destruct H1 as (N1 & D1 & E1 & C1 & M1 & T1).
  destruct (renderMarkdown _ _ _ _ _ _) as [html|e0].
  2:{ injection Hrun as <- <-. rewrite T1.
      repeat split; auto. intros k. now rewrite M1. }
  match type of Hrun with
  | context [transformMembers' Properties ?x] => set (env2 := x) in *
  end.
  assert (H2 : TypeMetadata.name (metadata env2) = TypeMetadata.name (metadata env)
               /\ TypeMetadata.description (metadata env2) = None
               /\ TypeMetadata.examples (metadata env2) = None
               /\ TypeMetadata.constants (metadata env2) = TypeMetadata.constants (metadata env)
               /\ (forall k, members k (metadata env2) = kept k)
               /\ this env2 = this env).
  { unfold env2. cbn [metadata this on_metadata]. repeat split; auto. }
  clearbody env2. destruct H2 as (N2 & D2 & E2 & C2 & M2 & T2).
  (* one stage: the frame it keeps *)
  assert (Hstage : forall k x x' o,
            transformMembers' k x = (x', o) ->
            TypeMetadata.name (metadata x') = TypeMetadata.name (metadata x)
            /\ TypeMetadata.description (metadata x') = TypeMetadata.description (metadata x)
            /\ TypeMetadata.examples (metadata x') = TypeMetadata.examples (metadata x)
            /\ TypeMetadata.constants (metadata x') = TypeMetadata.constants (metadata x)
            /\ (forall k', Member.name <$> members k' (metadata x')
                           = Member.name <$> members k' (metadata x))
            /\ (forall k', k' <> k -> members k' (metadata x') = members k' (metadata x))
            /\ (forall e', o = Throw e' ->
                  MetadataProcessor.additionalHeaders (this x')
                  = MetadataProcessor.additionalHeaders (this x))
            /\ (o = Return tt ->
                  MetadataProcessor.additionalHeaders (this x')
                  = MetadataProcessor.additionalHeaders (this x)
                    ++ headerGroup k (filter (fun m => ~ (k = Properties /\ isConstant m))
                                        (members k (metadata x))))).
  { intros k x x' o H.
    destruct (transformMembers_frame _ _ _ _ H) as (F1 & _ & F3 & F4 & F5).
    pose proof (transformMembers_names _ _ _ _ H) as F6.
    apply transformMembers_spec in H as (_ & _ & _ & Hk & Hc & _ & Hr).
    repeat split; auto. intros Ho. now destruct (Hr Ho) as (_ & Hh & _). }
  assert (HP : headerGroup Properties
                 (filter (fun m => ~ (Properties = Properties /\ isConstant m)) (kept Properties))
               = ofProperties).
  { unfold ofProperties. f_equal. apply list_filter_iff. intros m. tauto. }
  assert (HM : headerGroup Methods
                 (filter (fun m => ~ (Methods = Properties /\ isConstant m)) (kept Methods))
               = ofMethods).
  { unfold ofMethods. f_equal. apply filter_all. intros m [H _]. discriminate H. }
  destruct (transformMembers' Properties env2) as [env3 o3] eqn:S3.
  destruct (Hstage _ _ _ _ S3) as (N3 & D3 & E3 & C3 & M3 & K3 & A3 & R3).
  destruct o3 as [[]|e3].
  2:{ injection Hrun as <- <-. rewrite (A3 e3 eq_refl), T2.
      split; [congruence|]. split; [congruence|]. split; [congruence|].
      split; [congruence|]. split; [intros k; now rewrite M3, M2 | now left]. }
  rewrite (R3 eq_refl), M2, HP, T2 in *. fold old in R3.
  destruct (transformMembers' Methods env3) as [env4 o4] eqn:S4.
  destruct (Hstage _ _ _ _ S4) as (N4 & D4 & E4 & C4 & M4 & K4 & A4 & R4).
  destruct o4 as [[]|e4].
  2:{ injection Hrun as <- <-. rewrite (A4 e4 eq_refl), (R3 eq_refl).
      split; [congruence|]. split; [congruence|]. split; [congruence|].
      split; [congruence|].
      split; [intros k; now rewrite M4, M3, M2 | right; now left]. }
  rewrite (K3 Methods), M2, HM in R4 by discriminate.
  destruct (transformMembers' Events env4) as [env5 o5] eqn:S5.
  destruct (Hstage _ _ _ _ S5) as (N5 & D5 & E5 & C5 & M5 & K5 & A5 & R5).
  destruct o5 as [[]|e5]; [discriminate Hrun|].
  injection Hrun as <- <-. rewrite (A5 e5 eq_refl), (R4 eq_refl), (R3 eq_refl).
  split; [congruence|]. split; [congruence|]. split; [congruence|].
  split; [congruence|]. split; [intros k; now rewrite M5, M4, M3, M2|].
  right. right. now rewrite <- app_assoc.
Qed.

End PipelineThrow.

(** ** X15: text without links *)

Lemma replaceCustomLinks_plain g base version n : forall s,
  Js.all_chars (fun c => negb (Ascii.eqb c "<")) s = true ->
  replaceCustomLinks g base version n s = s.
Proof.
  induction n as [|n IH]; intros s Hs; [reflexivity|].
  destruct s as [|c s]; [reflexivity|]. simpl in Hs.
  apply andb_true_iff in Hs as [Hc Hs]. cbn [replaceCustomLinks].
  replace (customLinkPattern (String c s)) with (@None (string * string)).
  - now rewrite IH.
  - unfold customLinkPattern. destruct (Ascii.eqb_spec c "<") as [->|Hne]; [discriminate Hc|].
    destruct c as [[] [] [] [] [] [] [] []]; try reflexivity. now contradiction Hne.
Qed.

Lemma replaceMdLinks_plain g base version n : forall s,
  Js.all_chars (fun c => negb (Ascii.eqb c "[")) s = true ->
  replaceMdLinks g base version n s = s.
Proof.
  induction n as [|n IH]; intros s Hs; [reflexivity|].
  destruct s as [|c s]; [reflexivity|]. simpl in Hs.
  apply andb_true_iff in Hs as [Hc Hs]. cbn [replaceMdLinks].
  replace (mdLinkPattern (String c s)) with (@None (string * string * string)).
  - now rewrite IH.
  - unfold mdLinkPattern. destruct (Ascii.eqb_spec c "[") as [->|Hne]; [discriminate Hc|].
    destruct c as [[] [] [] [] [] [] [] []]; try reflexivity. now contradiction Hne.
Qed.

(** X15. A text with no [<] and no [[] is returned unchanged by
    [rewriteTypeLinks], whatever the resolver resolves. *)
Theorem rewriteTypeLinks_plain
    (getLinkForKeyPath : string -> string -> option string -> option LinkTarget)
    (versions : list string) (self : MetadataProcessor.t) (text : string) :
  Js.all_chars (fun c => negb (Ascii.eqb c "<" || Ascii.eqb c "[")) text = true ->
  rewriteTypeLinks getLinkForKeyPath versions self text = text.
Proof.
  intros Hplain.
  assert (H1 : Js.all_chars (fun c => negb (Ascii.eqb c "<")) text = true
               /\ Js.all_chars (fun c => negb (Ascii.eqb c "[")) text = true).
  { induction text as [|c s IH]; [split; reflexivity|]. simpl in *.
    apply andb_true_iff in Hplain as [Hc Hs]. destruct (IH Hs) as [-> ->].
    apply negb_true_iff, orb_false_iff in Hc as [-> ->]. split; reflexivity. }
  destruct H1 as [Hlt Hbr]. unfold rewriteTypeLinks, rewriteMdLinks, rewriteCustomLinks.
  rewrite (replaceCustomLinks_plain _ _ _ _ _ Hlt). now apply replaceMdLinks_plain.
Qed.

Lemma rewriteTypeLinks_plain_witness :
  rewriteTypeLinks resolveShowingVersion ["8.0.0"] (MetadataProcessor.new "/" "next")
    "Foo.bar and Titanium.UI (no link)"
  = "Foo.bar and Titanium.UI (no link)".
Proof.
  apply (rewriteTypeLinks_plain resolveShowingVersion ["8.0.0"]
           (MetadataProcessor.new "/" "next") "Foo.bar and Titanium.UI (no link)").
  reflexivity.
Defined.

(** ** The state over the requests *)

Lemma updateType_keys typeName metadata' typesMetadata :
  fst <$> updateType typeName metadata' typesMetadata = fst <$> typesMetadata.
Proof.
  induction typesMetadata as [|[k x] rest IH]; [reflexivity|]. cbn [updateType].
  destruct (String.eqb k typeName); rewrite !fmap_cons; [reflexivity | now rewrite IH].
Qed.

Lemma storeMetadata_keys (store : Store) typeName version metadata' v :
  fmap fst <$> (storeMetadata store typeName version metadata' !! v)
  = fmap fst <$> (store !! v).
Proof.
  unfold storeMetadata. destruct (store !! version) as [types|] eqn:Hv; [|reflexivity].
  destruct (decide (version = v)) as [->|Hne].
  - rewrite lookup_insert_eq, Hv. simpl. now rewrite updateType_keys.
  - now rewrite lookup_insert_ne.
Qed.

Section Requests.

Variable getLinkForKeyPath : string -> string -> option string -> option LinkTarget.
Variable markdown_render : LinkOpenRule -> string -> option string.
Variable localeCompare : string -> string -> Z.
Variable versions : list string.
Variable context_base : string.

#[local] Abbreviation pipeline' :=
  (transoformMetadataAndCollectHeaders getLinkForKeyPath markdown_render localeCompare
     versions).
#[local] Abbreviation extendPageData' :=
  (extendPageData getLinkForKeyPath markdown_render localeCompare versions context_base).
#[local] Abbreviation serve' :=
  (serve getLinkForKeyPath markdown_render localeCompare versions context_base).

(** X16. Whatever the page and however the request completes,
    [extendPageData] keeps the type names of every version of the store,
    in their order; keeps every entry of the cache; keeps the processors
    there are and creates at most one; and keeps the warnings and adds at
    most one. For a page whose path is not an API path it changes neither
    the state nor the page. *)
Theorem extendPageData_keeps (page : Page) (w : World) :
  let w' := fst (fst (extendPageData' page w)) in
  (forall v, fmap fst <$> (service_metadata w' !! v) = fmap fst <$> (service_metadata w !! v))
  /\ (forall v t loc,
        lookupProcessed (processed w) v t = Some loc ->
        lookupProcessed (processed w') v t = Some loc)
  /\ (exists created, objects w' = objects w ++ created /\ length created <= 1)
  /\ (exists added, warnings w' = warnings w ++ added /\ length added <= 1)
  /\ (apiPathPattern (regularPath page) = false ->
      extendPageData' page w = ((w, page), Return tt)).
Proof.
  intros w'. unfold w', extendPageData.
  destruct (apiPathPattern (regularPath page)) eqn:Hapi; cbn [negb fst].
  2:{ repeat split; auto; exists []; rewrite app_nil_r; auto. }
  rewrite pageTypeName_apiFrontmatter, pageVersion_apiFrontmatter.
  set (t' := pageTypeName page). set (v' := pageVersion page).
  destruct (findMetadata (service_metadata w) t' v') as [md|].
  2:{ cbn [fst service_metadata processed objects warnings].
      repeat split; auto; try discriminate.
      - exists []. rewrite app_nil_r. auto.
      - eexists. split; [reflexivity | simpl; lia]. }
  destruct (readProcessed (objects w) (processed w) v' t') as [|loc'|] eqn:Hp'.
  2:{ destruct (objects w !! loc'); cbn [fst set_currentPage_null service_metadata processed
                                          objects warnings];
        repeat split; auto; try discriminate; exists []; rewrite app_nil_r; auto. }
  2:{ cbn [fst]. repeat split; auto; try discriminate; exists []; rewrite app_nil_r; auto. }
  assert (Hcache : forall v t loc,
            lookupProcessed (processed w) v t = Some loc ->
            lookupProcessed (cacheProcessor (processed w) v' t' (length (objects w))) v t
            = Some loc).
  { intros v t loc H. rewrite lookupProcessed_cacheProcessor_ne; [exact H|].
    intros [= -> ->]. apply readProcessed_ProcessorAt with (objects := objects w) in H.
    congruence. }
  destruct (pipeline' _) as [env [[]|e]]; unfold commit;
    cbn [fst set_currentPage_null service_metadata processed objects warnings];
    (split; [intros v; apply storeMetadata_keys|]);
    (split; [auto|]);
    (split; [rewrite insert_at_length; eexists; split; [reflexivity | simpl; lia]|]);
    (split; [exists []; rewrite app_nil_r; auto | discriminate]).
Qed.

(** X17. Take a state in which every processor the cache refers to is
    there, as when the cache is empty, and a page the version of which
    is not the name of a property of [Object.prototype]. After the
    request the state is still such a state. And the request throws in
    two cases only. Either [processed[version][typeName]] is falsy and
    the pipeline throws: then nothing is cached for the pair, the page
    gets no header, and the renderer is left with the plain rule. Or
    [processed[version][typeName]] is a truthy value that is no
    processor (the type is named as an inherited property is): then the
    exception is a [TypeError], the state is as it was, and the page
    gets no header. *)
Theorem extendPageData_throw_cases (page : Page) (w : World) :
  cacheWellFormed w ->
  inheritedKey (pageVersion page) = false ->
  let w' := fst (fst (extendPageData' page w)) in
  let page' := snd (fst (extendPageData' page w)) in
  let version := pageVersion page in
  let typeName := pageTypeName page in
  cacheWellFormed w'
  /\ forall e,
       snd (extendPageData' page w) = Throw e ->
       page_headers page' = page_headers page
       /\ exists md,
            findMetadata (service_metadata w) typeName version = Some md
            /\ ((readProcessed (objects w) (processed w) version typeName = Falsy
                 /\ (exists env,
                       pipeline' {| link_open := renderer_link_open w;
                                    this := MetadataProcessor.new context_base version;
                                    metadata := md |} = (env, Throw e))
                 /\ readProcessed (objects w') (processed w') version typeName = Falsy
                 /\ renderer_link_open w' = RenderTokenRule)
                \/ (readProcessed (objects w) (processed w) version typeName = Foreign
                    /\ e = TypeError /\ w' = w)).
Proof.
  intros Hwf _ w' page' version typeName.
  split; [now apply extendPageData_wellFormed|].
  unfold w', page', extendPageData.
  destruct (apiPathPattern (regularPath page)) eqn:Hapi; cbn [negb fst snd];
    [|discriminate].
  rewrite pageTypeName_apiFrontmatter, pageVersion_apiFrontmatter.
  fold version typeName.
  destruct (findMetadata (service_metadata w) typeName version) as [md|] eqn:Hfound;
    [|discriminate].
  destruct (readProcessed (objects w) (processed w) version typeName) as [|loc'|] eqn:Hp'.
  2:{ apply readProcessed_ProcessorAt in Hp'.
      destruct (Hwf _ _ _ Hp') as [self Hself]. rewrite Hself. discriminate. }
  2:{ cbn [fst snd]. intros e [= <-]. split; [reflexivity|].
      exists md. split; [reflexivity|]. right. auto. }
  destruct (pipeline' _) as [env [[]|e]] eqn:Hrun; unfold commit; cbn [fst snd];
    [discriminate|].
  intros e' [= <-]. split; [reflexivity|]. exists md. split; [reflexivity|]. left.
  cbn [processed objects renderer_link_open].
  split; [reflexivity|]. split; [now exists env|]. split.
  - rewrite <- Hp'. apply readProcessed_objects; [exact Hwf|].
    intros l self Hl. now apply objects_created.
  - now apply (link_open_after_pipeline _ _ _ _ _ _ (Throw e) Hrun).
Qed.

(** X18. A request that returns leaves the [link_open] rule of the
    renderer as it found it; and once the renderer has the plain rule, it
    has it after every sequence of requests: nothing puts the rule of
    VuePress back. *)
Theorem link_open_over_requests (page : Page) (w : World) :
  (snd (extendPageData' page w) = Return tt ->
   renderer_link_open (fst (fst (extendPageData' page w))) = renderer_link_open w)
  /\ (renderer_link_open w = RenderTokenRule ->
      forall pages, renderer_link_open (serve' pages w) = RenderTokenRule).
Proof.
  assert (Hstep : forall p x,
            (snd (extendPageData' p x) = Return tt ->
             renderer_link_open (fst (fst (extendPageData' p x))) = renderer_link_open x)
            /\ (renderer_link_open x = RenderTokenRule ->
                renderer_link_open (fst (fst (extendPageData' p x))) = RenderTokenRule)).
  { intros p x. unfold extendPageData.
    destruct (apiPathPattern (regularPath p)); cbn [negb fst snd]; [|auto].
    destruct (findMetadata _ _ _) as [md|]; [|auto].
    destruct (readProcessed _ _ _ _) as [|loc|].
    2:{ destruct (objects x !! loc); auto. }
    2:{ auto. }
    destruct (pipeline' _) as [env o] eqn:Hrun.
    pose proof (link_open_after_pipeline _ _ _ _ _ _ _ Hrun) as Hrule.
    cbn [link_open] in Hrule.
    destruct o as [[]|e]; unfold commit; cbn [fst snd set_currentPage_null renderer_link_open].
    - split; [auto | congruence].
    - split; [discriminate | auto]. }
  split; [apply Hstep|]. intros Hrule pages. revert w Hrule.
  induction pages as [|p pages IH]; intros w Hrule; [exact Hrule|].
  simpl. apply IH. now apply Hstep.
Qed.

End Requests.

(** ** The further properties on sample inputs *)

Lemma codeUnitCompare_ranked (a b : string) :
  (codeUnitCompare a b <= 0)%Z -> (codeUnitCompare b a <= 0)%Z -> a = b.
Proof.
  unfold codeUnitCompare. rewrite (String.compare_antisym b a).
  destruct (String.compare a b) eqn:E; simpl; intros H1 H2; try lia.
  now apply String.compare_eq_iff.
Qed.

Lemma sortByName_determined_witness :
  [sampleMember "add" None; sampleMember "show" None]
  = sortByName codeUnitCompare [sampleMember "show" None; sampleMember "add" None].
Proof.
  apply (proj2 (sortByName_determined codeUnitCompare
                  [sampleMember "show" None; sampleMember "add" None]
                  [sampleMember "add" None; sampleMember "show" None]
                  codeUnitCompare_consistent)).
  split.
  - repeat constructor. unfold nameLe. vm_compute. discriminate.
  - intros n. rewrite !filter_cons, !filter_nil.
    destruct (decide (rankedWith codeUnitCompare n (sampleMember "add" None))) as [[A1 A2]|A];
      destruct (decide (rankedWith codeUnitCompare n (sampleMember "show" None)))
        as [[S1 S2]|S]; try reflexivity.
    pose proof (codeUnitCompare_ranked _ _ A1 A2) as Ea.
    pose proof (codeUnitCompare_ranked _ _ S1 S2) as Es.
    simpl in Ea, Es. subst n. discriminate Es.
Defined.

Lemma transformMemberFields_fields_witness :
  Member.name sampleWithExamplesAfter = "open"
  /\ renderedField sampleMemberRender (Some "Opens <Foo.bar>")
       (Some "<p>Opens [Foo.bar](/api/Foo.html#bar)</p>")
  /\ Member.returns sampleWithExamplesAfter = None.
Proof.
  assert (Hrun : transformMemberFields sampleMemberRender sampleWithExamples
                 = (sampleWithExamplesAfter, Return tt)) by (vm_compute; reflexivity).
  destruct (transformMemberFields_fields sampleMemberRender sampleWithExamples
              sampleWithExamplesAfter Hrun)
    as (Hname & _ & Hsummary & _ & _ & _ & _ & Hreturns).
  split; [exact Hname|]. split; [exact Hsummary|]. now apply Hreturns.
Defined.

Lemma examples_collapsed_witness :
  exists html,
    sampleMemberRender
      (Some (combinedExamplesMarkdown
               [ {| example_description := Some "Simple"; example_code := Some "open()" |};
                 {| example_description := Some "Modal"; example_code := None |} ]))
    = Return html
    /\ Member.examples sampleWithExamplesAfter = Some (ExamplesHtml html).
Proof.
  assert (Hrun : transformMemberFields sampleMemberRender sampleWithExamples
                 = (sampleWithExamplesAfter, Return tt)) by (vm_compute; reflexivity).
  exact (proj1 (proj2 (examples_collapsed sampleMemberRender sampleWithExamples
                         sampleWithExamplesAfter Hrun))).
Defined.

Lemma pipeline_returns_iff_witness :
  snd (transoformMetadataAndCollectHeaders resolveFooBar sampleRender codeUnitCompare []
         (sampleEnv sampleMetadata)) = Return tt
  /\ snd (transoformMetadataAndCollectHeaders resolveFooBar sampleRender codeUnitCompare []
            (sampleEnv throwingMetadata)) <> Return tt.
Proof.
  assert (Htotal : forall rule text, is_Some (sampleRender rule text))
    by (intros rule text; eexists; reflexivity).
  pose proof (pipeline_returns_iff resolveFooBar sampleRender codeUnitCompare []
                Htotal (sampleEnv sampleMetadata)) as [[_ Hreturns] _].
  pose proof (pipeline_returns_iff resolveFooBar sampleRender codeUnitCompare []
                Htotal (sampleEnv throwingMetadata)) as [[Hnot _] _].
  split.
  - apply Hreturns. split; [eexists; reflexivity|].
    intros k m Hin _ html Hex.
    destruct k; unfold members, sampleEnv, sampleMetadata in Hin;
      cbn [metadata TypeMetadata.properties TypeMetadata.methods TypeMetadata.events] in Hin;
      repeat (apply elem_of_cons in Hin as [->|Hin]);
      try discriminate Hex; inversion Hin.
  - intros Hret. apply Hnot in Hret as [_ Hall].
    assert (Hin : renderedOnce ∈ members Methods (metadata (sampleEnv throwingMetadata)))
      by (right; left).
    assert (Hown : ~ inheritedFromOther (metadata (sampleEnv throwingMetadata)) renderedOnce)
      by (intros (p & Hp & _); discriminate Hp).
    discriminate (Hall Methods renderedOnce Hin Hown "<p>x</p>" eq_refl).
Defined.

Lemma pipeline_after_throw_witness :
  transoformMetadataAndCollectHeaders resolveFooBar sampleRender codeUnitCompare []
    (sampleEnv throwingMetadata) = (throwingAfter, Throw TypeError)
  /\ TypeMetadata.description (metadata throwingAfter) = None
  /\ Member.name <$> TypeMetadata.methods (metadata throwingAfter) = ["close"; "show"]
  /\ title <$> MetadataProcessor.additionalHeaders (this throwingAfter)
     = ["Properties"; "title"].
Proof.
  assert (Hrun : transoformMetadataAndCollectHeaders resolveFooBar sampleRender
                   codeUnitCompare [] (sampleEnv throwingMetadata)
                 = (throwingAfter, Throw TypeError)) by (vm_compute; reflexivity).
  pose proof (pipeline_after_throw resolveFooBar sampleRender codeUnitCompare []
                (sampleEnv throwingMetadata) throwingAfter TypeError Hrun) as H.
  cbv zeta in H. destruct H as (_ & Hdescription & _ & _ & Hnames & _).
  split; [exact Hrun|]. split; [exact Hdescription|].
  split; [etransitivity; [exact (Hnames Methods)|] | ]; vm_compute; reflexivity.
Defined.

Lemma extendPageData_throw_cases_witness :
  cacheWellFormed throwingWorld
  /\ snd (extendPageData resolveFooBar sampleRender codeUnitCompare [] "/"
            samplePage throwingWorld) = Throw TypeError
  /\ cacheWellFormed
       (fst (fst (extendPageData resolveFooBar sampleRender codeUnitCompare [] "/"
                    samplePage throwingWorld)))
  /\ renderer_link_open
       (fst (fst (extendPageData resolveFooBar sampleRender codeUnitCompare [] "/"
                    samplePage throwingWorld)))
     = RenderTokenRule.
Proof.
  assert (Hwf : cacheWellFormed throwingWorld).
  { intros v t loc H. unfold lookupProcessed, throwingWorld in H. cbn [processed] in H.
    rewrite lookup_empty in H. discriminate H. }
  assert (Hversion : inheritedKey (pageVersion samplePage) = false)
    by (vm_compute; reflexivity).
  assert (Hthrows : snd (extendPageData resolveFooBar sampleRender codeUnitCompare [] "/"
                           samplePage throwingWorld) = Throw TypeError)
    by (vm_compute; reflexivity).
  assert (Hnew : readProcessed (objects throwingWorld) (processed throwingWorld)
                   (pageVersion samplePage) (pageTypeName samplePage) = Falsy)
    by (vm_compute; reflexivity).
  pose proof (extendPageData_throw_cases resolveFooBar sampleRender codeUnitCompare [] "/"
                samplePage throwingWorld Hwf Hversion) as H.
  cbv zeta in H. destruct H as [Hwf' Hcases].
  split; [exact Hwf|]. split; [exact Hthrows|]. split; [exact Hwf'|].
  destruct (Hcases TypeError Hthrows) as (_ & md & _ & [(_ & _ & _ & Hrule)|(Hforeign & _)]).
  - exact Hrule.
  - rewrite Hnew in Hforeign. discriminate Hforeign.
Defined.
